(** * Tetris-Clone: the state reducer ([state.ts]) and its helpers ([utils.ts])

    A shallow embedding of the game engine.  JavaScript numbers are IEEE
    doubles; every coordinate, counter and score the engine handles is an
    integer far below [2^53], where double arithmetic is exact, so they are
    modelled as [Z].  The one place where the engine leaves that range is the
    product inside [RNG.hash]; there the rounding of the double
    multiplication and addition is written out ([round_double]).

    Code that can throw ([undefined] dereferenced or called) returns
    [option]; [None] stands for the [TypeError]. *)

From Stdlib Require Import ZArith String DecimalString List Bool Lia Sorted.
From Stdlib Require DecimalPos DecimalZ.
Import ListNotations.
Local Open Scope Z_scope.

(** ** Constants ([Constants] in state.ts) *)

Definition BASE_TICK_RATE_MS : Z := 10.
Definition INITIAL_DROP_TICK : Z := 500.
Definition MAX_SCORE_PER_LEVEL : Z := 1000.
Definition GRID_WIDTH : Z := 10.
Definition GRID_HEIGHT : Z := 20.
Definition MAIN_GRID_X : Z := 4.
Definition MAIN_GRID_Y : Z := -2.
Definition PREVIEW_GRID_X : Z := 3.
Definition PREVIEW_GRID_Y : Z := 1.

(** ** Types (types.ts) *)

Inductive Colour : Set :=
  yellow | blue | orange | red | green | purple | cyan.

Record Cube : Set := mkCube {
  cube_x : Z;
  cube_y : Z;
  cube_colour : Colour;
  cube_id : string
}.

Definition Cubes : Set := list Cube.
Definition Grid : Set := list Cubes.

Record State : Set := mkState {
  gameTick : Z;
  currentTick : Z;
  dropTick : Z;
  currentCubes : Cubes;
  mainGridCubes : Cubes;
  previousMainGridCubes : Cubes;
  previewGridCubes : Cubes;
  holdOnCooldown : bool;
  updateGrid : bool;
  rng : Z;
  level : Z;
  score : Z;
  linesCleared : Z;
  highScore : Z;
  gameEnd : bool
}.

Definition Colour_eqb (c d : Colour) : bool :=
  match c, d with
  | yellow, yellow | blue, blue | orange, orange | red, red
  | green, green | purple, purple | cyan, cyan => true
  | _, _ => false
  end.

(** ** JavaScript helpers *)

(** Template-literal rendering of an integer: decimal digits, a leading
    minus sign for negatives. *)
Definition string_of_Z (z : Z) : string := NilZero.string_of_int (Z.to_int z).

(** [arr[i]] for an integer index: [None] is [undefined]. *)
Definition lookup {A : Type} (l : list A) (i : Z) : option A :=
  if i <? 0 then None else nth_error l (Z.to_nat i).

(** [arr.map((v, index) => ...)]. *)
Fixpoint mapi_from {A B : Type} (f : A -> nat -> B) (n : nat) (l : list A)
  : list B :=
  match l with
  | [] => []
  | v :: t => f v n :: mapi_from f (S n) t
  end.

Definition mapi {A B : Type} (f : A -> nat -> B) (l : list A) : list B :=
  mapi_from f 0%nat l.

(** The double nearest to an integer (round to nearest, ties to even): the
    identity below [2^53], and above it the 53 leading bits rounded.
    Magnitudes beyond the double range ([2^1024]) do not occur. *)
Definition round_double (z : Z) : Z :=
  let n := Z.abs z in
  if n <? 2 ^ 53 then z
  else
    let e := Z.log2 n - 52 in
    let q := Z.shiftr n e in
    let r := n - Z.shiftl q e in
    let half := Z.shiftl 1 (e - 1) in
    let q' :=
      if r <? half then q
      else if half <? r then q + 1
      else if Z.even q then q else q + 1 in
    Z.sgn z * Z.shiftl q' e.

(** A small error monad for the code that can throw. *)
Definition bind {A B : Type} (m : option A) (k : A -> option B) : option B :=
  match m with
  | Some v => k v
  | None => None
  end.

Notation "'let*' v ':=' m 'in' k" := (bind m (fun v => k))
  (at level 10, v name, m at level 100, k at level 200).

(** ** utils.ts *)

Module RNG.
(* LCG using GCC's constants *)
Definition m : Z := 0x80000000.
Definition a : Z := 1103515245.
Definition c : Z := 12345.

(** [(RNG.a * seed + RNG.c) % RNG.m] on doubles: the product and the sum
    are rounded, the remainder ([%], sign of the dividend) is exact. *)
Definition hash (seed : Z) : Z :=
  Z.rem (round_double (round_double (a * seed) + c)) m.

(** [hash % 7]. *)
Definition scale (hash : Z) : Z := Z.rem hash 7.
End RNG.

Definition Coordinates : Set := ((Z * Z) * (Z * Z) * (Z * Z) * (Z * Z))%type.

Definition createTetromino (colour : Colour) (coordinates : Coordinates)
  (group : string) : Cubes :=
  let '(c0, c1, c2, c3) := coordinates in
  [ mkCube (fst c0) (snd c0) colour (group ++ "1")%string;
    mkCube (fst c1) (snd c1) colour (group ++ "2")%string;
    mkCube (fst c2) (snd c2) colour (group ++ "3")%string;
    mkCube (fst c3) (snd c3) colour (group ++ "4")%string ].

Definition createYellowTetromino (x y : Z) :=
  createTetromino yellow ((x, y), (x + 1, y), (x, y + 1), (x + 1, y + 1)).
Definition createBlueTetromino (x y : Z) :=
  createTetromino blue ((x, y + 1), (x + 1, y + 1), (x - 1, y + 1), (x - 1, y)).
Definition createOrangeTetromino (x y : Z) :=
  createTetromino orange
    ((x, y + 1), (x + 1, y + 1), (x - 1, y + 1), (x + 1, y)).
Definition createRedTetromino (x y : Z) :=
  createTetromino red ((x, y), (x - 1, y), (x, y + 1), (x + 1, y + 1)).
Definition createGreenTetromino (x y : Z) :=
  createTetromino green ((x, y), (x + 1, y), (x, y + 1), (x - 1, y + 1)).
Definition createPurpleTetromino (x y : Z) :=
  createTetromino purple ((x, y + 1), (x + 1, y + 1), (x - 1, y + 1), (x, y)).
Definition createCyanTetromino (x y : Z) :=
  createTetromino cyan ((x, y), (x - 1, y), (x + 1, y), (x + 2, y)).

Definition tetrominos : list (Z -> Z -> string -> Cubes) :=
  [ createYellowTetromino; createBlueTetromino; createOrangeTetromino;
    createRedTetromino; createGreenTetromino; createPurpleTetromino;
    createCyanTetromino ].

(** [tetrominos[RNG.scale(index)](x, y)]: calling [undefined] throws. *)
Definition generateTetromino (index x y : Z) : option (string -> Cubes) :=
  let* create := lookup tetrominos (RNG.scale index) in
  Some (create x y).

(** [colours.indexOf(colour)] over the seven colours. *)
Definition findIndexByColour (colour : Colour) : Z :=
  match colour with
  | yellow => 0
  | blue => 1
  | orange => 2
  | red => 3
  | green => 4
  | purple => 5
  | cyan => 6
  end.

(** [Array.from({ length: end - start + 1 }, (_, i) => start + i)]; a
    negative length gives the empty array. *)
Definition range (start end_ : Z) : list Z :=
  map (fun i => start + Z.of_nat i) (seq 0 (Z.to_nat (end_ - start + 1))).

(** ** state.ts: geometry and collision *)

(** [calculateDropTick] is evaluated in floating point
    ([Math.round((500 * 5 ** (-0.1 * (level - 1))) / 10)]); the reducer is
    verified for an arbitrary drop-tick policy, and this table lists the
    values the formula takes at levels 1 to 29 (it is 0 from level 30 on),
    for running the reducer on concrete games.  Levels below 1 need a
    negative score and are not tabulated (the table answers 50 there). *)
Definition dropTickTable : list Z :=
  [50; 43; 36; 31; 26; 22; 19; 16; 14; 12; 10; 9; 7; 6; 5; 4; 4; 3; 3; 2; 2;
   2; 1; 1; 1; 1; 1; 1; 1].

Definition tabulatedDropTick (level : Z) : Z :=
  nth (Z.to_nat (level - 1)) dropTickTable 0.

(** [n] is [50 * 5 ^ (- k / 10)] rounded to the nearest integer:
    [n - 1/2 <= 50 * 5 ^ (- k / 10) < n + 1/2], doubled and raised to the
    tenth power. *)
Definition roundsDropFormula (k : nat) (n : Z) : bool :=
  ((2 * n - 1) ^ 10 * 5 ^ Z.of_nat k <=? 100 ^ 10)
  && (100 ^ 10 <? (2 * n + 1) ^ 10 * 5 ^ Z.of_nat k).

(** [arr.filter(p).length > 0]. *)
Definition nonEmptyFilter {A : Type} (p : A -> bool) (l : list A) : bool :=
  (0 <? length (filter p l))%nat.

Definition isCollide (s : State) : bool :=
  nonEmptyFilter
    (fun cube =>
       nonEmptyFilter
         (fun mainCube =>
            (cube_x mainCube =? cube_x cube) && (cube_y mainCube =? cube_y cube))
         (mainGridCubes s)
       || (cube_y cube >=? GRID_HEIGHT))
    (currentCubes s).

Definition isOutOfBound (s : State) : bool :=
  nonEmptyFilter
    (fun cube =>
       (cube_x cube <? 0) || (cube_x cube >=? GRID_WIDTH)
       || (cube_y cube >=? GRID_HEIGHT))
    (currentCubes s).

Definition isValid (s : State) : bool :=
  negb (isCollide s) && negb (isOutOfBound s) && negb (gameEnd s).

(** The identity of a settled cube: [`x${x}y${y}`]. *)
Definition coordId (x y : Z) : string :=
  ("x" ++ string_of_Z x ++ "y" ++ string_of_Z y)%string.

Definition generateNewCubes (currentCubes : Cubes) (relativeX relativeY : Z)
  (id : bool) : Cubes :=
  map (fun cube =>
         mkCube (cube_x cube + relativeX) (cube_y cube + relativeY)
           (cube_colour cube)
           (if id
            then coordId (cube_x cube + relativeX) (cube_y cube + relativeY)
            else cube_id cube))
    currentCubes.

Definition emptyGrid : Grid := repeat [] (Z.to_nat GRID_HEIGHT).

Definition convertTo2D (cubes : Cubes) : Grid :=
  fold_left
    (fun (grid : Grid) cube =>
       mapi (fun row index =>
               if Z.of_nat index =? cube_y cube then row ++ [cube] else row)
         grid)
    cubes emptyGrid.

(** [row[0].y] is only read on a row of [GRID_WIDTH] cubes, which has a
    first cube. *)
Definition findLinesToClear (grid : Grid) : list Z :=
  filter (fun row => negb (row =? -1))
    (map (fun row : Cubes =>
            if (length row =? Z.to_nat GRID_WIDTH)%nat
            then match row with
                 | cube :: _ => cube_y cube
                 | [] => -1
                 end
            else -1)
       grid).

Definition clearLines (cubes : Cubes) (line : Z) : Cubes :=
  map (fun cube =>
         if cube_y cube <=? line
         then mkCube (cube_x cube) (cube_y cube + 1) (cube_colour cube)
                (coordId (cube_x cube) (cube_y cube + 1))
         else cube)
    (filter (fun cube => negb (cube_y cube =? line)) cubes).

Definition shouldUpdateGrid (s : State) : bool :=
  (isCollide s || (length (currentCubes s) =? 0)%nat) && negb (gameEnd s).

Definition findMinMaxNum (minMaxArr : Z * Z) (num : Z) : Z * Z :=
  let minNum := if fst minMaxArr <? num then fst minMaxArr else num in
  let maxNum := if snd minMaxArr >? num then snd minMaxArr else num in
  (minNum, maxNum).

Definition calculateRotation (pivotPointPos currentPos : Z * Z) : Z * Z :=
  let relativeX := fst currentPos - fst pivotPointPos in
  let relativeY := snd currentPos - snd pivotPointPos in
  let rotatedX := - relativeY in
  let rotatedY := relativeX in
  (fst pivotPointPos + rotatedX, snd pivotPointPos + rotatedY).

(** [cubes.reduce((acc, { x }) => findMinMaxNum(acc, x), [GRID_WIDTH, -1])] *)
Definition minMaxX (cubes : Cubes) : Z * Z :=
  fold_left (fun acc cube => findMinMaxNum acc (cube_x cube)) cubes
    (GRID_WIDTH, -1).

(** The part of a landing that [GameTick] and [HardDrop] both spell out:
    the lines to clear in the merged grid, the grid after clearing them, the
    new score and the game-over test. *)
Definition linesToClearOf (updatedMainGridCubes : Cubes) : list Z :=
  findLinesToClear (convertTo2D updatedMainGridCubes).

Definition finalMainGridCubesOf (updatedMainGridCubes : Cubes) : Cubes :=
  let linesToClear := linesToClearOf updatedMainGridCubes in
  if (0 <? length linesToClear)%nat
  then fold_left clearLines linesToClear updatedMainGridCubes
  else updatedMainGridCubes.

Definition gameOverOf (finalMainGridCubes : Cubes) : bool :=
  nonEmptyFilter (fun cube => cube_y cube <? 0) finalMainGridCubes.

(** [s.previewGridCubes[0].colour]: throws on an empty preview. *)
Definition previewColour (s : State) : option Colour :=
  let* cube := lookup (previewGridCubes s) 0 in
  Some (cube_colour cube).

(** The piece spawned from the preview and the next preview. *)
Definition spawnedCubes (s : State) : option Cubes :=
  let* colour := previewColour s in
  let* create :=
    generateTetromino (findIndexByColour colour) MAIN_GRID_X MAIN_GRID_Y in
  Some (create "c"%string).

Definition nextPreview (s : State) : option Cubes :=
  let* create :=
    generateTetromino (RNG.scale (rng s)) PREVIEW_GRID_X PREVIEW_GRID_Y in
  Some (create "p"%string).

(** [arr.reduce((acc, v, index) => ..., init)]. *)
Fixpoint reducei_from {A B : Type} (f : B -> A -> nat -> B) (n : nat)
  (l : list A) (acc : B) : B :=
  match l with
  | [] => acc
  | v :: t => reducei_from f (S n) t (f acc v n)
  end.

Definition reducei {A B : Type} (f : B -> A -> nat -> B) (l : list A)
  (init : B) : B :=
  reducei_from f 0%nat l init.

(** [{ ...s, currentCubes: cubes }] *)
Definition withCurrentCubes (s : State) (cubes : Cubes) : State :=
  {| gameTick := gameTick s;
     currentTick := currentTick s;
     dropTick := dropTick s;
     currentCubes := cubes;
     mainGridCubes := mainGridCubes s;
     previousMainGridCubes := previousMainGridCubes s;
     previewGridCubes := previewGridCubes s;
     holdOnCooldown := holdOnCooldown s;
     updateGrid := updateGrid s;
     rng := rng s;
     level := level s;
     score := score s;
     linesCleared := linesCleared s;
     highScore := highScore s;
     gameEnd := gameEnd s |}.

(** [{ ...s, currentCubes: cubes, updateGrid: false }], the result of the
    three moves and of [Rotate]. *)
Definition withPiece (s : State) (cubes : Cubes) : State :=
  {| gameTick := gameTick s;
     currentTick := currentTick s;
     dropTick := dropTick s;
     currentCubes := cubes;
     mainGridCubes := mainGridCubes s;
     previousMainGridCubes := previousMainGridCubes s;
     previewGridCubes := previewGridCubes s;
     holdOnCooldown := holdOnCooldown s;
     updateGrid := false;
     rng := rng s;
     level := level s;
     score := score s;
     linesCleared := linesCleared s;
     highScore := highScore s;
     gameEnd := gameEnd s |}.

(** The bootstrap state; [initialRNG] is
    [Math.round(RNG.hash(Math.random() * 1000))], an integer in [0, 2^31]. *)
Definition initialState (initialRNG : Z) : option State :=
  let* create :=
    generateTetromino initialRNG PREVIEW_GRID_X PREVIEW_GRID_Y in
  Some {| gameTick := 0;
          currentTick := 0;
          dropTick := INITIAL_DROP_TICK / BASE_TICK_RATE_MS;
          currentCubes := [];
          mainGridCubes := [];
          previousMainGridCubes := [];
          previewGridCubes := create "p"%string;
          holdOnCooldown := false;
          updateGrid := false;
          rng := RNG.hash initialRNG;
          level := 1;
          score := 0;
          linesCleared := 0;
          highScore := 0;
          gameEnd := false |}.

(** ** state.ts: the actions *)

Inductive Action : Set :=
  Tick | MoveLeft | MoveRight | MoveDown | Rotate | HardDrop | Reset.

Definition GameTick_apply (s : State) : option State :=
  (* Generates new cubes assuming the current cubes are not colliding *)
  let newCubes := generateNewCubes (currentCubes s) 0 1 false in
  let newState := withCurrentCubes s newCubes in
  let updatedID := generateNewCubes (currentCubes s) 0 0 true in
  (* Verifies if the new cubes are colliding with the main grid *)
  let updatedMainGridCubes :=
    if isCollide newState
    then mainGridCubes s ++ updatedID
    else mainGridCubes s in
  (* Check if any lines are cleared *)
  let mainGridCubes2D := convertTo2D updatedMainGridCubes in
  let linesToClear := findLinesToClear mainGridCubes2D in
  let finalMainGridCubes :=
    if (0 <? length linesToClear)%nat
    then fold_left clearLines linesToClear updatedMainGridCubes
    else updatedMainGridCubes in
  (* Update state *)
  let newScore := score s + Z.of_nat (length linesToClear) * 100 in
  let gameOver :=
    nonEmptyFilter (fun cube => cube_y cube <? 0) finalMainGridCubes in
  let* currentCubes' :=
    if shouldUpdateGrid newState then spawnedCubes s else Some newCubes in
  let* previewGridCubes' :=
    if shouldUpdateGrid newState
    then nextPreview s
    else Some (previewGridCubes s) in
  Some {| gameTick := gameTick s + 1;
          currentTick := currentTick s;
          dropTick := dropTick s;
          currentCubes := currentCubes';
          mainGridCubes :=
            if gameEnd s then mainGridCubes s else finalMainGridCubes;
          previousMainGridCubes := mainGridCubes s;
          previewGridCubes := previewGridCubes';
          holdOnCooldown :=
            if shouldUpdateGrid newState then false else holdOnCooldown s;
          updateGrid := shouldUpdateGrid newState;
          rng := if shouldUpdateGrid newState then RNG.hash (rng s) else rng s;
          level := newScore / MAX_SCORE_PER_LEVEL + 1;
          score := newScore;
          linesCleared := linesCleared s + Z.of_nat (length linesToClear);
          highScore := if highScore s <? newScore then newScore else highScore s;
          gameEnd := gameOver |}.

Definition MoveLeft_apply (s : State) : State :=
  let newCubes := generateNewCubes (currentCubes s) (-1) 0 false in
  let newState := withCurrentCubes s newCubes in
  withPiece s (if isValid newState then newCubes else currentCubes s).

Definition MoveRight_apply (s : State) : State :=
  let newCubes := generateNewCubes (currentCubes s) 1 0 false in
  let newState := withCurrentCubes s newCubes in
  withPiece s (if isValid newState then newCubes else currentCubes s).

Definition MoveDown_apply (s : State) : State :=
  let newCubes := generateNewCubes (currentCubes s) 0 1 false in
  let newState := withCurrentCubes s newCubes in
  withPiece s (if isValid newState then newCubes else currentCubes s).

(** The wall kick of [Rotate]: how far the rotated cubes are shifted. *)
Definition wallKick (newCubes : Cubes) : Z :=
  let '(minX, maxX) := minMaxX newCubes in
  if minX <? 0 then - minX
  else if maxX >=? GRID_WIDTH then GRID_WIDTH - maxX - 1
  else 0.

Definition Rotate_apply (s : State) : State :=
  (* When there are no cubes, the tetromino cannot be rotated.
     Square tetromino cannot be rotated *)
  match currentCubes s with
  | [] => s
  | pivot :: _ =>
      if Colour_eqb (cube_colour pivot) yellow then s
      else
        let initialPos := (cube_x pivot, cube_y pivot) in
        let newCubes :=
          map (fun cube =>
                 let newRotation :=
                   calculateRotation initialPos (cube_x cube, cube_y cube) in
                 mkCube (fst newRotation) (snd newRotation)
                   (cube_colour cube) (cube_id cube))
            (currentCubes s) in
        (* Wall kick *)
        let relativeX := wallKick newCubes in
        let adjustedCubes := generateNewCubes newCubes relativeX 0 false in
        let newState := withCurrentCubes s adjustedCubes in
        let finalCubes :=
          if isCollide newState then currentCubes s else adjustedCubes in
        withPiece s finalCubes
  end.

(** The distance [HardDrop] moves the current cubes down. *)
Definition hardDropDistance (s : State) : Z :=
  (* Calculate the min and max x values of current cube *)
  let '(minX, maxX) := minMaxX (currentCubes s) in
  (* Group the current cubes into different arrays and
     calculate the highest y value of each array *)
  let currentCubesInRange :=
    map (fun x => filter (fun cube => cube_x cube =? x) (currentCubes s))
      (range minX maxX) in
  let highestCurrentYs :=
    map (fun cubeArr : Cubes =>
           fold_left
             (fun acc cube => if cube_y cube >? acc then cube_y cube else acc)
             cubeArr MAIN_GRID_Y)
      currentCubesInRange in
  (* Split the main grid cubes into different arrays and
     calculate the lowest y value of each array *)
  let gridCubesInRange :=
    map (fun x => filter (fun cube => cube_x cube =? x) (mainGridCubes s))
      (range minX maxX) in
  let lowestGridYs :=
    map (fun cubeArr : Cubes =>
           fold_left
             (fun acc cube =>
                match lookup highestCurrentYs (cube_x cube - minX) with
                | Some highest =>
                    if (cube_y cube <? acc) && (cube_y cube >? highest)
                    then cube_y cube
                    else acc
                | None => acc
                end)
             cubeArr GRID_HEIGHT)
      gridCubesInRange in
  (* Calculate the relative y value to move the current cubes *)
  reducei
    (fun acc y index =>
       match nth_error highestCurrentYs index with
       | Some highest =>
           let newY := y - highest - 1 in
           if newY <? acc then newY else acc
       | None => acc
       end)
    lowestGridYs GRID_HEIGHT.

Definition HardDrop_apply (s : State) : option State :=
  let relativeY := hardDropDistance s in
  let newCubes := generateNewCubes (currentCubes s) 0 relativeY true in
  let updatedMainGridCubes := mainGridCubes s ++ newCubes in
  (* Check if any lines are cleared *)
  let mainGridCubes2D := convertTo2D updatedMainGridCubes in
  let linesToClear := findLinesToClear mainGridCubes2D in
  let finalMainGridCubes :=
    if (0 <? length linesToClear)%nat
    then fold_left clearLines linesToClear updatedMainGridCubes
    else updatedMainGridCubes in
  (* Update state *)
  let newScore := score s + Z.of_nat (length linesToClear) * 100 in
  let gameOver :=
    nonEmptyFilter (fun cube => cube_y cube <? 0) finalMainGridCubes in
  let* currentCubes' := spawnedCubes s in
  let* previewGridCubes' := nextPreview s in
  Some {| gameTick := gameTick s;
          currentTick := currentTick s;
          dropTick := dropTick s;
          currentCubes := currentCubes';
          mainGridCubes :=
            if gameEnd s then mainGridCubes s else finalMainGridCubes;
          previousMainGridCubes := mainGridCubes s;
          previewGridCubes := previewGridCubes';
          holdOnCooldown := false;
          updateGrid := true;
          rng := RNG.hash (rng s);
          level := newScore / MAX_SCORE_PER_LEVEL + 1;
          score := newScore;
          linesCleared := linesCleared s + Z.of_nat (length linesToClear);
          highScore := if highScore s <? newScore then newScore else highScore s;
          gameEnd := gameOver |}.

Definition Reset_apply (s : State) : State :=
  if gameEnd s
  then {| gameTick := 0;
          currentTick := 0;
          dropTick := dropTick s;
          currentCubes := [];
          mainGridCubes := [];
          previousMainGridCubes := mainGridCubes s;
          previewGridCubes := previewGridCubes s;
          holdOnCooldown := holdOnCooldown s;
          updateGrid := false;
          rng := rng s;
          level := 1;
          score := 0;
          linesCleared := 0;
          highScore := highScore s;
          gameEnd := false |}
  else s.

Section Reducer.

(** The drop-tick policy, [calculateDropTick] in the source. *)
Variable calculateDropTick : Z -> Z.

Definition Tick_apply (s : State) : option State :=
  let newCurrentTick :=
    if currentTick s + 1 =? dropTick s then 0 else currentTick s + 1 in
  let newState :=
    if newCurrentTick =? 0
    then {| gameTick := gameTick s;
            currentTick := newCurrentTick;
            dropTick := calculateDropTick (level s);
            currentCubes := currentCubes s;
            mainGridCubes := mainGridCubes s;
            previousMainGridCubes := previousMainGridCubes s;
            previewGridCubes := previewGridCubes s;
            holdOnCooldown := holdOnCooldown s;
            updateGrid := false;
            rng := rng s;
            level := level s;
            score := score s;
            linesCleared := linesCleared s;
            highScore := highScore s;
            gameEnd := gameEnd s |}
    else {| gameTick := gameTick s;
            currentTick := newCurrentTick;
            dropTick := dropTick s;
            currentCubes := currentCubes s;
            mainGridCubes := mainGridCubes s;
            previousMainGridCubes := previousMainGridCubes s;
            previewGridCubes := previewGridCubes s;
            holdOnCooldown := holdOnCooldown s;
            updateGrid := false;
            rng := rng s;
            level := level s;
            score := score s;
            linesCleared := linesCleared s;
            highScore := highScore s;
            gameEnd := gameEnd s |} in
  if newCurrentTick =? 0 then GameTick_apply newState else Some newState.

(** [a.apply(s)] *)
Definition apply (s : State) (a : Action) : option State :=
  match a with
  | Tick => Tick_apply s
  | MoveLeft => Some (MoveLeft_apply s)
  | MoveRight => Some (MoveRight_apply s)
  | MoveDown => Some (MoveDown_apply s)
  | Rotate => Some (Rotate_apply s)
  | HardDrop => HardDrop_apply s
  | Reset => Some (Reset_apply s)
  end.

Definition reduceState (s : State) (a : Action) : option State := apply s a.

(** [scan(reduceState, initialState)] over a finite prefix of the action
    stream: the state after the actions, in arrival order. *)
Fixpoint run (s : State) (actions : list Action) : option State :=
  match actions with
  | [] => Some s
  | a :: rest => let* s' := reduceState s a in run s' rest
  end.

(** The states the engine can be in: those the fold reaches from a
    bootstrap state. *)
Definition reachable (s : State) : Prop :=
  exists initialRNG s0 actions,
    0 <= initialRNG <= 2 ^ 31 /\
    initialState initialRNG = Some s0 /\
    run s0 actions = Some s.

End Reducer.

(** ** Notions the properties are stated with

    The propositions and the one-shot functions below follow the wording of
    the specification; the facts relate them to the definitions embedded
    from the source. *)

(** A state on which no action throws: the preview holds a cube and the
    seed is a non-negative integer.  Every bootstrap state is one, and the
    actions keep it. *)
Definition wellFormed (s : State) : Prop :=
  previewGridCubes s <> [] /\ 0 <= rng s.

(** The linear congruential step in exact integer arithmetic. *)
Definition lcg (seed : Z) : Z := (RNG.a * seed + RNG.c) mod RNG.m.

(** The coordinate of a cube, and the settled-grid invariant. *)
Definition coords (cube : Cube) : Z * Z := (cube_x cube, cube_y cube).

Definition noDuplicateCoords (cubes : Cubes) : Prop := NoDup (map coords cubes).

(** A decision procedure for the settled-grid invariant on concrete
    grids. *)
Fixpoint allDistinct (l : list (Z * Z)) : bool :=
  match l with
  | [] => true
  | p :: rest =>
      negb (existsb (fun q => (fst q =? fst p) && (snd q =? snd p)) rest)
      && allDistinct rest
  end.

(** Collision, bounds and validity as propositions over a piece and the
    settled cubes. *)
Definition colliding (piece settled : Cubes) : Prop :=
  exists cube, In cube piece /\
    ((exists mainCube, In mainCube settled /\ coords mainCube = coords cube)
     \/ GRID_HEIGHT <= cube_y cube).

Definition outOfBounds (piece : Cubes) : Prop :=
  exists cube, In cube piece /\
    (cube_x cube < 0 \/ GRID_WIDTH <= cube_x cube \/ GRID_HEIGHT <= cube_y cube).

Definition validPlacement (piece settled : Cubes) (over : bool) : Prop :=
  ~ colliding piece settled /\ ~ outOfBounds piece /\ over = false.

(** The displacement of the three moves. *)
Definition moveDelta (a : Action) : option (Z * Z) :=
  match a with
  | MoveLeft => Some (-1, 0)
  | MoveRight => Some (1, 0)
  | MoveDown => Some (0, 1)
  | _ => None
  end.

Definition translatedBy (dx dy : Z) (cube cube' : Cube) : Prop :=
  cube_x cube' = cube_x cube + dx /\ cube_y cube' = cube_y cube + dy /\
  cube_colour cube' = cube_colour cube /\ cube_id cube' = cube_id cube.

(** Rotation and wall kick: each cube turned by [(rx, ry) -> (-ry, rx)]
    about the pivot, then the whole piece shifted right by [-minX] if
    [minX < 0], else left by [maxX - GRID_WIDTH + 1] if
    [maxX >= GRID_WIDTH], else left alone; [minX] and [maxX] are the least
    and the greatest column of the rotated cubes. *)
Definition rotatedAbout (pivot cube : Cube) : Cube :=
  let rx := cube_x cube - cube_x pivot in
  let ry := cube_y cube - cube_y pivot in
  mkCube (cube_x pivot - ry) (cube_y pivot + rx)
    (cube_colour cube) (cube_id cube).

Definition leftmostX (first : Cube) (rest : Cubes) : Z :=
  fold_left Z.min (map cube_x rest) (cube_x first).

Definition rightmostX (first : Cube) (rest : Cubes) : Z :=
  fold_left Z.max (map cube_x rest) (cube_x first).

Definition shiftedX (dx : Z) (cube : Cube) : Cube :=
  mkCube (cube_x cube + dx) (cube_y cube) (cube_colour cube) (cube_id cube).

Definition kicked (cubes : Cubes) : Cubes :=
  match cubes with
  | [] => []
  | first :: rest =>
      let minX := leftmostX first rest in
      let maxX := rightmostX first rest in
      if minX <? 0 then map (shiftedX (- minX)) cubes
      else if GRID_WIDTH <=? maxX
           then map (shiftedX (- (maxX - GRID_WIDTH + 1))) cubes
           else cubes
  end.

Definition rotatedAndKicked (piece : Cubes) : Cubes :=
  match piece with
  | [] => []
  | pivot :: _ => kicked (map (rotatedAbout pivot) piece)
  end.

(** The pieces [Rotate] leaves alone: no cube, or a yellow first cube. *)
Definition exemptFromRotation (piece : Cubes) : Prop :=
  match piece with
  | [] => True
  | pivot :: _ => cube_colour pivot = yellow
  end.

(** The cubes of a row, and a full row as [findLinesToClear] sees it: a
    row of the grid that holds exactly [GRID_WIDTH] cubes. *)
Definition rowCells (cubes : Cubes) (y : Z) : Cubes :=
  filter (fun cube => cube_y cube =? y) cubes.

Definition fullRow (cubes : Cubes) (y : Z) : Prop :=
  0 <= y < GRID_HEIGHT /\ length (rowCells cubes y) = Z.to_nat GRID_WIDTH.

Definition isFullRow (cubes : Cubes) (y : Z) : bool :=
  (length (rowCells cubes y) =? Z.to_nat GRID_WIDTH)%nat.

(** A cube moved down [k] rows, its identity recomputed from the new
    coordinates. *)
Definition movedDown (k : Z) (cube : Cube) : Cube :=
  mkCube (cube_x cube) (cube_y cube + k) (cube_colour cube)
    (coordId (cube_x cube) (cube_y cube + k)).

(** Collapsing a set of rows at once: the cubes of those rows go, and every
    other cube moves down by the number of those rows below it. *)
Definition rowsBelow (lines : list Z) (y : Z) : Z :=
  Z.of_nat (length (filter (fun line => y <? line) lines)).

Definition droppedBy (lines : list Z) (cube : Cube) : Cube :=
  let k := rowsBelow lines (cube_y cube) in
  if k =? 0 then cube else movedDown k cube.

Definition collapsed (lines : list Z) (cubes : Cubes) : Cubes :=
  map (droppedBy lines)
    (filter (fun cube => negb (existsb (Z.eqb (cube_y cube)) lines)) cubes).

(** The settled grid a landing works on, before lines are cleared: what
    [GameTick] and [HardDrop] call [updatedMainGridCubes]. *)
Definition gameTickMerged (s : State) : Cubes :=
  if isCollide
       (withCurrentCubes s (generateNewCubes (currentCubes s) 0 1 false))
  then mainGridCubes s ++ generateNewCubes (currentCubes s) 0 0 true
  else mainGridCubes s.

Definition hardDropMerged (s : State) : Cubes :=
  mainGridCubes s
  ++ generateNewCubes (currentCubes s) 0 (hardDropDistance s) true.

(** Whether a Tick reaches the drop tick and runs [GameTick]. *)
Definition rollsOver (s : State) : bool :=
  (if currentTick s + 1 =? dropTick s then 0 else currentTick s + 1) =? 0.

(** Score, line count, level and settled grid after a step that cleared
    the full lines of [merged]. *)
Definition scoredFor (s s' : State) (merged : Cubes) : Prop :=
  let lines := linesToClearOf merged in
  let n := Z.of_nat (length lines) in
  score s' = score s + 100 * n /\
  linesCleared s' = linesCleared s + n /\
  level s' = score s' / 1000 + 1 /\
  (level s' <= 1 <-> score s' < 1000) /\
  (level s' = 2 <-> 1000 <= score s' < 2000) /\
  (gameEnd s = false ->
   mainGridCubes s' = collapsed lines merged /\
   Z.of_nat (length (mainGridCubes s')) + GRID_WIDTH * n
   = Z.of_nat (length merged)).

(** The free fall of a piece: in each column the piece occupies, the
    distance from its lowest cube there to the first obstacle below it (the
    floor [y = GRID_HEIGHT], or the highest settled cube of the column below
    that cube), less one; the piece falls by the least of these. *)
Definition lowestCellY (piece : Cubes) (x : Z) : option Z :=
  match filter (fun cube => cube_x cube =? x) piece with
  | [] => None
  | cube :: rest => Some (fold_left Z.max (map cube_y rest) (cube_y cube))
  end.

Definition obstacleY (settled : Cubes) (x bottom : Z) : Z :=
  fold_left Z.min
    (map cube_y
       (filter (fun cube => (cube_x cube =? x) && (bottom <? cube_y cube))
          settled))
    GRID_HEIGHT.

Definition columnFreeFall (piece settled : Cubes) (x : Z) : option Z :=
  option_map (fun bottom => obstacleY settled x bottom - bottom - 1)
    (lowestCellY piece x).

Definition freeFallDistance (piece settled : Cubes) : option Z :=
  let falls :=
    flat_map (fun cube =>
                match columnFreeFall piece settled (cube_x cube) with
                | Some d => [d]
                | None => []
                end)
      piece in
  match falls with
  | [] => None
  | d :: rest => Some (fold_left Z.min rest d)
  end.

(** ** Example states and games *)

(** Example games, from a bootstrap state with the given [initialRNG]. *)
Definition play (initialRNG : Z) (actions : list Action) : option State :=
  let* s0 := initialState initialRNG in
  run tabulatedDropTick s0 actions.

(** A small game-over state and a small state in play. *)
Definition overState : State :=
  {| gameTick := 12;
     currentTick := 7;
     dropTick := 36;
     currentCubes := createYellowTetromino MAIN_GRID_X MAIN_GRID_Y "c";
     mainGridCubes :=
       [ mkCube 4 (-1) red (coordId 4 (-1)); mkCube 4 0 red (coordId 4 0) ];
     previousMainGridCubes := [ mkCube 4 0 red (coordId 4 0) ];
     previewGridCubes := createCyanTetromino PREVIEW_GRID_X PREVIEW_GRID_Y "p";
     holdOnCooldown := false;
     updateGrid := true;
     rng := 1159229952;
     level := 3;
     score := 2100;
     linesCleared := 21;
     highScore := 2100;
     gameEnd := true |}.

Definition playingState : State :=
  {| gameTick := 3;
     currentTick := 7;
     dropTick := 50;
     currentCubes := createPurpleTetromino MAIN_GRID_X 5 "c";
     mainGridCubes :=
       [ mkCube 0 19 red (coordId 0 19); mkCube 1 19 red (coordId 1 19) ];
     previousMainGridCubes := [];
     previewGridCubes := createCyanTetromino PREVIEW_GRID_X PREVIEW_GRID_Y "p";
     holdOnCooldown := false;
     updateGrid := false;
     rng := 1159229952;
     level := 1;
     score := 0;
     linesCleared := 0;
     highScore := 300;
     gameEnd := false |}.

(** A state in play one tick before the drop, with six settled cubes in
    the bottom row, a cyan piece above the four free columns and a score of
    900. *)
Definition lineReadyState : State :=
  {| gameTick := 40;
     currentTick := 49;
     dropTick := 50;
     currentCubes := createCyanTetromino 7 5 "c";
     mainGridCubes := map (fun x => mkCube x 19 red (coordId x 19)) (range 0 5);
     previousMainGridCubes := [];
     previewGridCubes :=
       createYellowTetromino PREVIEW_GRID_X PREVIEW_GRID_Y "p";
     holdOnCooldown := false;
     updateGrid := false;
     rng := 1159229952;
     level := 1;
     score := 900;
     linesCleared := 9;
     highScore := 900;
     gameEnd := false |}.

(** A settled grid with rows 17 and 19 full, two cubes in row 18 and one
    in row 16. *)
Definition fullRowOf (y : Z) : Cubes :=
  map (fun x => mkCube x y green (coordId x y)) (range 0 (GRID_WIDTH - 1)).

Definition twoFullRows : Cubes :=
  fullRowOf 19
  ++ [ mkCube 2 18 blue (coordId 2 18); mkCube 3 18 blue (coordId 3 18) ]
  ++ fullRowOf 17
  ++ [ mkCube 2 16 cyan "c1" ].

(** Twelve hard drops from seed 37 stack the pieces up to row -1: the game
    is over, and a green piece has been spawned on top. *)
Definition gameOverExample : option State := play 37 (repeat HardDrop 12).

(** Eleven hard drops from seed 1 fill the spawn columns up to row 0; the
    game goes on, the last drop has set the render hint, and the new piece
    cannot move down. *)
Definition blockedExample : option State := play 1 (repeat HardDrop 11).

(** The first hard drop of a game with seed 0 spawns the yellow square
    over an empty grid. *)
Definition yellowExample : option State := play 0 [HardDrop].

(** The first hard drop of a game with seed 6 spawns the cyan piece in row
    -2 over an empty grid. *)
Definition cyanAtSpawn : option State := play 6 [HardDrop].

(** A game with seed 1714 in which the fourteenth action, a hard drop of
    the cyan piece beside six settled cubes of row 18, clears that row; nine
    more hard drops then end the game. *)
Definition lineClearActions : list Action :=
  [ HardDrop; MoveLeft; HardDrop; HardDrop; MoveLeft; MoveLeft; Rotate;
    MoveLeft; HardDrop; HardDrop; MoveRight; MoveRight; MoveRight; HardDrop ].

(** A game with seed 1356: fifty-one actions stack the pieces until one
    settles with a cube in row -1 and the game is over (every hard drop of
    the game falls the full free-fall distance); then the spawned piece is
    turned and hard-dropped. *)
Definition lostFlagActions : list Action :=
  [ HardDrop; Rotate; MoveRight; MoveRight; HardDrop; MoveLeft; MoveLeft;
    HardDrop; Rotate; Rotate; MoveRight; MoveRight; HardDrop; Rotate;
    HardDrop; Rotate; HardDrop; HardDrop; Rotate; Rotate; MoveRight;
    MoveRight; MoveRight; HardDrop; MoveLeft; HardDrop; MoveLeft; MoveLeft;
    MoveLeft; HardDrop; MoveRight; MoveRight; HardDrop; HardDrop; MoveRight;
    MoveRight; MoveRight; HardDrop; Rotate; MoveRight; MoveRight; HardDrop;
    Rotate; Rotate; MoveLeft; MoveLeft; MoveLeft; HardDrop; Rotate;
    MoveRight; HardDrop;
    (* the game is over here *)
    Rotate; HardDrop ].

(** Whether every hard drop of a non-empty piece along a game moves the
    piece by its free-fall distance. *)
Fixpoint dropsAreFull (s : State) (actions : list Action) : bool :=
  match actions with
  | [] => true
  | a :: rest =>
      match a, currentCubes s with
      | HardDrop, _ :: _ =>
          match freeFallDistance (currentCubes s) (mainGridCubes s) with
          | Some d => d =? hardDropDistance s
          | None => false
          end
      | _, _ => true
      end
      && match apply tabulatedDropTick s a with
         | Some s' => dropsAreFull s' rest
         | None => false
         end
  end.

(** ** Notions of the further properties *)

(** The state a Tick hands to [GameTick] when the drop tick is reached. *)
Definition tickedOver (calculateDropTick : Z -> Z) (s : State) : State :=
  {| gameTick := gameTick s;
     currentTick := 0;
     dropTick := calculateDropTick (level s);
     currentCubes := currentCubes s;
     mainGridCubes := mainGridCubes s;
     previousMainGridCubes := previousMainGridCubes s;
     previewGridCubes := previewGridCubes s;
     holdOnCooldown := holdOnCooldown s;
     updateGrid := false;
     rng := rng s;
     level := level s;
     score := score s;
     linesCleared := linesCleared s;
     highScore := highScore s;
     gameEnd := gameEnd s |}.

(** A state whose tick count has advanced by [k] without reaching the drop
    tick. *)
Definition tickedBy (k : Z) (s : State) : State :=
  {| gameTick := gameTick s;
     currentTick := currentTick s + k;
     dropTick := dropTick s;
     currentCubes := currentCubes s;
     mainGridCubes := mainGridCubes s;
     previousMainGridCubes := previousMainGridCubes s;
     previewGridCubes := previewGridCubes s;
     holdOnCooldown := holdOnCooldown s;
     updateGrid := false;
     rng := rng s;
     level := level s;
     score := score s;
     linesCleared := linesCleared s;
     highScore := highScore s;
     gameEnd := gameEnd s |}.

(** A state with its [gameTick] advanced by one. *)
Definition withNextGameTick (s : State) : State :=
  {| gameTick := gameTick s + 1;
     currentTick := currentTick s;
     dropTick := dropTick s;
     currentCubes := currentCubes s;
     mainGridCubes := mainGridCubes s;
     previousMainGridCubes := previousMainGridCubes s;
     previewGridCubes := previewGridCubes s;
     holdOnCooldown := holdOnCooldown s;
     updateGrid := updateGrid s;
     rng := rng s;
     level := level s;
     score := score s;
     linesCleared := linesCleared s;
     highScore := highScore s;
     gameEnd := gameEnd s |}.

(** What every state of a game satisfies: the four cubes of a piece share
    one colour and carry the ids of their group, a settled cube is named
    after its cell, and score, line count and level agree. *)
Definition oneColour (cubes : Cubes) : Prop :=
  exists colour, map cube_colour cubes = [colour; colour; colour; colour].

Definition coordinateIds (cubes : Cubes) : Prop :=
  Forall (fun cube => cube_id cube = coordId (cube_x cube) (cube_y cube))
    cubes.

Definition gameInvariant (s : State) : Prop :=
  0 <= rng s < RNG.m /\
  (oneColour (previewGridCubes s) /\
   map cube_id (previewGridCubes s) = ["p1"; "p2"; "p3"; "p4"]%string) /\
  (currentCubes s = [] \/
   (oneColour (currentCubes s) /\
    map cube_id (currentCubes s) = ["c1"; "c2"; "c3"; "c4"]%string)) /\
  coordinateIds (mainGridCubes s) /\
  score s = 100 * linesCleared s /\
  level s = score s / MAX_SCORE_PER_LEVEL + 1 /\
  0 <= linesCleared s /\ 0 <= gameTick s /\ 0 <= currentTick s.

(** The state in play with an upright cyan piece against the left wall,
    and the one with no piece. *)
Definition wallState : State :=
  withCurrentCubes playingState
    [ mkCube 0 5 cyan "c1"; mkCube 0 4 cyan "c2"; mkCube 0 6 cyan "c3";
      mkCube 0 7 cyan "c4" ].

Definition noPieceState : State := withCurrentCubes playingState [].

(** The row of the lowest cube of the piece in a column, as [HardDrop]
    works it out: the greatest y of the cubes of the column, and
    MAIN_GRID_Y when that is greater (or the column is empty). *)
Definition columnBottom (piece : Cubes) (x : Z) : Z :=
  fold_left (fun acc cube => if cube_y cube >? acc then cube_y cube else acc)
    (filter (fun cube => cube_x cube =? x) piece) MAIN_GRID_Y.

(** Cubes on the board: between the walls, above the floor, and no more
    than two rows above the spawn rows. *)
Definition onBoard (cubes : Cubes) : Prop :=
  Forall (fun cube => 0 <= cube_x cube < GRID_WIDTH /\
                      MAIN_GRID_Y - 2 <= cube_y cube < GRID_HEIGHT)
    cubes.

(** A piece gathered around its cube 0, the pivot of [Rotate]: every cube
    is within two columns and two rows of it, and the pivot is not above
    the spawn rows. *)
Definition aroundPivot (piece : Cubes) : Prop :=
  match piece with
  | [] => True
  | pivot :: _ =>
      MAIN_GRID_Y <= cube_y pivot /\
      Forall (fun cube => -2 <= cube_x cube - cube_x pivot <= 2 /\
                          -2 <= cube_y cube - cube_y pivot <= 2)
        piece
  end.

Definition boardInvariant (s : State) : Prop :=
  onBoard (currentCubes s) /\ aroundPivot (currentCubes s) /\
  onBoard (mainGridCubes s).

(** The letter y, which separates the two numbers of a coordinate id,
    and the strings in which a character does not occur. *)
Definition letterY : Ascii.ascii :=
  Ascii.Ascii true false false true true true true false.

Fixpoint lacks (c : Ascii.ascii) (s : string) : Prop :=
  match s with
  | EmptyString => True
  | String a rest => a <> c /\ lacks c rest
  end.

(** A run during which the game is on: [gameEnd] is false in the state
    each action is applied to. *)
Fixpoint staysInPlay (calculateDropTick : Z -> Z) (s : State)
  (actions : list Action) : bool :=
  match actions with
  | [] => true
  | a :: rest =>
      negb (gameEnd s)
      && match apply calculateDropTick s a with
         | Some s' => staysInPlay calculateDropTick s' rest
         | None => false
         end
  end.

(** A piece whose columns and rows have no gap: between two of its cubes
    in one column, or in one row, every cell is a cube of the piece. *)
Definition gapFree (piece : Cubes) : Prop :=
  (forall c1 c2, In c1 piece -> In c2 piece -> cube_x c1 = cube_x c2 ->
     forall y, cube_y c1 < y < cube_y c2 ->
       exists c, In c piece /\ cube_x c = cube_x c1 /\ cube_y c = y) /\
  (forall c1 c2, In c1 piece -> In c2 piece -> cube_y c1 = cube_y c2 ->
     forall x, cube_x c1 < x < cube_x c2 ->
       exists c, In c piece /\ cube_x c = x /\ cube_y c = cube_y c1).

(** A settled grid none of whose rows holds exactly GRID_WIDTH cubes. *)
Definition noFullRow (cubes : Cubes) : Prop :=
  forall y, length (rowCells cubes y) <> Z.to_nat GRID_WIDTH.

(** What holds of every state while the game is on. *)
Definition playInvariant (s : State) : Prop :=
  boardInvariant s /\
  noDuplicateCoords (mainGridCubes s) /\
  noDuplicateCoords (currentCubes s) /\
  (length (currentCubes s) <= 4)%nat /\
  gapFree (currentCubes s) /\
  noFullRow (mainGridCubes s) /\
  gameEnd s = gameOverOf (mainGridCubes s) /\
  (gameEnd s = false -> isCollide s = false).

(** A decision procedure for [gapFree] on concrete pieces. *)
Definition occupies (piece : Cubes) (x y : Z) : bool :=
  existsb (fun cube => (cube_x cube =? x) && (cube_y cube =? y)) piece.

Definition gapFreeb (piece : Cubes) : bool :=
  forallb
    (fun c1 =>
       forallb
         (fun c2 =>
            (negb (cube_x c1 =? cube_x c2)
             || forallb (occupies piece (cube_x c1))
                  (range (cube_y c1 + 1) (cube_y c2 - 1)))
            && (negb (cube_y c1 =? cube_y c2)
                || forallb (fun x => occupies piece x (cube_y c1))
                     (range (cube_x c1 + 1) (cube_x c2 - 1))))
         piece)
    piece.

(** * Facts *)

(** ** Helper lemmas *)

Lemma nonEmptyFilter_existsb {A : Type} (p : A -> bool) (l : list A) :
  nonEmptyFilter p l = existsb p l.
Proof.
  unfold nonEmptyFilter.
  induction l as [|v l IH]; simpl; [reflexivity|].
  destruct (p v); simpl; [reflexivity | exact IH].
Qed.

Lemma dropTickTable_rounds_formula :
  forallb (fun entry => roundsDropFormula (fst entry) (snd entry))
    (combine (seq 0 (length dropTickTable)) dropTickTable) = true /\
  100 ^ 10 < 1 ^ 10 * 5 ^ Z.of_nat (length dropTickTable).
Proof. split; vm_compute; reflexivity. Qed.

Lemma lookup_Some {A : Type} (l : list A) (i : Z) :
  0 <= i < Z.of_nat (length l) -> exists v, lookup l i = Some v.
Proof.
  intros [Hlo Hhi]. unfold lookup.
  destruct (Z.ltb_spec i 0) as [?|_]; [lia|].
  destruct (nth_error l (Z.to_nat i)) as [v|] eqn:E; [now exists v|].
  apply nth_error_None in E. lia.
Qed.

(** ** The generator *)

Lemma round_double_ties_to_even :
  round_double (2 ^ 53 + 1) = 2 ^ 53 /\
  round_double (2 ^ 53 + 2) = 2 ^ 53 + 2 /\
  round_double (2 ^ 53 + 3) = 2 ^ 53 + 4 /\
  round_double (2 ^ 54 + 5) = 2 ^ 54 + 4 /\
  round_double (2 ^ 54 + 7) = 2 ^ 54 + 8 /\
  round_double (- (2 ^ 53 + 3)) = - (2 ^ 53 + 4).
Proof. repeat split. Qed.

Lemma round_double_small (z : Z) : Z.abs z < 2 ^ 53 -> round_double z = z.
Proof.
  intros H. unfold round_double.
  destruct (Z.ltb_spec (Z.abs z) (2 ^ 53)); [reflexivity | lia].
Qed.

Lemma round_double_nonneg (z : Z) : 0 <= z -> 0 <= round_double z.
Proof.
  intros H. unfold round_double.
  destruct (Z.ltb_spec (Z.abs z) (2 ^ 53)) as [|Hbig]; [exact H|].
  assert (Hz : 0 < z) by lia.
  rewrite (Z.sgn_pos z Hz), Z.mul_1_l.
  rewrite Z.shiftl_nonneg.
  assert (Hq : 0 <= Z.shiftr (Z.abs z) (Z.log2 (Z.abs z) - 52))
    by (apply Z.shiftr_nonneg; lia).
  repeat match goal with |- context [if ?b then _ else _] => destruct b end;
    lia.
Qed.

Lemma hash_exact_below_2p53 (seed : Z) :
  0 <= seed -> RNG.a * seed + RNG.c < 2 ^ 53 -> RNG.hash seed = lcg seed.
Proof.
  intros Hs Hb. unfold RNG.hash, lcg.
  assert (Ha : 0 <= RNG.a * seed) by (unfold RNG.a; lia).
  assert (Hc : 0 < RNG.c) by reflexivity.
  rewrite (round_double_small (RNG.a * seed)) by lia.
  rewrite (round_double_small (RNG.a * seed + RNG.c)) by lia.
  apply Z.rem_mod_nonneg; [lia | reflexivity].
Qed.

Lemma hash_range (seed : Z) : 0 <= seed -> 0 <= RNG.hash seed < RNG.m.
Proof.
  intros Hs. unfold RNG.hash.
  assert (H1 : 0 <= round_double (RNG.a * seed))
    by (apply round_double_nonneg; unfold RNG.a; lia).
  assert (H2 : 0 <= round_double (round_double (RNG.a * seed) + RNG.c))
    by (apply round_double_nonneg; unfold RNG.c; lia).
  rewrite Z.rem_mod_nonneg by (unfold RNG.m; lia).
  apply Z.mod_pos_bound. reflexivity.
Qed.

Lemma scale_range (h : Z) : 0 <= h -> 0 <= RNG.scale h <= 6.
Proof.
  intros H. unfold RNG.scale.
  rewrite Z.rem_mod_nonneg by lia.
  pose proof (Z.mod_pos_bound h 7). lia.
Qed.

Lemma scale_idempotent (h : Z) : RNG.scale (RNG.scale h) = RNG.scale h.
Proof.
  unfold RNG.scale. apply Z.rem_rem. discriminate.
Qed.

(** C6.  [RNG.hash] is not the exact linear congruential step on every seed
    below [2^31]: at seed 8162280 the product [a * seed] passes [2^53], the
    double sum is rounded to an even integer, and the hash is 1159229952
    where exact integer arithmetic gives 1159229953.  (The hash is exact as
    long as [a * seed + c < 2^53], see [hash_exact_below_2p53]; its value
    and its scaling stay in range, see [hash_range] and [scale_range].) *)
Theorem hash_rounds_away_from_lcg :
  0 <= 8162280 < 2 ^ 31 /\
  RNG.hash 8162280 = 1159229952 /\
  lcg 8162280 = 1159229953 /\
  RNG.hash 8162280 <> lcg 8162280.
Proof.
  repeat split; try (vm_compute; congruence); lia.
Qed.

(** ** Collision and validity *)

Lemma isCollide_iff (s : State) :
  isCollide s = true <-> colliding (currentCubes s) (mainGridCubes s).
Proof.
  unfold isCollide, colliding, coords.
  rewrite nonEmptyFilter_existsb, existsb_exists.
  split.
  - intros (cube & Hin & H). exists cube. split; [exact Hin|].
    apply orb_true_iff in H. destruct H as [H|H].
    + left. rewrite nonEmptyFilter_existsb, existsb_exists in H.
      destruct H as (mc & Hmc & E). exists mc. split; [exact Hmc|].
      apply andb_true_iff in E. destruct E as [E1 E2].
      apply Z.eqb_eq in E1, E2. congruence.
    + right. apply Z.geb_le in H. exact H.
  - intros (cube & Hin & H). exists cube. split; [exact Hin|].
    apply orb_true_iff. destruct H as [(mc & Hmc & E)|H].
    + left. rewrite nonEmptyFilter_existsb, existsb_exists.
      exists mc. split; [exact Hmc|].
      injection E as E1 E2. rewrite E1, E2, !Z.eqb_refl. reflexivity.
    + right. apply Z.geb_le. exact H.
Qed.

Lemma isOutOfBound_iff (s : State) :
  isOutOfBound s = true <-> outOfBounds (currentCubes s).
Proof.
  unfold isOutOfBound, outOfBounds.
  rewrite nonEmptyFilter_existsb, existsb_exists.
  split; intros (cube & Hin & H); exists cube; (split; [exact Hin|]).
  - rewrite !orb_true_iff in H. rewrite Z.ltb_lt, !Z.geb_le in H. tauto.
  - rewrite !orb_true_iff. rewrite Z.ltb_lt, !Z.geb_le. tauto.
Qed.

Lemma isValid_iff (s : State) :
  isValid s = true <->
  validPlacement (currentCubes s) (mainGridCubes s) (gameEnd s).
Proof.
  unfold isValid, validPlacement.
  rewrite !andb_true_iff, !negb_true_iff.
  rewrite <- isCollide_iff, <- isOutOfBound_iff.
  rewrite !not_true_iff_false. tauto.
Qed.

Lemma generateNewCubes_translatedBy (cubes : Cubes) (dx dy : Z) :
  Forall2 (translatedBy dx dy) cubes (generateNewCubes cubes dx dy false).
Proof.
  induction cubes as [|cube cubes IH]; simpl; constructor.
  - unfold translatedBy. simpl. auto.
  - exact IH.
Qed.

Lemma withPiece_same (s : State) :
  updateGrid s = false -> withPiece s (currentCubes s) = s.
Proof.
  intros H. destruct s. simpl in *. subst. reflexivity.
Qed.

(** ** Reset *)

(** C5 (as amended).  On a game-over state Reset sets [gameTick],
    [currentTick], [score] and [linesCleared] to 0 and [level] to 1, empties
    the active piece and the settled grid, remembers the old settled grid as
    the previous one, clears the render hint and the game-over flag, and
    keeps [dropTick], [highScore], the preview piece, the seed and
    [holdOnCooldown]; on a state that is not game-over it returns the state
    itself. *)
Theorem Reset_effect (s : State) :
  (gameEnd s = true ->
   let s' := Reset_apply s in
   gameTick s' = 0 /\ currentTick s' = 0 /\ score s' = 0 /\
   linesCleared s' = 0 /\ level s' = 1 /\
   currentCubes s' = [] /\ mainGridCubes s' = [] /\
   previousMainGridCubes s' = mainGridCubes s /\
   updateGrid s' = false /\ gameEnd s' = false /\
   dropTick s' = dropTick s /\ highScore s' = highScore s /\
   previewGridCubes s' = previewGridCubes s /\ rng s' = rng s /\
   holdOnCooldown s' = holdOnCooldown s) /\
  (gameEnd s = false -> Reset_apply s = s).
Proof.
  unfold Reset_apply. split; intros H; rewrite H; simpl.
  - repeat split.
  - reflexivity.
Qed.

Lemma Reset_effect_witness :
  gameEnd overState = true /\
  level (Reset_apply overState) = 1 /\
  dropTick (Reset_apply overState) = 36 /\
  gameEnd playingState = false /\
  Reset_apply playingState = playingState.
Proof.
  pose proof (proj1 (Reset_effect overState) eq_refl) as Hover.
  pose proof (proj2 (Reset_effect playingState) eq_refl) as Hplay.
  simpl in Hover.
  repeat split; try apply Hover; exact Hplay.
Defined.

(** C5 as stated fails: after Reset the level is 1, not 0, and the drop
    tick is the one the game ended with (50 here), not 0. *)
Lemma Reset_level_one_dropTick_kept :
  exists s, gameOverExample = Some s /\ gameEnd s = true /\
    level (Reset_apply s) <> 0 /\ dropTick (Reset_apply s) <> 0.
Proof.
  eexists. split; [vm_compute; reflexivity|].
  vm_compute. repeat split; discriminate.
Qed.

(** ** The moves, and the game-over state *)

Section Transitions.

Variable calculateDropTick : Z -> Z.

Lemma move_apply (s : State) (a : Action) (dx dy : Z) :
  moveDelta a = Some (dx, dy) ->
  apply calculateDropTick s a =
  Some (let moved := generateNewCubes (currentCubes s) dx dy false in
        withPiece s
          (if isValid (withCurrentCubes s moved) then moved
           else currentCubes s)).
Proof.
  destruct a; simpl; try discriminate; intros [= <- <-]; reflexivity.
Qed.

(** C8 (as amended).  MoveLeft, MoveRight and MoveDown never throw.  They
    translate the active piece by (-1,0), (+1,0), (0,+1) and clear the
    render hint when the translated placement is valid (no collision with a
    settled cube or the floor, in bounds, game not over); otherwise the
    piece and every other field are kept and only the render hint is
    cleared, so the state itself is returned exactly when the hint was
    already clear. *)
Theorem move_translates_or_keeps (s : State) (a : Action) (dx dy : Z) :
  moveDelta a = Some (dx, dy) ->
  exists s', apply calculateDropTick s a = Some s' /\
    let moved := generateNewCubes (currentCubes s) dx dy false in
    Forall2 (translatedBy dx dy) (currentCubes s) moved /\
    (validPlacement moved (mainGridCubes s) (gameEnd s) ->
     s' = withPiece s moved) /\
    (~ validPlacement moved (mainGridCubes s) (gameEnd s) ->
     s' = withPiece s (currentCubes s) /\
     (updateGrid s = false <-> s' = s)).
Proof.
  intros Ha. rewrite (move_apply s a dx dy Ha).
  eexists. split; [reflexivity|]. cbv zeta.
  split; [apply generateNewCubes_translatedBy|].
  pose proof (isValid_iff
    (withCurrentCubes s (generateNewCubes (currentCubes s) dx dy false)))
    as Hv.
  simpl in Hv.
  destruct (isValid _) eqn:E.
  - split; [reflexivity|]. intros Hn. exfalso. apply Hn, Hv. reflexivity.
  - split.
    + intros Hval. apply Hv in Hval. discriminate.
    + intros _. split; [reflexivity|]. split.
      * apply withPiece_same.
      * intros Heq. rewrite <- Heq. reflexivity.
Qed.

Lemma gameOver_not_valid (s : State) (cubes : Cubes) :
  gameEnd s = true -> isValid (withCurrentCubes s cubes) = false.
Proof.
  intros H. unfold isValid. simpl. rewrite H.
  apply andb_false_r.
Qed.

Lemma GameTick_mainGrid_frozen (s s' : State) :
  gameEnd s = true -> GameTick_apply s = Some s' ->
  mainGridCubes s' = mainGridCubes s.
Proof.
  intros Hend. unfold GameTick_apply, bind.
  repeat match goal with
         | |- context [match ?o with Some _ => _ | None => _ end] =>
             destruct o; try discriminate
         end.
  intros [= <-]. simpl. rewrite Hend. reflexivity.
Qed.

Lemma HardDrop_mainGrid_frozen (s s' : State) :
  gameEnd s = true -> HardDrop_apply s = Some s' ->
  mainGridCubes s' = mainGridCubes s.
Proof.
  intros Hend. unfold HardDrop_apply, bind.
  repeat match goal with
         | |- context [match ?o with Some _ => _ | None => _ end] =>
             destruct o; try discriminate
         end.
  intros [= <-]. simpl. rewrite Hend. reflexivity.
Qed.

Lemma Tick_mainGrid_frozen (s s' : State) :
  gameEnd s = true -> Tick_apply calculateDropTick s = Some s' ->
  mainGridCubes s' = mainGridCubes s.
Proof.
  intros Hend. unfold Tick_apply.
  destruct (_ =? 0).
  - intros H. apply GameTick_mainGrid_frozen in H; [exact H | exact Hend].
  - intros [= <-]. reflexivity.
Qed.

Lemma Rotate_mainGrid (s : State) :
  mainGridCubes (Rotate_apply s) = mainGridCubes s.
Proof.
  unfold Rotate_apply.
  destruct (currentCubes s) as [|pivot rest]; [reflexivity|].
  destruct (Colour_eqb _ _); reflexivity.
Qed.

(** C1 (as amended).  In a game-over state MoveLeft, MoveRight and MoveDown
    return the state with only the render hint cleared (the state itself
    when the hint is already clear), and no action other than Reset changes
    the settled grid. *)
Theorem gameOver_board_frozen (s : State) (a : Action) :
  gameEnd s = true -> a <> Reset ->
  (moveDelta a <> None ->
   apply calculateDropTick s a = Some (withPiece s (currentCubes s)) /\
   (updateGrid s = false -> apply calculateDropTick s a = Some s)) /\
  (forall s', apply calculateDropTick s a = Some s' ->
              mainGridCubes s' = mainGridCubes s).
Proof.
  intros Hend Ha. split.
  - intros Hm.
    destruct (moveDelta a) as [[dx dy]|] eqn:E; [|congruence].
    rewrite (move_apply s a dx dy E). cbv zeta.
    rewrite gameOver_not_valid by exact Hend.
    split; [reflexivity|].
    intros Hu. rewrite withPiece_same by exact Hu. reflexivity.
  - intros s' H. destruct a; simpl in H.
    + eapply Tick_mainGrid_frozen; eassumption.
    + injection H as <-. reflexivity.
    + injection H as <-. reflexivity.
    + injection H as <-. reflexivity.
    + injection H as <-. apply Rotate_mainGrid.
    + eapply HardDrop_mainGrid_frozen; eassumption.
    + congruence.
Qed.

End Transitions.

Lemma move_translates_or_keeps_witness :
  moveDelta MoveLeft = Some (-1, 0) /\
  (exists s', apply tabulatedDropTick playingState MoveLeft = Some s' /\
     currentCubes s' = createPurpleTetromino 3 5 "c") /\
  (exists s', apply tabulatedDropTick overState MoveLeft = Some s' /\
     currentCubes s' = currentCubes overState /\ s' <> overState).
Proof.
  split; [reflexivity|]. split.
  - destruct (move_translates_or_keeps tabulatedDropTick playingState MoveLeft
                (-1) 0 eq_refl) as (s' & Happ & _ & Hvalid & _).
    exists s'. split; [exact Happ|].
    rewrite Hvalid; [reflexivity|].
    apply (isValid_iff
             (withCurrentCubes playingState
                (generateNewCubes (currentCubes playingState) (-1) 0 false))).
    vm_compute. reflexivity.
  - destruct (move_translates_or_keeps tabulatedDropTick overState MoveLeft
                (-1) 0 eq_refl) as (s' & Happ & _ & _ & Hinvalid).
    assert (Hno : ~ validPlacement
                      (generateNewCubes (currentCubes overState) (-1) 0 false)
                      (mainGridCubes overState) (gameEnd overState)).
    { intros (_ & _ & Hend). discriminate Hend. }
    destruct (Hinvalid Hno) as [Hs' Hsame].
    exists s'. split; [exact Happ|]. split.
    + rewrite Hs'. reflexivity.
    + intros Heq. apply Hsame in Heq. discriminate Heq.
Defined.

(** C8 as stated fails: in the state of [blockedExample] the game is on and
    MoveDown is rejected (the piece would collide), yet the state returned
    is not the state given, because the render hint set by the last landing
    is cleared. *)
Lemma blocked_MoveDown_clears_hint :
  exists s, blockedExample = Some s /\ gameEnd s = false /\
    isValid
      (withCurrentCubes s (generateNewCubes (currentCubes s) 0 1 false))
    = false /\
    updateGrid s = true /\
    apply tabulatedDropTick s MoveDown <> Some s.
Proof.
  eexists. split; [vm_compute; reflexivity|].
  split; [reflexivity|]. split; [vm_compute; reflexivity|].
  split; [reflexivity|].
  intros H. apply (f_equal (option_map updateGrid)) in H.
  vm_compute in H. discriminate.
Qed.

Lemma gameOver_board_frozen_witness :
  gameEnd overState = true /\ MoveLeft <> Reset /\
  apply tabulatedDropTick overState MoveLeft
  = Some (withPiece overState (currentCubes overState)) /\
  (forall s', apply tabulatedDropTick overState MoveLeft = Some s' ->
              mainGridCubes s' = mainGridCubes overState).
Proof.
  assert (Hne : MoveLeft <> Reset) by discriminate.
  destruct (gameOver_board_frozen tabulatedDropTick overState MoveLeft
              eq_refl Hne) as [Hmove Hgrid].
  split; [reflexivity|]. split; [exact Hne|].
  split; [|exact Hgrid].
  apply Hmove. discriminate.
Defined.

(** C1 as stated fails: in the game-over state of [gameOverExample], Tick
    advances [currentTick], MoveLeft clears the render hint, Rotate turns
    the spawned piece and HardDrop advances the seed and the preview; none
    of them returns the state it was given. *)
Lemma gameOver_actions_change_state :
  exists s, gameOverExample = Some s /\ gameEnd s = true /\
    apply tabulatedDropTick s Tick <> Some s /\
    apply tabulatedDropTick s MoveLeft <> Some s /\
    apply tabulatedDropTick s Rotate <> Some s /\
    apply tabulatedDropTick s HardDrop <> Some s.
Proof.
  eexists. split; [vm_compute; reflexivity|].
  split; [reflexivity|].
  repeat split; intros H.
  - apply (f_equal (option_map currentTick)) in H.
    vm_compute in H. discriminate.
  - apply (f_equal (option_map updateGrid)) in H.
    vm_compute in H. discriminate.
  - apply (f_equal (option_map
        (fun s => map coords (currentCubes s)))) in H.
    vm_compute in H. discriminate.
  - apply (f_equal (option_map rng)) in H.
    vm_compute in H. discriminate.
Qed.

(** ** Rotation *)

Lemma findMinMaxNum_min_max (acc : Z * Z) (num : Z) :
  findMinMaxNum acc num = (Z.min (fst acc) num, Z.max (snd acc) num).
Proof.
  unfold findMinMaxNum. f_equal.
  - destruct (Z.ltb_spec (fst acc) num); lia.
  - rewrite Z.gtb_ltb. destruct (Z.ltb_spec num (snd acc)); lia.
Qed.

Lemma minMax_fold (cubes : Cubes) (lo hi : Z) :
  fold_left (fun acc cube => findMinMaxNum acc (cube_x cube)) cubes (lo, hi)
  = (fold_left Z.min (map cube_x cubes) lo,
     fold_left Z.max (map cube_x cubes) hi).
Proof.
  revert lo hi. induction cubes as [|cube cubes IH]; intros lo hi; simpl.
  - reflexivity.
  - rewrite findMinMaxNum_min_max. simpl. apply IH.
Qed.

Lemma fold_min_init (l : list Z) (a b : Z) :
  fold_left Z.min l (Z.min a b) = Z.min a (fold_left Z.min l b).
Proof.
  revert b. induction l as [|v l IH]; intros b; simpl; [reflexivity|].
  rewrite <- Z.min_assoc. apply IH.
Qed.

Lemma fold_max_init (l : list Z) (a b : Z) :
  fold_left Z.max l (Z.max a b) = Z.max a (fold_left Z.max l b).
Proof.
  revert b. induction l as [|v l IH]; intros b; simpl; [reflexivity|].
  rewrite <- Z.max_assoc. apply IH.
Qed.

Lemma minMaxX_cons (first : Cube) (rest : Cubes) :
  minMaxX (first :: rest)
  = (Z.min GRID_WIDTH (leftmostX first rest),
     Z.max (-1) (rightmostX first rest)).
Proof.
  unfold minMaxX, leftmostX, rightmostX. rewrite minMax_fold. simpl.
  rewrite fold_min_init, fold_max_init. reflexivity.
Qed.

Lemma generateNewCubes_shiftedX (cubes : Cubes) (dx : Z) :
  generateNewCubes cubes dx 0 false = map (shiftedX dx) cubes.
Proof.
  unfold generateNewCubes, shiftedX. apply map_ext.
  intros cube. rewrite Z.add_0_r. reflexivity.
Qed.

Lemma shiftedX_0 (cubes : Cubes) : map (shiftedX 0) cubes = cubes.
Proof.
  rewrite <- (map_id cubes) at 2. apply map_ext.
  intros [x y colour id]. unfold shiftedX. simpl. rewrite Z.add_0_r.
  reflexivity.
Qed.

Lemma wallKick_kicked (cubes : Cubes) :
  generateNewCubes cubes (wallKick cubes) 0 false = kicked cubes.
Proof.
  rewrite generateNewCubes_shiftedX.
  destruct cubes as [|first rest]; [reflexivity|].
  unfold wallKick, kicked. rewrite minMaxX_cons. cbv zeta.
  set (lo := leftmostX first rest). set (hi := rightmostX first rest).
  unfold GRID_WIDTH.
  destruct (Z.ltb_spec (Z.min 10 lo) 0) as [H|H];
    destruct (Z.ltb_spec lo 0) as [H'|H']; try lia.
  - replace (Z.min 10 lo) with lo by lia. reflexivity.
  - rewrite Z.geb_leb.
    destruct (Z.leb_spec 10 (Z.max (-1) hi)) as [G|G];
      destruct (Z.leb_spec 10 hi) as [G'|G']; try lia.
    + replace (10 - Z.max (-1) hi - 1) with (- (hi - 10 + 1)) by lia.
      reflexivity.
    + apply shiftedX_0.
Qed.

Lemma rotation_map (pivot : Cube) (cubes : Cubes) :
  map (fun cube =>
         let newRotation :=
           calculateRotation (cube_x pivot, cube_y pivot)
             (cube_x cube, cube_y cube) in
         mkCube (fst newRotation) (snd newRotation)
           (cube_colour cube) (cube_id cube))
    cubes
  = map (rotatedAbout pivot) cubes.
Proof.
  apply map_ext. intros cube. unfold calculateRotation, rotatedAbout. simpl.
  f_equal; lia.
Qed.

Lemma Colour_eqb_eq (c d : Colour) : Colour_eqb c d = true <-> c = d.
Proof. destruct c, d; simpl; split; congruence. Qed.

(** C3 (as amended).  When the active piece is empty or its first cube is
    yellow, Rotate returns the state itself.  Otherwise the candidate is the
    piece with every cube turned by [(rx, ry) -> (-ry, rx)] about cube 0 and
    then wall-kicked; if the candidate collides with a settled cube (or the
    floor) the piece is kept, else the candidate becomes the piece; either
    way only the piece and the render hint (cleared) change, so the result
    is never a rotated piece without its kick, nor a partly rotated one. *)
Theorem Rotate_rotates_or_keeps (s : State) :
  (exemptFromRotation (currentCubes s) -> Rotate_apply s = s) /\
  (~ exemptFromRotation (currentCubes s) ->
   let candidate := rotatedAndKicked (currentCubes s) in
   (colliding candidate (mainGridCubes s) ->
    Rotate_apply s = withPiece s (currentCubes s)) /\
   (~ colliding candidate (mainGridCubes s) ->
    Rotate_apply s = withPiece s candidate)).
Proof.
  unfold Rotate_apply, exemptFromRotation, rotatedAndKicked.
  destruct (currentCubes s) as [|pivot rest] eqn:Ecur.
  - split; [reflexivity | tauto].
  - destruct (Colour_eqb (cube_colour pivot) yellow) eqn:Ey.
    + apply Colour_eqb_eq in Ey. split; [reflexivity | tauto].
    + split.
      * intros Hy. apply Colour_eqb_eq in Hy. congruence.
      * intros _. cbv zeta.
        rewrite rotation_map, wallKick_kicked.
        pose proof (isCollide_iff
          (withCurrentCubes s (kicked (map (rotatedAbout pivot) (pivot :: rest)))))
          as Hc.
        simpl currentCubes in Hc. simpl mainGridCubes in Hc.
        destruct (isCollide _) eqn:E.
        -- split; [reflexivity|]. intros Hn. exfalso. apply Hn, Hc.
           reflexivity.
        -- split; [|reflexivity]. intros Hcol. apply Hc in Hcol.
           discriminate.
Qed.

Lemma Rotate_rotates_or_keeps_witness :
  exemptFromRotation (currentCubes overState) /\
  Rotate_apply overState = overState /\
  ~ exemptFromRotation (currentCubes playingState) /\
  ~ colliding (rotatedAndKicked (currentCubes playingState))
      (mainGridCubes playingState) /\
  map coords (currentCubes (Rotate_apply playingState))
  = [(4, 6); (4, 7); (4, 5); (5, 6)].
Proof.
  assert (Hex : exemptFromRotation (currentCubes overState)) by reflexivity.
  assert (Hne : ~ exemptFromRotation (currentCubes playingState))
    by (simpl; discriminate).
  assert (Hfree : ~ colliding (rotatedAndKicked (currentCubes playingState))
                      (mainGridCubes playingState)).
  { intros Hcol.
    apply (isCollide_iff
             (withCurrentCubes playingState
                (rotatedAndKicked (currentCubes playingState)))) in Hcol.
    vm_compute in Hcol. discriminate. }
  split; [exact Hex|].
  split; [exact (proj1 (Rotate_rotates_or_keeps overState) Hex)|].
  split; [exact Hne|]. split; [exact Hfree|].
  rewrite (proj2 (proj2 (Rotate_rotates_or_keeps playingState) Hne) Hfree).
  reflexivity.
Defined.

(** C3 as stated fails on a yellow piece: after the first hard drop of a
    game with seed 0 the yellow square sits at the spawn point over an empty
    grid; turned about its cube 0 it would cover columns 3 and 4 without
    colliding, but Rotate returns it unturned on columns 4 and 5. *)
Lemma yellow_piece_not_rotated :
  exists s, yellowExample = Some s /\
    isCollide (withCurrentCubes s (rotatedAndKicked (currentCubes s)))
    = false /\
    map coords (rotatedAndKicked (currentCubes s))
    = [(4, -2); (4, -1); (3, -2); (3, -1)] /\
    map coords (currentCubes (Rotate_apply s))
    = [(4, -2); (5, -2); (4, -1); (5, -1)].
Proof.
  eexists. split; [vm_compute; reflexivity|].
  repeat split; vm_compute; reflexivity.
Qed.

(** ** Line clearing *)

Lemma mapi_from_map_seq {A B : Type} (f : A -> nat -> B) (g : nat -> A)
  (n k : nat) :
  mapi_from f n (map g (seq n k)) = map (fun i => f (g i) i) (seq n k).
Proof.
  revert n. induction k as [|k IH]; intros n; simpl; [reflexivity|].
  f_equal. apply IH.
Qed.

Lemma convertTo2D_rows_from (cubes pre : Cubes) :
  fold_left
    (fun (grid : Grid) cube =>
       mapi (fun row index =>
               if Z.of_nat index =? cube_y cube then row ++ [cube] else row)
         grid)
    cubes
    (map (fun i => rowCells pre (Z.of_nat i)) (seq 0 (Z.to_nat GRID_HEIGHT)))
  = map (fun i => rowCells (pre ++ cubes) (Z.of_nat i))
      (seq 0 (Z.to_nat GRID_HEIGHT)).
Proof.
  revert pre. induction cubes as [|cube cubes IH]; intros pre.
  - simpl. rewrite app_nil_r. reflexivity.
  - cbn [fold_left]. unfold mapi at 2. rewrite mapi_from_map_seq.
    replace (pre ++ cube :: cubes) with ((pre ++ [cube]) ++ cubes)
      by (rewrite <- app_assoc; reflexivity).
    rewrite <- IH. f_equal. apply map_ext. intros i.
    unfold rowCells. rewrite filter_app. simpl.
    rewrite (Z.eqb_sym (cube_y cube)).
    destruct (Z.of_nat i =? cube_y cube);
      [reflexivity | symmetry; apply app_nil_r].
Qed.

Lemma convertTo2D_rows (cubes : Cubes) :
  convertTo2D cubes
  = map (fun i => rowCells cubes (Z.of_nat i)) (seq 0 (Z.to_nat GRID_HEIGHT)).
Proof.
  unfold convertTo2D.
  replace emptyGrid
    with (map (fun i => rowCells [] (Z.of_nat i))
            (seq 0 (Z.to_nat GRID_HEIGHT)))
    by reflexivity.
  apply (convertTo2D_rows_from cubes []).
Qed.

Lemma findLinesToClear_rows (cubes : Cubes) (indices : list nat) :
  findLinesToClear (map (fun i => rowCells cubes (Z.of_nat i)) indices)
  = filter (isFullRow cubes) (map Z.of_nat indices).
Proof.
  unfold findLinesToClear, isFullRow.
  induction indices as [|i indices IH]; [reflexivity|].
  cbn [map filter]. rewrite <- IH. clear IH.
  destruct (Nat.eqb_spec (length (rowCells cubes (Z.of_nat i)))
              (Z.to_nat GRID_WIDTH)) as [E|E]; [|reflexivity].
  destruct (rowCells cubes (Z.of_nat i)) as [|cube row] eqn:Erow;
    [discriminate|].
  assert (Hin : In cube (rowCells cubes (Z.of_nat i)))
    by (rewrite Erow; left; reflexivity).
  apply filter_In in Hin. destruct Hin as [_ Hy].
  apply Z.eqb_eq in Hy. rewrite Hy.
  destruct (Z.eqb_spec (Z.of_nat i) (-1)); [lia | reflexivity].
Qed.

Lemma linesToClearOf_filter (cubes : Cubes) :
  linesToClearOf cubes
  = filter (isFullRow cubes) (map Z.of_nat (seq 0 (Z.to_nat GRID_HEIGHT))).
Proof.
  unfold linesToClearOf. rewrite convertTo2D_rows.
  apply findLinesToClear_rows.
Qed.

Lemma linesToClearOf_iff (cubes : Cubes) (y : Z) :
  In y (linesToClearOf cubes) <-> fullRow cubes y.
Proof.
  rewrite linesToClearOf_filter, filter_In, in_map_iff.
  unfold fullRow, isFullRow. rewrite Nat.eqb_eq. split.
  - intros [(i & <- & Hi) Hfull]. apply in_seq in Hi.
    split; [|exact Hfull]. unfold GRID_HEIGHT in *. lia.
  - intros [Hy Hfull]. split; [|exact Hfull].
    exists (Z.to_nat y). split; [lia|]. apply in_seq.
    unfold GRID_HEIGHT in *. lia.
Qed.

Lemma seq_ascending (n k : nat) : StronglySorted Z.lt (map Z.of_nat (seq n k)).
Proof.
  revert n. induction k as [|k IH]; intros n; simpl; constructor.
  - apply IH.
  - apply Forall_forall. intros y Hy. apply in_map_iff in Hy.
    destruct Hy as (i & <- & Hi). apply in_seq in Hi. lia.
Qed.

Lemma filter_ascending (p : Z -> bool) (l : list Z) :
  StronglySorted Z.lt l -> StronglySorted Z.lt (filter p l).
Proof.
  induction 1 as [|a l Hs IH Ha]; simpl; [constructor|].
  destruct (p a); [|exact IH].
  constructor; [exact IH|].
  apply Forall_forall. intros y Hy. apply filter_In in Hy.
  rewrite Forall_forall in Ha. apply Ha, Hy.
Qed.

Lemma linesToClearOf_ascending (cubes : Cubes) :
  StronglySorted Z.lt (linesToClearOf cubes).
Proof.
  rewrite linesToClearOf_filter. apply filter_ascending, seq_ascending.
Qed.

Lemma clearLines_In (cubes : Cubes) (line : Z) (cube' : Cube) :
  In cube' (clearLines cubes line) <->
  exists cube, In cube cubes /\ cube_y cube <> line /\
    cube' = (if cube_y cube <? line then movedDown 1 cube else cube).
Proof.
  unfold clearLines. rewrite in_map_iff. split.
  - intros (cube & <- & Hin). apply filter_In in Hin.
    destruct Hin as [Hin Hne]. apply negb_true_iff, Z.eqb_neq in Hne.
    exists cube. repeat split; [exact Hin | exact Hne |].
    destruct (Z.leb_spec (cube_y cube) line);
      destruct (Z.ltb_spec (cube_y cube) line); try lia; reflexivity.
  - intros (cube & Hin & Hne & ->). exists cube. split.
    + destruct (Z.leb_spec (cube_y cube) line);
        destruct (Z.ltb_spec (cube_y cube) line); try lia; reflexivity.
    + apply filter_In. split; [exact Hin|].
      apply negb_true_iff, Z.eqb_neq. exact Hne.
Qed.

Lemma clearLines_length (cubes : Cubes) (line : Z) :
  (length (clearLines cubes line) + length (rowCells cubes line)
   = length cubes)%nat.
Proof.
  unfold clearLines, rowCells. rewrite length_map.
  rewrite Nat.add_comm. apply filter_length.
Qed.

Lemma clearLines_rowCells_above (cubes : Cubes) (line y : Z) :
  line < y -> rowCells (clearLines cubes line) y = rowCells cubes y.
Proof.
  intros Hlt. unfold clearLines, rowCells.
  induction cubes as [|cube cubes IH]; [reflexivity|].
  cbn [filter].
  destruct (Z.eqb_spec (cube_y cube) line) as [E|E]; cbn [negb map filter].
  - destruct (Z.eqb_spec (cube_y cube) y); [lia | exact IH].
  - destruct (Z.leb_spec (cube_y cube) line) as [Hle|Hgt]; cbn [cube_y].
    + destruct (Z.eqb_spec (cube_y cube + 1) y);
        destruct (Z.eqb_spec (cube_y cube) y); try lia. exact IH.
    + destruct (Z.eqb_spec (cube_y cube) y); [f_equal|]; exact IH.
Qed.

Lemma distinct_keys_filter {V K : Type} (key : V -> K) (keep : V -> bool)
  (items : list V) :
  NoDup (map key items) -> NoDup (map key (filter keep items)).
Proof.
  intros Hitems. induction items as [|v items IH]; simpl; [constructor|].
  simpl in Hitems. apply NoDup_cons_iff in Hitems.
  destruct Hitems as [Hfresh Hrest].
  destruct (keep v); [|exact (IH Hrest)].
  simpl. apply NoDup_cons; [|exact (IH Hrest)].
  intros Hin. apply Hfresh.
  apply in_map_iff in Hin. destruct Hin as (w & Ew & Hw).
  apply filter_In in Hw. apply in_map_iff. exists w. tauto.
Qed.

Lemma NoDup_map_injective_on {A B : Type} (g : A -> B) (l : list A) :
  (forall v w, In v l -> In w l -> g v = g w -> v = w) ->
  NoDup l -> NoDup (map g l).
Proof.
  intros Hinj H. apply NoDup_map_NoDup_ForallPairs; [|exact H].
  intros v w Hv Hw. apply Hinj; assumption.
Qed.

Lemma clearLines_noDuplicateCoords (cubes : Cubes) (line : Z) :
  noDuplicateCoords cubes -> noDuplicateCoords (clearLines cubes line).
Proof.
  unfold noDuplicateCoords, clearLines. intros H.
  set (kept := filter (fun cube => negb (cube_y cube =? line)) cubes).
  assert (Hkept : NoDup (map coords kept))
    by (apply distinct_keys_filter; exact H).
  assert (Hne : forall xy, In xy (map coords kept) -> snd xy <> line).
  { intros xy Hin. apply in_map_iff in Hin. destruct Hin as (c & <- & Hc).
    apply filter_In in Hc. destruct Hc as [_ Hc].
    apply negb_true_iff, Z.eqb_neq in Hc. exact Hc. }
  set (down := fun xy : Z * Z =>
                 if snd xy <=? line then (fst xy, snd xy + 1) else xy).
  rewrite map_map.
  rewrite (map_ext _ (fun cube => down (coords cube))).
  2:{ intros cube. unfold down, coords. simpl.
      destruct (cube_y cube <=? line); reflexivity. }
  rewrite <- (map_map coords down kept).
  apply NoDup_map_injective_on; [|exact Hkept].
  intros [x1 y1] [x2 y2] H1 H2. apply Hne in H1, H2. unfold down.
  simpl in *.
  destruct (Z.leb_spec y1 line); destruct (Z.leb_spec y2 line);
    intros [= -> E]; f_equal; lia.
Qed.

Lemma fold_clearLines_rowCells (lines : list Z) (cubes : Cubes) (y : Z) :
  Forall (fun line => line < y) lines ->
  rowCells (fold_left clearLines lines cubes) y = rowCells cubes y.
Proof.
  revert cubes. induction lines as [|line lines IH]; intros cubes H;
    [reflexivity|].
  inversion H; subst. simpl. rewrite IH by assumption.
  apply clearLines_rowCells_above. assumption.
Qed.

Lemma fold_clearLines_noDuplicateCoords (lines : list Z) (cubes : Cubes) :
  noDuplicateCoords cubes ->
  noDuplicateCoords (fold_left clearLines lines cubes).
Proof.
  revert cubes. induction lines as [|line lines IH]; intros cubes H;
    [exact H|].
  simpl. apply IH, clearLines_noDuplicateCoords, H.
Qed.

Lemma collapsed_nil (cubes : Cubes) : collapsed [] cubes = cubes.
Proof.
  unfold collapsed. simpl.
  induction cubes as [|cube cubes IH]; simpl; [reflexivity|].
  f_equal. exact IH.
Qed.

Lemma rowsBelow_cons (line : Z) (lines : list Z) (y : Z) :
  rowsBelow (line :: lines) y
  = (if y <? line then 1 else 0) + rowsBelow lines y.
Proof.
  unfold rowsBelow. simpl. destruct (y <? line); simpl length; lia.
Qed.

Lemma rowsBelow_all (lines : list Z) (y : Z) :
  Forall (Z.lt y) lines -> rowsBelow lines y = Z.of_nat (length lines).
Proof.
  induction 1 as [|line lines Hlt _ IH]; [reflexivity|].
  rewrite rowsBelow_cons, IH. simpl length.
  destruct (Z.ltb_spec y line); lia.
Qed.

Lemma not_among_greater (lines : list Z) (y : Z) :
  Forall (Z.lt y) lines -> existsb (Z.eqb y) lines = false.
Proof.
  induction 1 as [|line lines Hlt _ IH]; [reflexivity|].
  simpl. rewrite IH. destruct (Z.eqb_spec y line); [lia | reflexivity].
Qed.

Lemma Forall_lt_trans (lines : list Z) (a b : Z) :
  a <= b -> Forall (Z.lt b) lines -> Forall (Z.lt a) lines.
Proof.
  intros Hab H. eapply Forall_impl; [|exact H]. simpl. intros; lia.
Qed.

Lemma movedDown_movedDown (j k : Z) (cube : Cube) :
  movedDown k (movedDown j cube) = movedDown (j + k) cube.
Proof.
  unfold movedDown. simpl. rewrite Z.add_assoc. reflexivity.
Qed.

Lemma droppedBy_above (line : Z) (lines : list Z) (cube : Cube) :
  cube_y cube < line -> Forall (Z.lt line) lines ->
  droppedBy lines (movedDown 1 cube) = droppedBy (line :: lines) cube.
Proof.
  intros Hlt Hasc. unfold droppedBy. cbv zeta.
  rewrite rowsBelow_cons.
  rewrite (rowsBelow_all lines (cube_y cube))
    by (apply (Forall_lt_trans lines _ line); [lia | exact Hasc]).
  replace (cube_y (movedDown 1 cube)) with (cube_y cube + 1) by reflexivity.
  rewrite (rowsBelow_all lines (cube_y cube + 1))
    by (apply (Forall_lt_trans lines _ line); [lia | exact Hasc]).
  destruct (Z.ltb_spec (cube_y cube) line) as [_|]; [|lia].
  destruct (Z.eqb_spec (1 + Z.of_nat (length lines)) 0); [lia|].
  destruct (Z.eqb_spec (Z.of_nat (length lines)) 0) as [E|E].
  - rewrite E. reflexivity.
  - apply movedDown_movedDown.
Qed.

Lemma droppedBy_below (line : Z) (lines : list Z) (cube : Cube) :
  line < cube_y cube ->
  droppedBy lines cube = droppedBy (line :: lines) cube.
Proof.
  intros Hlt. unfold droppedBy. cbv zeta. rewrite rowsBelow_cons.
  destruct (Z.ltb_spec (cube_y cube) line); [lia|]. reflexivity.
Qed.

Lemma collapsed_cons (line : Z) (lines : list Z) (cubes : Cubes) :
  Forall (Z.lt line) lines ->
  collapsed lines (clearLines cubes line) = collapsed (line :: lines) cubes.
Proof.
  intros Hasc. unfold collapsed, clearLines.
  induction cubes as [|cube cubes IH]; [reflexivity|].
  cbn [filter existsb].
  destruct (Z.eqb_spec (cube_y cube) line) as [E|E]; cbn [negb orb map filter].
  - exact IH.
  - destruct (Z.leb_spec (cube_y cube) line) as [Hle|Hgt].
    + (* the cube is above the cleared line: it has moved down one row *)
      assert (Hlt : cube_y cube < line) by lia.
      change (mkCube (cube_x cube) (cube_y cube + 1) (cube_colour cube)
                (coordId (cube_x cube) (cube_y cube + 1)))
        with (movedDown 1 cube).
      replace (cube_y (movedDown 1 cube)) with (cube_y cube + 1)
        by reflexivity.
      rewrite (not_among_greater lines (cube_y cube + 1))
        by (apply (Forall_lt_trans lines _ line); [lia | exact Hasc]).
      rewrite (not_among_greater lines (cube_y cube))
        by (apply (Forall_lt_trans lines _ line); [lia | exact Hasc]).
      cbn [negb map]. rewrite IH.
      rewrite (droppedBy_above line lines cube Hlt Hasc). reflexivity.
    + (* the cube is below the cleared line: untouched by that clear *)
      destruct (existsb (Z.eqb (cube_y cube)) lines); cbn [negb map].
      * exact IH.
      * rewrite IH, (droppedBy_below line lines cube Hgt). reflexivity.
Qed.

Lemma fold_clearLines_collapsed (lines : list Z) (cubes : Cubes) :
  StronglySorted Z.lt lines ->
  fold_left clearLines lines cubes = collapsed lines cubes.
Proof.
  intros H. revert cubes.
  induction H as [|line lines Hs IH Hlt]; intros cubes.
  - symmetry. apply collapsed_nil.
  - simpl. rewrite IH. apply collapsed_cons. exact Hlt.
Qed.

Lemma fold_clearLines_length (lines : list Z) (cubes : Cubes) :
  StronglySorted Z.lt lines ->
  (forall line, In line lines ->
                length (rowCells cubes line) = Z.to_nat GRID_WIDTH) ->
  (length (fold_left clearLines lines cubes)
   + Z.to_nat GRID_WIDTH * length lines = length cubes)%nat.
Proof.
  intros H. revert cubes.
  induction H as [|line lines Hs IH Hlt]; intros cubes Hfull.
  - simpl. lia.
  - simpl fold_left. cbn [length].
    pose proof (clearLines_length cubes line) as Hlen.
    rewrite (Hfull line (or_introl eq_refl)) in Hlen.
    rewrite <- Hlen.
    rewrite <- (IH (clearLines cubes line)).
    + lia.
    + intros l Hl. rewrite clearLines_rowCells_above.
      * apply Hfull. right. exact Hl.
      * rewrite Forall_forall in Hlt. apply Hlt, Hl.
Qed.

Lemma ascending_before (before after : list Z) (y : Z) :
  StronglySorted Z.lt (before ++ y :: after) ->
  Forall (fun line => line < y) before.
Proof.
  induction before as [|line before IH]; intros H; [constructor|].
  simpl in H. apply StronglySorted_inv in H. destruct H as [Hs Hall].
  constructor; [|apply IH, Hs].
  rewrite Forall_forall in Hall. apply Hall, in_elt.
Qed.

Lemma allDistinct_NoDup (l : list (Z * Z)) : allDistinct l = true -> NoDup l.
Proof.
  induction l as [|p rest IH]; simpl; intros H; constructor.
  - apply andb_true_iff in H. destruct H as [H _].
    apply negb_true_iff in H. intros Hin.
    assert (E : existsb (fun q => (fst q =? fst p) && (snd q =? snd p)) rest
                = true).
    { apply existsb_exists. exists p. split; [exact Hin|].
      rewrite !Z.eqb_refl. reflexivity. }
    congruence.
  - apply IH. apply andb_true_iff in H. tauto.
Qed.

Lemma finalMainGridCubesOf_collapsed (cubes : Cubes) :
  finalMainGridCubesOf cubes = collapsed (linesToClearOf cubes) cubes.
Proof.
  unfold finalMainGridCubesOf.
  rewrite <- (fold_clearLines_collapsed _ _ (linesToClearOf_ascending cubes)).
  destruct (linesToClearOf cubes); reflexivity.
Qed.

Lemma finalMainGridCubesOf_length (cubes : Cubes) :
  (length (finalMainGridCubesOf cubes)
   + Z.to_nat GRID_WIDTH * length (linesToClearOf cubes) = length cubes)%nat.
Proof.
  rewrite finalMainGridCubesOf_collapsed.
  rewrite <- (fold_clearLines_collapsed _ _ (linesToClearOf_ascending cubes)).
  apply fold_clearLines_length; [apply linesToClearOf_ascending|].
  intros line Hl. apply linesToClearOf_iff in Hl. apply Hl.
Qed.

Lemma NoDup_allDistinct (l : list (Z * Z)) : NoDup l -> allDistinct l = true.
Proof.
  induction 1 as [|p rest Hfresh _ IH]; [reflexivity|].
  simpl. rewrite IH, andb_true_r. apply negb_true_iff.
  destruct (existsb _ rest) eqn:E; [|reflexivity].
  exfalso. apply Hfresh. apply existsb_exists in E.
  destruct E as ([x y] & Hin & Heq). destruct p as [px py]. simpl in Heq.
  apply andb_true_iff in Heq. destruct Heq as [Ex Ey].
  apply Z.eqb_eq in Ex, Ey. subst. exact Hin.
Qed.

(** C4.  On a settled grid without duplicate coordinates, the lines
    [findLinesToClear] reports are exactly the full rows, in ascending
    order.  Clearing a full row [y] removes the cubes of that row, moves
    every other cube with [y' <= y] down one row with its identity
    recomputed, and leaves the cubes below untouched; it removes exactly
    [GRID_WIDTH] cubes and keeps the coordinates distinct, also at each step
    of the fold over the reported lines.  The fold (what the landing
    computes as [finalMainGridCubes]) is the grid collapsed at once: the
    full rows gone, every other cube moved down by the number of full rows
    below it. *)
Theorem clearLines_collapses (cubes : Cubes) :
  noDuplicateCoords cubes ->
  let lines := linesToClearOf cubes in
  (forall y, In y lines <-> fullRow cubes y) /\
  StronglySorted Z.lt lines /\
  (forall y, fullRow cubes y ->
     (forall cube', In cube' (clearLines cubes y) <->
        exists cube, In cube cubes /\ cube_y cube <> y /\
          cube' = (if cube_y cube <? y then movedDown 1 cube else cube)) /\
     (length (clearLines cubes y) + Z.to_nat GRID_WIDTH = length cubes)%nat /\
     noDuplicateCoords (clearLines cubes y)) /\
  (forall before y after, lines = before ++ y :: after ->
     let partial := fold_left clearLines before cubes in
     (length (clearLines partial y) + Z.to_nat GRID_WIDTH
      = length partial)%nat /\
     noDuplicateCoords (clearLines partial y)) /\
  fold_left clearLines lines cubes = collapsed lines cubes /\
  finalMainGridCubesOf cubes = collapsed lines cubes /\
  noDuplicateCoords (collapsed lines cubes) /\
  (length (collapsed lines cubes) + Z.to_nat GRID_WIDTH * length lines
   = length cubes)%nat.
Proof.
  intros Hnd lines.
  pose proof (linesToClearOf_ascending cubes) as Hasc. fold lines in Hasc.
  assert (Hfull : forall y, In y lines <-> fullRow cubes y)
    by (intros y; apply linesToClearOf_iff).
  assert (Hfold : fold_left clearLines lines cubes = collapsed lines cubes)
    by (apply fold_clearLines_collapsed, Hasc).
  split; [exact Hfull|]. split; [exact Hasc|].
  split; [|split; [|split; [|split; [|split]]]].
  - intros y [_ Hy]. split; [apply clearLines_In|].
    split; [|apply clearLines_noDuplicateCoords, Hnd].
    rewrite <- Hy. apply clearLines_length.
  - intros before y after E partial. split.
    + pose proof (clearLines_length partial y) as Hlen.
      unfold partial in Hlen at 2.
      rewrite fold_clearLines_rowCells in Hlen
        by (apply (ascending_before before after); rewrite <- E; exact Hasc).
      assert (Hy : fullRow cubes y)
        by (apply Hfull; rewrite E; apply in_elt).
      destruct Hy as [_ Hy]. rewrite Hy in Hlen. exact Hlen.
    + apply clearLines_noDuplicateCoords, fold_clearLines_noDuplicateCoords.
      exact Hnd.
  - exact Hfold.
  - unfold finalMainGridCubesOf. fold lines.
    destruct lines as [|line rest] eqn:E.
    + simpl. symmetry. apply collapsed_nil.
    + rewrite <- Hfold. reflexivity.
  - rewrite <- Hfold. apply fold_clearLines_noDuplicateCoords, Hnd.
  - rewrite <- Hfold. apply fold_clearLines_length; [exact Hasc|].
    intros line Hl. apply Hfull in Hl. apply Hl.
Qed.


Lemma clearLines_collapses_witness :
  noDuplicateCoords twoFullRows /\
  linesToClearOf twoFullRows = [17; 19] /\
  fullRow twoFullRows 17 /\
  length (clearLines twoFullRows 17) = 13%nat /\
  map coords (finalMainGridCubesOf twoFullRows)
  = [(2, 19); (3, 19); (2, 18)] /\
  map cube_id (finalMainGridCubesOf twoFullRows)
  = [coordId 2 19; coordId 3 19; coordId 2 18].
Proof.
  assert (Hnd : noDuplicateCoords twoFullRows)
    by (apply allDistinct_NoDup; vm_compute; reflexivity).
  assert (Hlines : linesToClearOf twoFullRows = [17; 19])
    by (vm_compute; reflexivity).
  pose proof (clearLines_collapses twoFullRows Hnd) as H.
  cbv zeta in H.
  destruct H
    as (Hfull & _ & Hclear & _ & Hfold & Hfinal & _ & _).
  assert (H17 : fullRow twoFullRows 17)
    by (apply (proj1 (Hfull 17)); rewrite Hlines; left; reflexivity).
  destruct (Hclear 17 H17) as (_ & Hlen & _).
  split; [exact Hnd|]. 
  split; [exact Hlines|]. 
  split; [exact H17|].
  split; [|split].
  - assert (Htotal : length twoFullRows = 23%nat) by (vm_compute; reflexivity).
    rewrite Htotal in Hlen.
    assert (Hw : Z.to_nat GRID_WIDTH = 10%nat) by reflexivity.
    rewrite Hw in Hlen. lia.
  - rewrite Hfinal. vm_compute. reflexivity.
  - rewrite Hfinal. vm_compute. reflexivity.
Defined.

(** ** No action throws on a well-formed state *)

Lemma generateTetromino_Some (index x y : Z) :
  0 <= index ->
  exists create, generateTetromino index x y = Some create /\
    forall group, create group <> [].
Proof.
  intros H. unfold generateTetromino.
  pose proof (scale_range index H) as Hr.
  assert (Hcases : RNG.scale index = 0 \/ RNG.scale index = 1 \/
                   RNG.scale index = 2 \/ RNG.scale index = 3 \/
                   RNG.scale index = 4 \/ RNG.scale index = 5 \/
                   RNG.scale index = 6) by lia.
  repeat destruct Hcases as [E|Hcases]; try rename Hcases into E;
    rewrite E; simpl; eexists; (split; [reflexivity|]);
    intros group; discriminate.
Qed.

Lemma findIndexByColour_range (colour : Colour) :
  0 <= findIndexByColour colour <= 6.
Proof. destruct colour; simpl; lia. Qed.

Lemma spawnedCubes_Some (s : State) :
  previewGridCubes s <> [] -> exists cubes, spawnedCubes s = Some cubes.
Proof.
  intros H. unfold spawnedCubes, previewColour.
  destruct (previewGridCubes s) as [|cube rest]; [congruence|].
  simpl.
  destruct (generateTetromino_Some (findIndexByColour (cube_colour cube))
              MAIN_GRID_X MAIN_GRID_Y) as (create & E & _).
  { apply findIndexByColour_range. }
  rewrite E. simpl. eauto.
Qed.

Lemma nextPreview_Some (s : State) :
  0 <= rng s ->
  exists cubes, nextPreview s = Some cubes /\ cubes <> [].
Proof.
  intros H. unfold nextPreview.
  destruct (generateTetromino_Some (RNG.scale (rng s))
              PREVIEW_GRID_X PREVIEW_GRID_Y) as (create & E & Hne).
  { apply scale_range. exact H. }
  rewrite E. simpl. eauto.
Qed.

Lemma HardDrop_total (s : State) :
  wellFormed s -> exists s', HardDrop_apply s = Some s'.
Proof.
  intros [Hp Hr]. unfold HardDrop_apply.
  destruct (spawnedCubes_Some s Hp) as (c1 & E1).
  destruct (nextPreview_Some s Hr) as (c2 & E2 & _).
  rewrite E1, E2. simpl. eauto.
Qed.

Lemma GameTick_total (s : State) :
  wellFormed s -> exists s', GameTick_apply s = Some s'.
Proof.
  intros [Hp Hr]. unfold GameTick_apply.
  destruct (spawnedCubes_Some s Hp) as (c1 & E1).
  destruct (nextPreview_Some s Hr) as (c2 & E2 & _).
  rewrite E1, E2.
  destruct (shouldUpdateGrid _); simpl; eauto.
Qed.


Ltac invert_landing H :=
  unfold GameTick_apply, HardDrop_apply, bind in H;
  repeat match type of H with
         | context [match ?o with Some _ => _ | None => _ end] =>
             destruct o eqn:?; try discriminate
         end;
  injection H as <-.

Lemma GameTick_score (s s' : State) :
  GameTick_apply s = Some s' ->
  let n := Z.of_nat (length (linesToClearOf (gameTickMerged s))) in
  score s' = score s + n * 100 /\
  linesCleared s' = linesCleared s + n /\
  level s' = score s' / MAX_SCORE_PER_LEVEL + 1 /\
  highScore s' = (if highScore s <? score s' then score s' else highScore s).
Proof.
  intros H. invert_landing H. cbv zeta. simpl. repeat split.
Qed.

Lemma HardDrop_score (s s' : State) :
  HardDrop_apply s = Some s' ->
  let n := Z.of_nat (length (linesToClearOf (hardDropMerged s))) in
  score s' = score s + n * 100 /\
  linesCleared s' = linesCleared s + n /\
  level s' = score s' / MAX_SCORE_PER_LEVEL + 1 /\
  highScore s' = (if highScore s <? score s' then score s' else highScore s).
Proof.
  intros H. invert_landing H. cbv zeta. simpl. repeat split.
Qed.

Lemma GameTick_grid (s s' : State) :
  GameTick_apply s = Some s' -> gameEnd s = false ->
  mainGridCubes s' = finalMainGridCubesOf (gameTickMerged s).
Proof.
  intros H Hend. invert_landing H. simpl. rewrite Hend. reflexivity.
Qed.

Lemma HardDrop_grid (s s' : State) :
  HardDrop_apply s = Some s' -> gameEnd s = false ->
  mainGridCubes s' = finalMainGridCubesOf (hardDropMerged s).
Proof.
  intros H Hend. invert_landing H. simpl. rewrite Hend. reflexivity.
Qed.

Lemma scoredFor_intro (s s' : State) (merged : Cubes) :
  let n := Z.of_nat (length (linesToClearOf merged)) in
  score s' = score s + n * 100 ->
  linesCleared s' = linesCleared s + n ->
  level s' = score s' / MAX_SCORE_PER_LEVEL + 1 ->
  (gameEnd s = false -> mainGridCubes s' = finalMainGridCubesOf merged) ->
  scoredFor s s' merged.
Proof.
  cbv zeta. unfold scoredFor, MAX_SCORE_PER_LEVEL. intros Hs Hl Hv Hgrid.
  split; [lia|]. split; [lia|]. split; [exact Hv|].
  split; [|split].
  - split; intros H.
    + rewrite Hv in H.
      destruct (Z_lt_ge_dec (score s') 1000) as [|Hge]; [assumption|].
      assert (1 <= score s' / 1000) by (apply Z.div_le_lower_bound; lia).
      lia.
    + rewrite Hv.
      assert (score s' / 1000 < 1) by (apply Z.div_lt_upper_bound; lia).
      lia.
  - split.
    + intros H. rewrite Hv in H.
      assert (E : score s' / 1000 = 1) by lia.
      pose proof (Z.mul_div_le (score s') 1000 eq_refl).
      pose proof (Z.mul_succ_div_gt (score s') 1000 eq_refl). lia.
    + intros [H1 H2]. rewrite Hv.
      assert (1 <= score s' / 1000) by (apply Z.div_le_lower_bound; lia).
      assert (score s' / 1000 < 2) by (apply Z.div_lt_upper_bound; lia).
      lia.
  - intros Hend. rewrite (Hgrid Hend).
    split; [apply finalMainGridCubesOf_collapsed|].
    pose proof (finalMainGridCubesOf_length merged) as Hlen.
    unfold GRID_WIDTH in *. lia.
Qed.

Section Scoring.

Variable calculateDropTick : Z -> Z.

Lemma Tick_rollover (s : State) :
  rollsOver s = true ->
  exists s1, Tick_apply calculateDropTick s = GameTick_apply s1 /\
    currentCubes s1 = currentCubes s /\
    mainGridCubes s1 = mainGridCubes s /\
    previewGridCubes s1 = previewGridCubes s /\
    rng s1 = rng s /\ score s1 = score s /\
    linesCleared s1 = linesCleared s /\ highScore s1 = highScore s /\
    gameEnd s1 = gameEnd s.
Proof.
  unfold rollsOver, Tick_apply. intros H. rewrite H.
  eexists. split; [reflexivity|]. simpl. repeat split.
Qed.

Lemma Tick_no_rollover (s : State) :
  rollsOver s = false ->
  exists s', Tick_apply calculateDropTick s = Some s' /\
    currentCubes s' = currentCubes s /\
    mainGridCubes s' = mainGridCubes s /\
    previewGridCubes s' = previewGridCubes s /\
    rng s' = rng s /\ score s' = score s /\
    linesCleared s' = linesCleared s /\ highScore s' = highScore s /\
    gameEnd s' = gameEnd s /\ level s' = level s.
Proof.
  unfold rollsOver, Tick_apply. intros H. rewrite H.
  eexists. split; [reflexivity|]. simpl. repeat split.
Qed.

Lemma gameTickMerged_ext (s s1 : State) :
  currentCubes s1 = currentCubes s -> mainGridCubes s1 = mainGridCubes s ->
  gameTickMerged s1 = gameTickMerged s.
Proof.
  intros Hc Hm. unfold gameTickMerged, isCollide. simpl.
  rewrite Hc, Hm. reflexivity.
Qed.

(** What [GameTick] (also the one a Tick runs on reaching the drop tick)
    and HardDrop do to the counters: they add 100 to the score and 1 to the
    line count per row that holds [GRID_WIDTH] cubes in the grid the piece
    was merged into, and set the level to [floor (score / 1000) + 1] of the
    new score; so the level is at most 1 exactly while the score is below
    1000 and is 2 exactly from 1000 up to 1999.  Only while the game is on
    do those rows leave the settled grid, [GRID_WIDTH] cubes each.  On a
    well-formed state both steps return. *)
Lemma landing_score_and_level (s : State) :
  (forall s', GameTick_apply s = Some s' ->
              scoredFor s s' (gameTickMerged s)) /\
  (forall s', rollsOver s = true ->
              apply calculateDropTick s Tick = Some s' ->
              scoredFor s s' (gameTickMerged s)) /\
  (forall s', apply calculateDropTick s HardDrop = Some s' ->
              scoredFor s s' (hardDropMerged s)) /\
  (wellFormed s ->
   (exists s', GameTick_apply s = Some s') /\
   (exists s', apply calculateDropTick s HardDrop = Some s')).
Proof.
  split; [|split; [|split]].
  - intros s' H. pose proof (GameTick_grid s s' H) as Hgrid.
    apply GameTick_score in H. cbv zeta in H.
    apply scoredFor_intro; solve [apply H | exact Hgrid].
  - intros s' Hr H. simpl in H.
    destruct (Tick_rollover s Hr)
      as (s1 & E & Hc & Hm & _ & _ & Hs & Hl & _ & He).
    rewrite E in H. pose proof (GameTick_grid s1 s' H) as Hgrid.
    apply GameTick_score in H. cbv zeta in H.
    rewrite (gameTickMerged_ext s s1 Hc Hm) in H, Hgrid.
    rewrite Hs, Hl in H. rewrite He in Hgrid.
    apply scoredFor_intro; solve [apply H | exact Hgrid].
  - intros s' H. simpl in H. pose proof (HardDrop_grid s s' H) as Hgrid.
    apply HardDrop_score in H. cbv zeta in H.
    apply scoredFor_intro; solve [apply H | exact Hgrid].
  - intros Hwf. split.
    + apply GameTick_total, Hwf.
    + simpl. apply HardDrop_total, Hwf.
Qed.

End Scoring.

Lemma landing_score_and_level_example :
  wellFormed lineReadyState /\ rollsOver lineReadyState = true /\
  (exists s', GameTick_apply lineReadyState = Some s' /\ score s' = 900) /\
  (exists s', apply tabulatedDropTick lineReadyState Tick = Some s' /\
              score s' = 900 /\ level s' = 1) /\
  (exists s', apply tabulatedDropTick lineReadyState HardDrop = Some s' /\
              score s' = 1000 /\ level s' = 2 /\ linesCleared s' = 10 /\
              mainGridCubes s' = []).
Proof.
  assert (Hwf : wellFormed lineReadyState)
    by (split; [discriminate | vm_compute; discriminate]).
  destruct (landing_score_and_level tabulatedDropTick lineReadyState)
    as (Hgame & Htick & Hhard & Htotal).
  destruct (Htotal Hwf) as [[s1 E1] [s3 E3]].
  split; [exact Hwf|]. split; [reflexivity|].
  split; [|split].
  - exists s1. split; [exact E1|].
    destruct (Hgame s1 E1) as (Hs & _). rewrite Hs. reflexivity.
  - assert (E2 : exists s2,
               apply tabulatedDropTick lineReadyState Tick = Some s2)
      by (vm_compute; eauto).
    destruct E2 as [s2 E2]. exists s2. split; [exact E2|].
    destruct (Htick s2 eq_refl E2) as (Hs & _ & Hv & _).
    rewrite Hv, Hs. split; reflexivity.
  - exists s3. split; [exact E3|].
    destruct (Hhard s3 E3) as (Hs & Hl & Hv & _ & _ & Hgrid).
    destruct (Hgrid eq_refl) as [Hg _].
    rewrite Hv, Hl, Hs, Hg. repeat split.
Qed.

(** C9.  After game over the score still grows, with no line cleared.  In
    the game of [lostFlagActions] the 51st action ends the game with the
    score at 0.  With no key pressed the piece keeps falling through the
    stack, and 449 Ticks later no row of the settled grid is full (row 7
    holds 8 cubes, two of them under cubes of the piece); the next Tick runs
    [GameTick], which counts those two cubes of the piece into a copy of
    the grid, finds 10 cubes in row 7, and adds 100 to the score and 1 to
    the line count, while the settled grid stays as it was and nothing has
    landed (the render hint is clear).  A HardDrop on the game-over state
    (after one Rotate) does the same: 100 more points, one more line
    counted, the settled grid unchanged and none of its rows full.  (The
    drop tick is 50 throughout: the level stays 1.) *)
Theorem gameOver_scores_without_clearing :
  exists s0 over later s1 turned s2,
    initialState 1356 = Some s0 /\
    run tabulatedDropTick s0 (firstn 51 lostFlagActions) = Some over /\
    gameEnd over = true /\
    run tabulatedDropTick over (repeat Tick 449) = Some later /\
    reachable tabulatedDropTick later /\
    gameEnd later = true /\ score later = 0 /\ linesCleared later = 0 /\
    level later = 1 /\
    (forall y, ~ fullRow (mainGridCubes later) y) /\
    map coords (rowCells (mainGridCubes later) 7)
    = [(7, 7); (8, 7); (3, 7); (4, 7); (1, 7); (2, 7); (6, 7); (5, 7)] /\
    map coords (currentCubes later) = [(4, 6); (3, 6); (4, 7); (5, 7)] /\
    apply tabulatedDropTick later Tick = Some s1 /\
    score s1 = 100 /\ linesCleared s1 = 1 /\
    mainGridCubes s1 = mainGridCubes later /\
    updateGrid s1 = false /\
    apply tabulatedDropTick over Rotate = Some turned /\
    reachable tabulatedDropTick turned /\
    gameEnd turned = true /\ score turned = 0 /\ linesCleared turned = 0 /\
    (forall y, ~ fullRow (mainGridCubes turned) y) /\
    apply tabulatedDropTick turned HardDrop = Some s2 /\
    score s2 = 100 /\ linesCleared s2 = 1 /\
    mainGridCubes s2 = mainGridCubes turned.
Proof.
  eexists. eexists. eexists. eexists. eexists. eexists.
  split; [vm_compute; reflexivity|].
  split; [vm_compute; reflexivity|].
  split; [reflexivity|].
  split; [vm_compute; reflexivity|].
  split.
  { exists 1356. eexists.
    exists (firstn 51 lostFlagActions ++ repeat Tick 449).
    split; [lia|].
    split; [vm_compute; reflexivity | vm_compute; reflexivity]. }
  split; [reflexivity|]. split; [reflexivity|]. split; [reflexivity|].
  split; [reflexivity|].
  split.
  { intros y Hy. apply (proj2 (linesToClearOf_iff _ y)) in Hy.
    vm_compute in Hy. exact Hy. }
  split; [vm_compute; reflexivity|].
  split; [vm_compute; reflexivity|].
  split; [vm_compute; reflexivity|].
  split; [reflexivity|]. split; [reflexivity|].
  split; [vm_compute; reflexivity|].
  split; [reflexivity|].
  split; [vm_compute; reflexivity|].
  split.
  { exists 1356. eexists. exists (firstn 52 lostFlagActions).
    split; [lia|].
    split; [vm_compute; reflexivity | vm_compute; reflexivity]. }
  split; [reflexivity|]. split; [reflexivity|]. split; [reflexivity|].
  split.
  { intros y Hy. apply (proj2 (linesToClearOf_iff _ y)) in Hy.
    vm_compute in Hy. exact Hy. }
  split; [vm_compute; reflexivity|].
  split; [reflexivity|]. split; [reflexivity|].
  vm_compute. reflexivity.
Qed.

(** ** The high score *)

Lemma Rotate_frame (s : State) :
  score (Rotate_apply s) = score s /\
  highScore (Rotate_apply s) = highScore s /\
  previewGridCubes (Rotate_apply s) = previewGridCubes s /\
  rng (Rotate_apply s) = rng s /\
  gameEnd (Rotate_apply s) = gameEnd s.
Proof.
  unfold Rotate_apply.
  destruct (currentCubes s) as [|pivot rest]; [repeat split|].
  destruct (Colour_eqb _ _); repeat split.
Qed.

Lemma Reset_frame (s : State) :
  highScore (Reset_apply s) = highScore s /\
  previewGridCubes (Reset_apply s) = previewGridCubes s /\
  rng (Reset_apply s) = rng s /\
  (score (Reset_apply s) = score s \/ score (Reset_apply s) = 0).
Proof.
  unfold Reset_apply. destruct (gameEnd s); simpl; auto.
Qed.

Lemma landing_wellFormed (s s' : State) :
  wellFormed s ->
  GameTick_apply s = Some s' \/ HardDrop_apply s = Some s' ->
  wellFormed s'.
Proof.
  intros [Hp Hr] H. unfold wellFormed.
  destruct (nextPreview_Some s Hr) as (pre & Epre & Hne).
  pose proof (hash_range (rng s) Hr) as Hh.
  destruct H as [H|H]; invert_landing H; simpl.
  - destruct (shouldUpdateGrid _).
    + split; [congruence | lia].
    + split; [congruence | lia].
  - split; [congruence | lia].
Qed.

Section HighScore.

Variable calculateDropTick : Z -> Z.

Lemma apply_total (s : State) (a : Action) :
  wellFormed s -> exists s', apply calculateDropTick s a = Some s'.
Proof.
  intros Hwf. destruct a; simpl; eauto.
  - destruct (rollsOver s) eqn:E.
    + destruct (Tick_rollover calculateDropTick s E)
        as (s1 & -> & _ & _ & Hp & Hr & _).
      apply GameTick_total. unfold wellFormed. rewrite Hp, Hr. exact Hwf.
    + destruct (Tick_no_rollover calculateDropTick s E) as (s' & -> & _).
      eauto.
  - apply HardDrop_total, Hwf.
Qed.

Lemma apply_wellFormed (s s' : State) (a : Action) :
  wellFormed s -> apply calculateDropTick s a = Some s' -> wellFormed s'.
Proof.
  intros Hwf H. destruct a; simpl in H.
  - destruct (rollsOver s) eqn:E.
    + destruct (Tick_rollover calculateDropTick s E)
        as (s1 & E1 & _ & _ & Hp & Hr & _).
      rewrite E1 in H. apply (landing_wellFormed s1 s'); [|auto].
      unfold wellFormed. rewrite Hp, Hr. exact Hwf.
    + destruct (Tick_no_rollover calculateDropTick s E)
        as (s2 & E2 & _ & _ & Hp & Hr & _).
      rewrite E2 in H. injection H as <-.
      unfold wellFormed. rewrite Hp, Hr. exact Hwf.
  - injection H as <-. exact Hwf.
  - injection H as <-. exact Hwf.
  - injection H as <-. exact Hwf.
  - injection H as <-. unfold wellFormed.
    destruct (Rotate_frame s) as (_ & _ & -> & -> & _). exact Hwf.
  - apply (landing_wellFormed s s'); auto.
  - injection H as <-. unfold wellFormed.
    destruct (Reset_frame s) as (_ & -> & -> & _). exact Hwf.
Qed.

Lemma landing_highScore (s s' : State) (n : Z) :
  0 <= n ->
  score s' = score s + n * 100 ->
  highScore s' = (if highScore s <? score s' then score s' else highScore s) ->
  highScore s <= highScore s' /\ score s' <= highScore s' /\
  (0 <= score s -> 0 <= score s').
Proof.
  intros Hn Hs Hh. rewrite Hh.
  destruct (Z.ltb_spec (highScore s) (score s')); lia.
Qed.

Lemma apply_scores (s s' : State) (a : Action) :
  apply calculateDropTick s a = Some s' ->
  highScore s <= highScore s' /\
  (score s <= highScore s -> 0 <= highScore s \/ a <> Reset ->
   score s' <= highScore s') /\
  (0 <= score s -> 0 <= score s').
Proof.
  intros H. destruct a; simpl in H.
  - destruct (rollsOver s) eqn:E.
    + destruct (Tick_rollover calculateDropTick s E)
        as (s1 & E1 & _ & _ & _ & _ & Hs & _ & Hh & _).
      rewrite E1 in H. apply GameTick_score in H. cbv zeta in H.
      destruct H as (H1 & _ & _ & H2). rewrite Hs in H1. rewrite Hh in H2.
      pose proof (landing_highScore s s' _ (Nat2Z.is_nonneg _) H1 H2).
      tauto.
    + destruct (Tick_no_rollover calculateDropTick s E)
        as (s2 & E2 & _ & _ & _ & _ & Hs & _ & Hh & _).
      rewrite E2 in H. injection H as <-. rewrite Hs, Hh. lia.
  - injection H as <-. simpl. lia.
  - injection H as <-. simpl. lia.
  - injection H as <-. simpl. lia.
  - injection H as <-.
    destruct (Rotate_frame s) as (-> & -> & _). lia.
  - apply HardDrop_score in H. cbv zeta in H.
    destruct H as (H1 & _ & _ & H2).
    pose proof (landing_highScore s s' _ (Nat2Z.is_nonneg _) H1 H2).
    tauto.
  - injection H as <-.
    destruct (Reset_frame s) as (-> & _ & _ & [-> | ->]).
    + split; [lia|]. split; [tauto | lia].
    + split; [lia|]. split; [|lia].
      intros _ [Hpos | Hne]; [exact Hpos | congruence].
Qed.

Lemma run_invariant (P : State -> Prop) :
  (forall s a s', P s -> apply calculateDropTick s a = Some s' -> P s') ->
  forall actions s s',
    P s -> run calculateDropTick s actions = Some s' -> P s'.
Proof.
  intros Hstep actions.
  induction actions as [|a rest IH]; intros s s' HP H; simpl in H.
  - injection H as <-. exact HP.
  - unfold reduceState, bind in H.
    destruct (apply calculateDropTick s a) as [s1|] eqn:E; [|discriminate].
    apply (IH s1 s'); [|exact H].
    apply (Hstep s a s1); assumption.
Qed.

Lemma initialState_facts (initialRNG : Z) (s0 : State) :
  0 <= initialRNG -> initialState initialRNG = Some s0 ->
  wellFormed s0 /\ score s0 = 0 /\ highScore s0 = 0 /\
  mainGridCubes s0 = [] /\ currentCubes s0 = [] /\ gameEnd s0 = false.
Proof.
  intros Hr H. unfold initialState in H.
  destruct (generateTetromino_Some initialRNG PREVIEW_GRID_X PREVIEW_GRID_Y Hr)
    as (create & E & Hne).
  rewrite E in H. simpl in H. injection H as <-. simpl.
  repeat split; [apply Hne | apply hash_range; exact Hr].
Qed.

Lemma reachable_scores (s : State) :
  reachable calculateDropTick s ->
  wellFormed s /\ 0 <= score s <= highScore s.
Proof.
  intros (r & s0 & actions & Hr & H0 & Hrun).
  destruct (initialState_facts r s0 (proj1 Hr) H0)
    as (Hwf & Hs & Hh & _).
  apply (run_invariant
           (fun s => wellFormed s /\ 0 <= score s <= highScore s))
    with (actions := actions) (s := s0); [| split; [exact Hwf | lia] | exact Hrun].
  intros s1 a s2 [Hwf1 Hsc] Happ. split.
  - apply (apply_wellFormed s1 s2 a); assumption.
  - pose proof (apply_scores s1 s2 a Happ) as (H1 & H2 & H3).
    split; [apply H3; lia|].
    apply H2; [lia|]. left. lia.
Qed.

(** C10.  The high score never goes down, and never falls below the
    score.  Whatever the state, an action that returns leaves [highScore] at
    least where it was.  In every state a game reaches, every action returns
    (Reset included), the score is at most the high score before the
    action, and it is at most the high score after it. *)
Theorem highScore_monotone (s : State) (a : Action) :
  (forall s', apply calculateDropTick s a = Some s' ->
              highScore s <= highScore s') /\
  (reachable calculateDropTick s ->
   exists s', apply calculateDropTick s a = Some s' /\
     highScore s <= highScore s' /\
     score s <= highScore s /\ score s' <= highScore s').
Proof.
  split.
  - intros s' H. apply (apply_scores s s' a H).
  - intros Hr. destruct (reachable_scores s Hr) as [Hwf Hs].
    destruct (apply_total s a Hwf) as [s' E].
    exists s'. split; [exact E|].
    destruct (apply_scores s s' a E) as (Hm & Hk & _).
    split; [exact Hm|]. split; [lia|]. apply Hk; [lia | left; lia].
Qed.

End HighScore.

Lemma highScore_monotone_witness :
  (exists s,
     play 1714 (firstn 13 lineClearActions) = Some s /\
     gameEnd s = false /\ highScore s = 0 /\
     option_map highScore (apply tabulatedDropTick s HardDrop) = Some 100 /\
     exists s', apply tabulatedDropTick s HardDrop = Some s' /\
       highScore s <= highScore s' /\
       score s <= highScore s /\ score s' <= highScore s') /\
  (exists s,
     play 1714 (lineClearActions ++ repeat HardDrop 9) = Some s /\
     gameEnd s = true /\ score s = 100 /\ highScore s = 100 /\
     option_map score (apply tabulatedDropTick s Reset) = Some 0 /\
     exists s', apply tabulatedDropTick s Reset = Some s' /\
       highScore s <= highScore s' /\
       score s <= highScore s /\ score s' <= highScore s').
Proof.
  split.
  - eexists. split; [vm_compute; reflexivity|].
    split; [reflexivity|]. split; [reflexivity|].
    split; [vm_compute; reflexivity|].
    apply (proj2 (highScore_monotone tabulatedDropTick _ HardDrop)).
    exists 1714. eexists. exists (firstn 13 lineClearActions).
    split; [lia|].
    split; [vm_compute; reflexivity | vm_compute; reflexivity].
  - eexists. split; [vm_compute; reflexivity|].
    split; [reflexivity|]. split; [reflexivity|]. split; [reflexivity|].
    split; [vm_compute; reflexivity|].
    apply (proj2 (highScore_monotone tabulatedDropTick _ Reset)).
    exists 1714. eexists. exists (lineClearActions ++ repeat HardDrop 9).
    split; [lia|].
    split; [vm_compute; reflexivity | vm_compute; reflexivity].
Defined.

(** ** Hard drop *)

Lemma HardDrop_lands (s s' : State) :
  HardDrop_apply s = Some s' ->
  updateGrid s' = true /\
  previousMainGridCubes s' = mainGridCubes s /\
  (gameEnd s = false ->
   mainGridCubes s' = finalMainGridCubesOf (hardDropMerged s)) /\
  gameEnd s' = gameOverOf (finalMainGridCubesOf (hardDropMerged s)).
Proof.
  intros H. invert_landing H. simpl. repeat split.
  intros ->. reflexivity.
Qed.

(** C2.  The cyan piece hard-dropped from its spawn row stops one row
    short.  Its four cubes are in row -2 over an empty grid, so each of its
    columns is free down to the floor and the free fall is 21 rows, to row
    19, where the placement is valid; [HardDrop] moves it 20 rows and
    settles it in row 18. *)
Theorem HardDrop_stops_short :
  exists s s',
    cyanAtSpawn = Some s /\
    gameEnd s = false /\ mainGridCubes s = [] /\
    map coords (currentCubes s) = [(4, -2); (3, -2); (5, -2); (6, -2)] /\
    freeFallDistance (currentCubes s) (mainGridCubes s) = Some 21 /\
    isValid (withCurrentCubes s (generateNewCubes (currentCubes s) 0 21 false))
    = true /\
    hardDropDistance s = 20 /\
    HardDrop_apply s = Some s' /\
    map coords (mainGridCubes s') = [(4, 18); (3, 18); (5, 18); (6, 18)].
Proof.
  eexists. eexists.
  split; [vm_compute; reflexivity|].
  repeat split; vm_compute; reflexivity.
Qed.

(** ** The settled-grid invariant *)

Lemma landing_recognises_gameOver (s s' : State) :
  gameEnd s = false ->
  GameTick_apply s = Some s' \/ HardDrop_apply s = Some s' ->
  gameEnd s' = gameOverOf (mainGridCubes s').
Proof.
  intros Hend [H|H]; invert_landing H; simpl; rewrite Hend; reflexivity.
Qed.

Section WhilePlaying.

Variable calculateDropTick : Z -> Z.

(** While the game is on, the flag follows the settled grid: a step from a
    state in play whose settled cubes are all in rows 0 and below sets
    [gameEnd] exactly when it leaves a settled cube above row 0. *)
Lemma playing_step_recognises_gameOver (s s' : State) (a : Action) :
  gameEnd s = false -> gameOverOf (mainGridCubes s) = false ->
  apply calculateDropTick s a = Some s' ->
  gameEnd s' = gameOverOf (mainGridCubes s').
Proof.
  intros Hend Hgrid H. destruct a; simpl in H.
  - destruct (rollsOver s) eqn:E.
    + destruct (Tick_rollover calculateDropTick s E)
        as (s1 & E1 & _ & _ & _ & _ & _ & _ & _ & He).
      rewrite E1 in H.
      apply (landing_recognises_gameOver s1 s'); [congruence | auto].
    + destruct (Tick_no_rollover calculateDropTick s E)
        as (s2 & E2 & _ & Hm & _ & _ & _ & _ & _ & He & _).
      rewrite E2 in H. injection H as <-. congruence.
  - injection H as <-. simpl. congruence.
  - injection H as <-. simpl. congruence.
  - injection H as <-. simpl. congruence.
  - injection H as <-. rewrite Rotate_mainGrid.
    destruct (Rotate_frame s) as (_ & _ & _ & _ & ->). congruence.
  - apply (landing_recognises_gameOver s s'); auto.
  - injection H as <-. unfold Reset_apply. rewrite Hend. congruence.
Qed.

End WhilePlaying.

Lemma lostFlagActions_drops_are_full :
  exists s0, initialState 1356 = Some s0 /\
    dropsAreFull s0 lostFlagActions = true.
Proof.
  eexists. split; [vm_compute; reflexivity|].
  vm_compute. reflexivity.
Qed.

(** C7.  The invariant is lost after a game over.  In the game of
    [lostFlagActions] the 51st action ends the game with a settled cube at
    (5, -1); the hard drop two actions later works out a line clear on a
    grid it then discards, takes the game-over flag from that grid and keeps
    the settled grid as it was: the state reached has [gameEnd = false] and
    a settled cube in row -1.  The piece spawned there overlaps that cube,
    and one more hard drop settles it in place: the settled grid then holds
    two cubes at (5, -1). *)
Theorem gameOver_flag_lost (calculateDropTick : Z -> Z) :
  exists s0 over s s2,
    initialState 1356 = Some s0 /\
    run calculateDropTick s0 (firstn 51 lostFlagActions) = Some over /\
    gameEnd over = true /\
    run calculateDropTick s0 lostFlagActions = Some s /\
    reachable calculateDropTick s /\
    gameEnd s = false /\
    mainGridCubes s = mainGridCubes over /\
    map coords (filter (fun cube => cube_y cube <? 0) (mainGridCubes s))
    = [(5, -1)] /\
    apply calculateDropTick s HardDrop = Some s2 /\
    reachable calculateDropTick s2 /\
    map coords (filter (fun cube => cube_y cube <? 0) (mainGridCubes s2))
    = [(5, -1); (4, -2); (5, -2); (4, -1); (5, -1)] /\
    ~ noDuplicateCoords (mainGridCubes s2).
Proof.
  eexists. eexists. eexists. eexists.
  split; [vm_compute; reflexivity|].
  split; [vm_compute; reflexivity|].
  split; [reflexivity|].
  split; [vm_compute; reflexivity|].
  split.
  { exists 1356. eexists. exists lostFlagActions.
    split; [lia|].
    split; [vm_compute; reflexivity | vm_compute; reflexivity]. }
  split; [reflexivity|]. split; [reflexivity|].
  split; [vm_compute; reflexivity|].
  split; [vm_compute; reflexivity|].
  split.
  { exists 1356. eexists. exists (lostFlagActions ++ [HardDrop]).
    split; [lia|].
    split; [vm_compute; reflexivity | vm_compute; reflexivity]. }
  split; [vm_compute; reflexivity|].
  intros Hnd. apply NoDup_allDistinct in Hnd.
  vm_compute in Hnd. discriminate Hnd.
Qed.

(** * Further properties of the code *)

(** ** The piece factory *)

Lemma tetromino_cases (index x y : Z) (create : string -> Cubes) :
  generateTetromino index x y = Some create ->
  create = createYellowTetromino x y \/ create = createBlueTetromino x y \/
  create = createOrangeTetromino x y \/ create = createRedTetromino x y \/
  create = createGreenTetromino x y \/ create = createPurpleTetromino x y \/
  create = createCyanTetromino x y.
Proof.
  unfold generateTetromino, bind, lookup.
  destruct (RNG.scale index <? 0); [discriminate|].
  destruct (Z.to_nat (RNG.scale index)) as [|[|[|[|[|[|[|n]]]]]]]; simpl;
    try (intros [= <-]; tauto).
  destruct n; discriminate.
Qed.

Lemma tetromino_uniform (index x y : Z) (create : string -> Cubes)
  (group : string) :
  generateTetromino index x y = Some create ->
  exists colour,
    findIndexByColour colour = RNG.scale index /\
    map cube_colour (create group) = [colour; colour; colour; colour] /\
    map cube_id (create group)
    = [(group ++ "1")%string; (group ++ "2")%string;
       (group ++ "3")%string; (group ++ "4")%string].
Proof.
  unfold generateTetromino, bind, lookup.
  destruct (Z.ltb_spec (RNG.scale index) 0) as [|Hpos]; [discriminate|].
  assert (Hi : RNG.scale index = Z.of_nat (Z.to_nat (RNG.scale index)))
    by lia.
  destruct (Z.to_nat (RNG.scale index)) as [|[|[|[|[|[|[|n]]]]]]]; simpl;
    try (intros [= <-]; eexists; split; [|split; reflexivity];
         rewrite Hi; reflexivity).
  destruct n; discriminate.
Qed.

(** X1.  Colour to index and back: for each of the seven colours,
    [generateTetromino] at the index [findIndexByColour] gives for that
    colour returns a factory, and the piece it builds for any id group has
    four cubes, all of that colour, with the ids group1 .. group4. *)
Theorem factory_colour_round_trip (colour : Colour) (x y : Z) :
  exists create,
    generateTetromino (findIndexByColour colour) x y = Some create /\
    forall group,
      map cube_colour (create group) = [colour; colour; colour; colour] /\
      map cube_id (create group)
      = [(group ++ "1")%string; (group ++ "2")%string;
         (group ++ "3")%string; (group ++ "4")%string].
Proof.
  destruct colour; simpl; eexists; (split; [reflexivity|]);
    intros group; split; reflexivity.
Qed.

(** X2.  Index to colour and back: when [generateTetromino] returns a
    factory for an index, [findIndexByColour] of the colour of each of the
    four cubes it builds is the scaled index, [RNG.scale index]. *)
Theorem factory_index_round_trip (index x y : Z) (create : string -> Cubes) :
  generateTetromino index x y = Some create ->
  forall group,
    map (fun cube => findIndexByColour (cube_colour cube)) (create group)
    = [RNG.scale index; RNG.scale index; RNG.scale index; RNG.scale index].
Proof.
  intros H group.
  destruct (tetromino_uniform index x y create group H)
    as (colour & Hc & Hcol & _).
  rewrite <- (map_map cube_colour findIndexByColour), Hcol. simpl.
  rewrite Hc. reflexivity.
Qed.

Lemma factory_index_round_trip_witness :
  generateTetromino 12 4 (-2) = Some (createPurpleTetromino 4 (-2)) /\
  map (fun cube => findIndexByColour (cube_colour cube))
    (createPurpleTetromino 4 (-2) "c")
  = [RNG.scale 12; RNG.scale 12; RNG.scale 12; RNG.scale 12].
Proof.
  split; [reflexivity|].
  apply (factory_index_round_trip 12 4 (-2)). reflexivity.
Defined.

(** X3.  [generateTetromino] throws (the table lookup is undefined and the
    call of it raises a TypeError) exactly on a negative index that is not a
    multiple of 7: the remainder of such an index is negative.  On every
    other integer it returns a factory. *)
Theorem generateTetromino_throws_iff (index x y : Z) :
  generateTetromino index x y = None <-> index < 0 /\ Z.rem index 7 <> 0.
Proof.
  unfold generateTetromino, bind, lookup, RNG.scale.
  pose proof (Z.rem_bound_abs index 7 ltac:(lia)) as Hb.
  destruct (Z.ltb_spec (Z.rem index 7) 0) as [Hneg|Hpos].
  - split; [intros _|reflexivity]. split; [|lia].
    destruct (Z_lt_ge_dec index 0) as [|Hge]; [assumption|].
    pose proof (Z.rem_nonneg index 7 ltac:(lia) ltac:(lia)). lia.
  - assert (Hlt : (Z.to_nat (Z.rem index 7) < 7)%nat) by lia.
    destruct (nth_error tetrominos (Z.to_nat (Z.rem index 7))) as [c|] eqn:E.
    + split; [discriminate|]. intros [Hi Hr].
      pose proof (Z.rem_nonpos index 7 ltac:(lia) ltac:(lia)). lia.
    + apply nth_error_None in E. simpl in E. lia.
Qed.

Lemma generateTetromino_throws_iff_witness :
  generateTetromino (-3) 4 (-2) = None /\
  generateTetromino (-7) 4 (-2) <> None.
Proof.
  split.
  - apply (proj2 (generateTetromino_throws_iff (-3) 4 (-2))).
    split; [lia | discriminate].
  - intros H. apply (proj1 (generateTetromino_throws_iff (-7) 4 (-2))) in H.
    destruct H as [_ H]. apply H. reflexivity.
Defined.

(** X4.  The shape of a generated piece: four cubes on four different
    cells, all within the 4 x 2 box whose corner is one column left of the
    anchor (x - 1 <= cube.x <= x + 2, y <= cube.y <= y + 1); and generating
    at a shifted anchor gives the same piece as translating it with
    [generateNewCubes]. *)
Theorem tetromino_shape (index x y : Z) (create : string -> Cubes)
  (group : string) :
  generateTetromino index x y = Some create ->
  length (create group) = 4%nat /\
  noDuplicateCoords (create group) /\
  Forall (fun cube => x - 1 <= cube_x cube <= x + 2 /\
                      y <= cube_y cube <= y + 1)
    (create group) /\
  (forall dx dy, exists create',
     generateTetromino index (x + dx) (y + dy) = Some create' /\
     create' group = generateNewCubes (create group) dx dy false).
Proof.
  intros H.
  assert (Hmove : forall dx dy, exists create',
             generateTetromino index (x + dx) (y + dy) = Some create' /\
             create' group = generateNewCubes (create group) dx dy false).
  { intros dx dy. revert H. unfold generateTetromino, bind, lookup.
    destruct (RNG.scale index <? 0); [discriminate|].
    destruct (Z.to_nat (RNG.scale index)) as [|[|[|[|[|[|[|n]]]]]]]; simpl;
      try (intros [= <-]; eexists; split; [reflexivity|];
           cbv [createYellowTetromino createBlueTetromino
                createOrangeTetromino createRedTetromino createGreenTetromino
                createPurpleTetromino createCyanTetromino createTetromino
                generateNewCubes map fst snd cube_x cube_y cube_colour
                cube_id];
           repeat (f_equal; try lia)).
    destruct n; discriminate. }
  apply tetromino_cases in H.
  split; [|split; [|split; [|exact Hmove]]].
  - repeat destruct H as [->|H]; try subst create; reflexivity.
  - unfold noDuplicateCoords.
    repeat destruct H as [->|H]; try subst create; simpl;
      repeat (constructor;
              [simpl; unfold coords; simpl; intros Hin;
               repeat (destruct Hin as [Hin|Hin];
                       [injection Hin; intros; lia|]); exact Hin|]);
      constructor.
  - repeat destruct H as [->|H]; try subst create; simpl;
      repeat (constructor; [simpl; lia|]); constructor.
Qed.

Lemma tetromino_shape_witness :
  generateTetromino 12 4 (-2) = Some (createPurpleTetromino 4 (-2)) /\
  noDuplicateCoords (createPurpleTetromino 4 (-2) "c") /\
  exists create',
    generateTetromino 12 (4 + 1) (-2 + 7) = Some create' /\
    create' "c"%string
    = generateNewCubes (createPurpleTetromino 4 (-2) "c") 1 7 false.
Proof.
  split; [reflexivity|].
  destruct (tetromino_shape 12 4 (-2) (createPurpleTetromino 4 (-2)) "c"
              eq_refl) as (_ & Hdistinct & _ & Hmove).
  split; [exact Hdistinct | exact (Hmove 1 7)].
Defined.

(** X5.  [range start end] lists the integers from start to end: it has
    end - start + 1 elements (none when end < start), holds exactly the
    integers between the two bounds, in strictly ascending order, and its
    element at index i is start + i. *)
Theorem range_spec (start end_ : Z) :
  length (range start end_) = Z.to_nat (end_ - start + 1) /\
  (forall v, In v (range start end_) <-> start <= v <= end_) /\
  StronglySorted Z.lt (range start end_) /\
  (end_ < start -> range start end_ = []) /\
  (forall i, 0 <= i <= end_ - start ->
             lookup (range start end_) i = Some (start + i)).
Proof.
  unfold range. split; [|split; [|split; [|split]]].
  - rewrite length_map, length_seq. reflexivity.
  - intros v. rewrite in_map_iff. split.
    + intros (i & <- & Hi). apply in_seq in Hi. lia.
    + intros Hv. exists (Z.to_nat (v - start)). split; [lia|].
      apply in_seq. lia.
  - generalize (Z.to_nat (end_ - start + 1)) as n. generalize 0%nat as k.
    intros k n. revert k.
    induction n as [|n IH]; intros k; simpl; constructor.
    + apply IH.
    + apply Forall_forall. intros v Hv. apply in_map_iff in Hv.
      destruct Hv as (i & <- & Hi). apply in_seq in Hi. lia.
  - intros Hlt. replace (Z.to_nat (end_ - start + 1)) with 0%nat by lia.
    reflexivity.
  - intros i Hi. unfold lookup.
    destruct (Z.ltb_spec i 0); [lia|].
    rewrite nth_error_map, nth_error_seq.
    destruct (Nat.ltb_spec (Z.to_nat i) (Z.to_nat (end_ - start + 1)));
      [|lia].
    simpl. f_equal. lia.
Qed.

Lemma range_spec_witness :
  range 3 6 = [3; 4; 5; 6] /\ range 6 3 = [] /\
  lookup (range 3 6) 2 = Some (3 + 2).
Proof.
  split; [reflexivity|].
  destruct (range_spec 6 3) as (_ & _ & _ & Hempty & _).
  destruct (range_spec 3 6) as (_ & _ & _ & _ & Hnth).
  split; [apply Hempty; lia | apply Hnth; lia].
Defined.

(** ** Rows and extremes *)

(** X6.  [convertTo2D] buckets the cubes by row: it returns GRID_HEIGHT
    rows, row y (0 <= y < GRID_HEIGHT) holds the cubes with that y in their
    order, no row exists outside that range, and a cube is in some row
    exactly when it is in the input with 0 <= y < GRID_HEIGHT (cubes above
    the top or below the floor are dropped). *)
Theorem convertTo2D_rows_spec (cubes : Cubes) :
  length (convertTo2D cubes) = Z.to_nat GRID_HEIGHT /\
  (forall y, 0 <= y < GRID_HEIGHT ->
             lookup (convertTo2D cubes) y = Some (rowCells cubes y)) /\
  (forall y, y < 0 \/ GRID_HEIGHT <= y -> lookup (convertTo2D cubes) y = None) /\
  (forall cube, In cube (concat (convertTo2D cubes)) <->
                In cube cubes /\ 0 <= cube_y cube < GRID_HEIGHT).
Proof.
  rewrite convertTo2D_rows. split; [|split; [|split]].
  - rewrite length_map, length_seq. reflexivity.
  - intros y Hy. unfold lookup. destruct (Z.ltb_spec y 0); [lia|].
    rewrite nth_error_map, nth_error_seq.
    destruct (Nat.ltb_spec (Z.to_nat y) (Z.to_nat GRID_HEIGHT));
      [|unfold GRID_HEIGHT in *; lia].
    simpl. f_equal. f_equal. lia.
  - intros y Hy. unfold lookup. destruct (Z.ltb_spec y 0); [reflexivity|].
    apply nth_error_None. rewrite length_map, length_seq.
    unfold GRID_HEIGHT in *. lia.
  - intros cube. rewrite in_concat. split.
    + intros (row & Hrow & Hin). apply in_map_iff in Hrow.
      destruct Hrow as (i & <- & Hi). apply in_seq in Hi.
      apply filter_In in Hin. destruct Hin as [Hin Hy].
      apply Z.eqb_eq in Hy. split; [exact Hin|].
      unfold GRID_HEIGHT in *. lia.
    + intros [Hin Hy]. exists (rowCells cubes (cube_y cube)). split.
      * apply in_map_iff. exists (Z.to_nat (cube_y cube)). split.
        -- f_equal. lia.
        -- apply in_seq. unfold GRID_HEIGHT in *. lia.
      * apply filter_In. split; [exact Hin | apply Z.eqb_refl].
Qed.

Lemma convertTo2D_rows_spec_witness :
  map coords (rowCells twoFullRows 18) = [(2, 18); (3, 18)] /\
  lookup (convertTo2D twoFullRows) 18 = Some (rowCells twoFullRows 18) /\
  lookup (convertTo2D twoFullRows) 20 = None.
Proof.
  split; [reflexivity|].
  destruct (convertTo2D_rows_spec twoFullRows) as (_ & Hrow & Hout & _).
  split; [apply Hrow; unfold GRID_HEIGHT; lia|].
  apply Hout. right. unfold GRID_HEIGHT. lia.
Defined.

Lemma fold_min_le (l : list Z) (a : Z) :
  fold_left Z.min l a <= a /\
  (forall v, In v l -> fold_left Z.min l a <= v) /\
  (fold_left Z.min l a = a \/ In (fold_left Z.min l a) l).
Proof.
  revert a. induction l as [|h l IH]; intros a; simpl.
  - split; [lia|]. split; [tauto | auto].
  - destruct (IH (Z.min a h)) as (H1 & H2 & H3).
    split; [lia|]. split.
    + intros v [<-|Hv]; [lia | auto].
    + destruct H3 as [H3|H3]; [|auto].
      rewrite H3. destruct (Z.min_spec a h) as [[_ ->]|[_ ->]]; auto.
Qed.

Lemma fold_max_ge (l : list Z) (a : Z) :
  a <= fold_left Z.max l a /\
  (forall v, In v l -> v <= fold_left Z.max l a) /\
  (fold_left Z.max l a = a \/ In (fold_left Z.max l a) l).
Proof.
  revert a. induction l as [|h l IH]; intros a; simpl.
  - split; [lia|]. split; [tauto | auto].
  - destruct (IH (Z.max a h)) as (H1 & H2 & H3).
    split; [lia|]. split.
    + intros v [<-|Hv]; [lia | auto].
    + destruct H3 as [H3|H3]; [|auto].
      rewrite H3. destruct (Z.max_spec a h) as [[_ ->]|[_ ->]]; auto.
Qed.

(** X7.  [findMinMaxNum] over the x of the cubes, from the accumulators
    GRID_WIDTH and -1 the callers pass: the minimum is at most GRID_WIDTH
    and the maximum at least -1 (these sentinels are returned for no
    cubes), every cube lies between the two, and a result other than the
    sentinel is the x of some cube.  So the true extremes are returned
    exactly when some cube has x < GRID_WIDTH, resp. x > -1. *)
Theorem minMaxX_bounds (cubes : Cubes) :
  let '(minX, maxX) := minMaxX cubes in
  minX <= GRID_WIDTH /\ -1 <= maxX /\
  (cubes = [] -> minX = GRID_WIDTH /\ maxX = -1) /\
  (forall cube, In cube cubes -> minX <= cube_x cube <= maxX) /\
  (minX < GRID_WIDTH -> exists cube, In cube cubes /\ cube_x cube = minX) /\
  (-1 < maxX -> exists cube, In cube cubes /\ cube_x cube = maxX).
Proof.
  unfold minMaxX. rewrite minMax_fold.
  destruct (fold_min_le (map cube_x cubes) GRID_WIDTH) as (L1 & L2 & L3).
  destruct (fold_max_ge (map cube_x cubes) (-1)) as (R1 & R2 & R3).
  split; [exact L1|]. split; [exact R1|].
  split; [intros ->; split; reflexivity|].
  split; [|split].
  - intros cube Hin. split; [apply L2 | apply R2]; apply in_map; exact Hin.
  - intros Hlt. destruct L3 as [L3|L3]; [lia|].
    apply in_map_iff in L3. destruct L3 as (cube & E & Hin). eauto.
  - intros Hlt. destruct R3 as [R3|R3]; [lia|].
    apply in_map_iff in R3. destruct R3 as (cube & E & Hin). eauto.
Qed.

Lemma minMaxX_bounds_witness :
  minMaxX (currentCubes playingState) = (3, 5) /\
  exists cube, In cube (currentCubes playingState) /\ cube_x cube = 3.
Proof.
  split; [reflexivity|].
  pose proof (minMaxX_bounds (currentCubes playingState)) as H.
  change (minMaxX (currentCubes playingState)) with (3, 5) in H.
  destruct H as (_ & _ & _ & _ & Hmin & _).
  apply Hmin. unfold GRID_WIDTH. lia.
Defined.

(** ** Translations and moves *)

Lemma generateNewCubes_add (cubes : Cubes) (dx dy dx' dy' : Z)
  (id id' : bool) :
  (id' = true \/ id = false) ->
  generateNewCubes (generateNewCubes cubes dx dy id) dx' dy' id'
  = generateNewCubes cubes (dx + dx') (dy + dy') id'.
Proof.
  intros Hid. unfold generateNewCubes. rewrite map_map. apply map_ext.
  intros cube. simpl. rewrite !Z.add_assoc.
  destruct Hid as [E|E]; rewrite E; [reflexivity|].
  destruct id'; reflexivity.
Qed.

Lemma generateNewCubes_0 (cubes : Cubes) :
  generateNewCubes cubes 0 0 false = cubes.
Proof.
  unfold generateNewCubes. rewrite <- (map_id cubes) at 2. apply map_ext.
  intros [x y colour id']. simpl. rewrite !Z.add_0_r. reflexivity.
Qed.

(** X8.  [generateNewCubes] composes: translating twice is translating by
    the sum of the offsets (with coordinate ids whenever the second call
    asks for them, and with the ids kept when neither does), translating by
    (0, 0) without new ids is the identity, and a translation keeps the
    number of cubes and their colours. *)
Theorem generateNewCubes_compose (cubes : Cubes) (dx dy dx' dy' : Z)
  (id : bool) :
  generateNewCubes (generateNewCubes cubes dx dy id) dx' dy' true
  = generateNewCubes cubes (dx + dx') (dy + dy') true /\
  generateNewCubes (generateNewCubes cubes dx dy false) dx' dy' false
  = generateNewCubes cubes (dx + dx') (dy + dy') false /\
  generateNewCubes cubes 0 0 false = cubes /\
  length (generateNewCubes cubes dx dy id) = length cubes /\
  map cube_colour (generateNewCubes cubes dx dy id) = map cube_colour cubes.
Proof.
  split; [apply generateNewCubes_add; auto|].
  split; [apply generateNewCubes_add; auto|].
  split; [apply generateNewCubes_0|].
  unfold generateNewCubes. split; [apply length_map|].
  rewrite map_map. reflexivity.
Qed.

Lemma isCollide_withPiece (s : State) (cubes : Cubes) :
  isCollide (withPiece s cubes) = isCollide (withCurrentCubes s cubes).
Proof. reflexivity. Qed.

Lemma isValid_withPiece (s : State) (cubes : Cubes) :
  isValid (withPiece s cubes) = isValid (withCurrentCubes s cubes).
Proof. reflexivity. Qed.

Lemma isValid_same_piece (s : State) :
  isValid (withCurrentCubes s (currentCubes s)) = isValid s.
Proof. reflexivity. Qed.

Lemma isCollide_same_piece (s : State) :
  isCollide (withCurrentCubes s (currentCubes s)) = isCollide s.
Proof. reflexivity. Qed.

Lemma isValid_parts (s : State) :
  isValid s = true <->
  isCollide s = false /\ isOutOfBound s = false /\ gameEnd s = false.
Proof.
  unfold isValid. rewrite !andb_true_iff, !negb_true_iff. tauto.
Qed.

Lemma move_keeps_valid (s : State) (dx dy : Z) :
  isValid s = true ->
  let moved := generateNewCubes (currentCubes s) dx dy false in
  isValid
    (withPiece s
       (if isValid (withCurrentCubes s moved) then moved else currentCubes s))
  = true.
Proof.
  intros H moved. rewrite isValid_withPiece.
  destruct (isValid (withCurrentCubes s moved)) eqn:E; [exact E|].
  rewrite isValid_same_piece. exact H.
Qed.

Lemma Rotate_no_collision (s : State) :
  isCollide s = false -> isCollide (Rotate_apply s) = false.
Proof.
  intros H. unfold Rotate_apply.
  destruct (currentCubes s) as [|pivot rest] eqn:Ecur; [exact H|].
  destruct (Colour_eqb _ _); [exact H|].
  cbv zeta. set (adjusted := generateNewCubes _ _ 0 false).
  destruct (isCollide (withCurrentCubes s adjusted)) eqn:E;
    rewrite isCollide_withPiece.
  - rewrite <- Ecur, isCollide_same_piece. exact H.
  - exact E.
Qed.

(** X9.  A valid placement stays valid: from a state whose piece is valid
    ([isValid]: no collision, inside the walls, game on), MoveLeft,
    MoveRight and MoveDown return a state whose piece is valid, and Rotate
    returns a state whose piece collides with nothing and whose game is
    on. *)
Theorem piece_stays_valid (s : State) :
  isValid s = true ->
  isValid (MoveLeft_apply s) = true /\ isValid (MoveRight_apply s) = true /\
  isValid (MoveDown_apply s) = true /\
  isCollide (Rotate_apply s) = false /\ gameEnd (Rotate_apply s) = false.
Proof.
  intros H.
  split; [apply move_keeps_valid; exact H|].
  split; [apply move_keeps_valid; exact H|].
  split; [apply move_keeps_valid; exact H|].
  apply isValid_parts in H. destruct H as (Hc & _ & He).
  split; [apply Rotate_no_collision, Hc|].
  destruct (Rotate_frame s) as (_ & _ & _ & _ & ->). exact He.
Qed.

Lemma piece_stays_valid_witness :
  isValid playingState = true /\
  isValid (MoveDown_apply playingState) = true /\
  isCollide (Rotate_apply playingState) = false.
Proof.
  split; [reflexivity|].
  destruct (piece_stays_valid playingState eq_refl)
    as (_ & _ & Hdown & Hturn & _).
  split; [exact Hdown | exact Hturn].
Defined.

(** X10.  MoveLeft and MoveRight undo each other: from a valid state, when
    the piece can move left, MoveRight after MoveLeft puts every cube of
    the piece back (coordinates, colours and ids); and likewise MoveLeft
    after MoveRight when the piece can move right. *)
Theorem MoveLeft_MoveRight_round_trip (s : State) :
  isValid s = true ->
  (isValid (withCurrentCubes s (generateNewCubes (currentCubes s) (-1) 0 false))
   = true ->
   currentCubes (MoveRight_apply (MoveLeft_apply s)) = currentCubes s) /\
  (isValid (withCurrentCubes s (generateNewCubes (currentCubes s) 1 0 false))
   = true ->
   currentCubes (MoveLeft_apply (MoveRight_apply s)) = currentCubes s).
Proof.
  intros Hs.
  assert (Hback : forall dx,
    generateNewCubes (generateNewCubes (currentCubes s) dx 0 false) (- dx) 0
      false = currentCubes s).
  { intros dx. rewrite generateNewCubes_add by auto.
    replace (dx + - dx) with 0 by lia. apply generateNewCubes_0. }
  split; intros Hmove.
  - unfold MoveLeft_apply. cbv zeta. rewrite Hmove.
    unfold MoveRight_apply. cbv zeta. simpl currentCubes.
    change 1 with (- (-1)). rewrite Hback.
    change (withCurrentCubes (withPiece s _) (currentCubes s))
      with (withPiece s (currentCubes s)).
    rewrite isValid_withPiece, isValid_same_piece, Hs. reflexivity.
  - unfold MoveRight_apply. cbv zeta. rewrite Hmove.
    unfold MoveLeft_apply. cbv zeta. simpl currentCubes.
    rewrite Hback.
    change (withCurrentCubes (withPiece s _) (currentCubes s))
      with (withPiece s (currentCubes s)).
    rewrite isValid_withPiece, isValid_same_piece, Hs. reflexivity.
Qed.

Lemma MoveLeft_MoveRight_round_trip_witness :
  currentCubes (MoveLeft_apply playingState) <> currentCubes playingState /\
  currentCubes (MoveRight_apply (MoveLeft_apply playingState))
  = currentCubes playingState /\
  currentCubes (MoveLeft_apply (MoveRight_apply playingState))
  = currentCubes playingState.
Proof.
  split; [discriminate|].
  destruct (MoveLeft_MoveRight_round_trip playingState eq_refl)
    as [Hleft Hright].
  split; [exact (Hleft eq_refl) | exact (Hright eq_refl)].
Defined.

(** ** Quarter turns *)

(** X11.  [calculateRotation] is a quarter turn about the pivot: it fixes
    the pivot, four turns are the identity, two turns are the point
    reflection in the pivot, and a turn keeps the squared distance to the
    pivot. *)
Theorem calculateRotation_quarter_turn (pivot pos : Z * Z) :
  let turn := calculateRotation pivot in
  turn pivot = pivot /\
  turn (turn (turn (turn pos))) = pos /\
  turn (turn pos)
  = (2 * fst pivot - fst pos, 2 * snd pivot - snd pos) /\
  (fst (turn pos) - fst pivot) ^ 2 + (snd (turn pos) - snd pivot) ^ 2
  = (fst pos - fst pivot) ^ 2 + (snd pos - snd pivot) ^ 2.
Proof.
  destruct pivot as [px py], pos as [x y]. cbv zeta.
  unfold calculateRotation. cbn [fst snd].
  split; [f_equal; ring|]. split; [f_equal; ring|].
  split; [f_equal; ring | ring].
Qed.

Lemma Rotate_piece_maps (s : State) :
  map cube_colour (currentCubes (Rotate_apply s))
  = map cube_colour (currentCubes s) /\
  map cube_id (currentCubes (Rotate_apply s)) = map cube_id (currentCubes s).
Proof.
  unfold Rotate_apply.
  destruct (currentCubes s) as [|pivot rest] eqn:Ecur.
  - rewrite Ecur. split; reflexivity.
  - destruct (Colour_eqb _ _); [rewrite Ecur; split; reflexivity|].
    cbv zeta. destruct (isCollide _); cbn [currentCubes withPiece];
      [split; reflexivity|].
    unfold generateNewCubes. rewrite !map_map. split; reflexivity.
Qed.

(** X12.  Rotate keeps the cubes of the piece: their number, their
    colours and their ids, in order; and cube 0, the pivot, stays where it
    is whenever the turned piece needs no wall kick. *)
Theorem Rotate_keeps_cubes (s : State) :
  map cube_colour (currentCubes (Rotate_apply s))
  = map cube_colour (currentCubes s) /\
  map cube_id (currentCubes (Rotate_apply s)) = map cube_id (currentCubes s) /\
  (forall pivot rest, currentCubes s = pivot :: rest ->
     wallKick (map (rotatedAbout pivot) (currentCubes s)) = 0 ->
     exists rest', currentCubes (Rotate_apply s) = pivot :: rest').
Proof.
  destruct (Rotate_piece_maps s) as [Hcol Hid].
  split; [exact Hcol|]. split; [exact Hid|].
  unfold Rotate_apply.
  destruct (currentCubes s) as [|pivot rest] eqn:Ecur.
  - intros p r Hnil. discriminate Hnil.
  - destruct (Colour_eqb _ _).
    + rewrite Ecur. intros p r [= <- <-] _. eauto.
    + cbv zeta. rewrite rotation_map.
      destruct (isCollide _); cbn [currentCubes withPiece].
      * intros p r [= <- <-] _. eauto.
      * intros p r [= <- <-] Hk.
        rewrite Hk, generateNewCubes_shiftedX, shiftedX_0.
        cbn [map]. eexists. f_equal.
        destruct pivot as [px py pc pid]. unfold rotatedAbout. simpl.
        f_equal; lia.
Qed.

Lemma Rotate_keeps_cubes_witness :
  map coords (currentCubes playingState) = [(4, 6); (5, 6); (3, 6); (4, 5)] /\
  map coords (currentCubes (Rotate_apply playingState))
  = [(4, 6); (4, 7); (4, 5); (5, 6)] /\
  exists rest',
    currentCubes (Rotate_apply playingState)
    = mkCube 4 6 purple "c1" :: rest'.
Proof.
  split; [reflexivity|]. split; [reflexivity|].
  destruct (Rotate_keeps_cubes playingState) as (_ & _ & Hpivot).
  exact (Hpivot _ _ eq_refl eq_refl).
Defined.

Lemma leftmost_rightmost (first : Cube) (rest : Cubes) :
  (forall cube, In cube (first :: rest) ->
     leftmostX first rest <= cube_x cube <= rightmostX first rest) /\
  (exists cube, In cube (first :: rest) /\ cube_x cube = leftmostX first rest)
  /\
  (exists cube, In cube (first :: rest) /\ cube_x cube = rightmostX first rest).
Proof.
  unfold leftmostX, rightmostX.
  destruct (fold_min_le (map cube_x rest) (cube_x first)) as (L1 & L2 & L3).
  destruct (fold_max_ge (map cube_x rest) (cube_x first)) as (R1 & R2 & R3).
  split; [|split].
  - intros cube [<-|Hin]; [lia|].
    split; [apply L2 | apply R2]; apply in_map; exact Hin.
  - destruct L3 as [L3|L3].
    + exists first. split; [left; reflexivity | symmetry; exact L3].
    + apply in_map_iff in L3. destruct L3 as (cube & E & Hin).
      exists cube. split; [right; exact Hin | exact E].
  - destruct R3 as [R3|R3].
    + exists first. split; [left; reflexivity | symmetry; exact R3].
    + apply in_map_iff in R3. destruct R3 as (cube & E & Hin).
      exists cube. split; [right; exact Hin | exact E].
Qed.

Lemma kicked_between_walls (cubes : Cubes) :
  (forall c c', In c cubes -> In c' cubes ->
                cube_x c - cube_x c' < GRID_WIDTH) ->
  forall cube, In cube (kicked cubes) -> 0 <= cube_x cube < GRID_WIDTH.
Proof.
  intros Hwide. destruct cubes as [|first rest]; [intros cube []|].
  destruct (leftmost_rightmost first rest)
    as (Hall & (cl & Hcl & El) & (cr & Hcr & Er)).
  pose proof (Hwide cr cl Hcr Hcl) as Hext. rewrite El, Er in Hext.
  unfold kicked. cbv zeta. unfold GRID_WIDTH in *.
  destruct (Z.ltb_spec (leftmostX first rest) 0) as [Hlo|Hlo].
  - intros cube Hin. apply in_map_iff in Hin.
    destruct Hin as (c & <- & Hc). apply Hall in Hc. simpl. lia.
  - destruct (Z.leb_spec 10 (rightmostX first rest)) as [Hhi|Hhi].
    + intros cube Hin. apply in_map_iff in Hin.
      destruct Hin as (c & <- & Hc). apply Hall in Hc. simpl. lia.
    + intros cube Hin. apply Hall in Hin. lia.
Qed.

Lemma Rotate_within_walls (s : State) :
  (forall cube, In cube (currentCubes s) -> 0 <= cube_x cube < GRID_WIDTH) ->
  (forall c c', In c (currentCubes s) -> In c' (currentCubes s) ->
                cube_y c - cube_y c' < GRID_WIDTH) ->
  forall cube, In cube (currentCubes (Rotate_apply s)) ->
               0 <= cube_x cube < GRID_WIDTH.
Proof.
  intros Hin Hhigh. unfold Rotate_apply.
  destruct (currentCubes s) as [|pivot rest] eqn:Ecur.
  - rewrite Ecur. intros cube [].
  - destruct (Colour_eqb _ _); [rewrite Ecur; exact Hin|].
    cbv zeta. rewrite rotation_map, wallKick_kicked.
    destruct (isCollide _); cbn [currentCubes withPiece]; [exact Hin|].
    apply kicked_between_walls.
    intros c c' Hc Hc'. apply in_map_iff in Hc, Hc'.
    destruct Hc as (d & <- & Hd). destruct Hc' as (d' & <- & Hd').
    pose proof (Hhigh d' d Hd' Hd). unfold rotatedAbout. simpl. lia.
Qed.

(** X13.  The wall kick brings every turned piece back between the walls:
    when the piece is between the walls (0 <= x < GRID_WIDTH) and spans
    fewer than GRID_WIDTH rows, every cube of the piece Rotate returns is
    between the walls; and when the state is moreover valid, so is the
    state Rotate returns. *)
Theorem Rotate_stays_between_walls (s : State) :
  (forall cube, In cube (currentCubes s) -> 0 <= cube_x cube < GRID_WIDTH) ->
  (forall c c', In c (currentCubes s) -> In c' (currentCubes s) ->
                cube_y c - cube_y c' < GRID_WIDTH) ->
  (forall cube, In cube (currentCubes (Rotate_apply s)) ->
                0 <= cube_x cube < GRID_WIDTH) /\
  (isValid s = true -> isValid (Rotate_apply s) = true).
Proof.
  intros Hin Hhigh.
  pose proof (Rotate_within_walls s Hin Hhigh) as Hwalls.
  split; [exact Hwalls|]. intros Hvalid.
  apply isValid_parts in Hvalid. destruct Hvalid as (Hc & _ & He).
  apply Rotate_no_collision in Hc.
  apply isValid_parts. split; [exact Hc|]. split.
  - apply not_true_iff_false. intros Hout.
    apply isOutOfBound_iff in Hout. destruct Hout as (cube & Hcube & Hout).
    pose proof (Hwalls cube Hcube) as Hx.
    destruct Hout as [Hout|[Hout|Hout]]; [lia | lia |].
    apply not_true_iff_false in Hc. apply Hc.
    apply isCollide_iff. exists cube. split; [exact Hcube | right; exact Hout].
  - destruct (Rotate_frame s) as (_ & _ & _ & _ & ->). exact He.
Qed.

Lemma Rotate_stays_between_walls_witness :
  map coords (currentCubes wallState) = [(0, 5); (0, 4); (0, 6); (0, 7)] /\
  map coords (currentCubes (Rotate_apply wallState))
  = [(2, 5); (3, 5); (1, 5); (0, 5)] /\
  isValid wallState = true /\ isValid (Rotate_apply wallState) = true.
Proof.
  split; [reflexivity|]. split; [reflexivity|]. split; [reflexivity|].
  refine (proj2 (Rotate_stays_between_walls wallState _ _) eq_refl).
  - intros cube Hin. simpl in Hin.
    repeat (destruct Hin as [<-|Hin]; [simpl; unfold GRID_WIDTH; lia|]).
    contradiction.
  - intros c c' Hc Hc'. simpl in Hc, Hc'.
    repeat (destruct Hc as [<-|Hc];
            [repeat (destruct Hc' as [<-|Hc'];
                     [simpl; unfold GRID_WIDTH; lia|]); contradiction|]).
    contradiction.
Defined.

(** ** Ticks *)

Section Ticks.

Variable calculateDropTick : Z -> Z.

Lemma Tick_counts (s : State) :
  0 <= currentTick s -> currentTick s + 1 < dropTick s ->
  Tick_apply calculateDropTick s = Some (tickedBy 1 s).
Proof.
  intros H0 Hlt. unfold Tick_apply.
  destruct (Z.eqb_spec (currentTick s + 1) (dropTick s)); [lia|].
  destruct (Z.eqb_spec (currentTick s + 1) 0); [lia|]. reflexivity.
Qed.

Lemma Tick_rolls (s : State) :
  currentTick s + 1 = dropTick s ->
  Tick_apply calculateDropTick s
  = GameTick_apply (tickedOver calculateDropTick s).
Proof.
  intros E. unfold Tick_apply. rewrite E, Z.eqb_refl. reflexivity.
Qed.

Lemma tickedBy_tickedBy (j k : Z) (s : State) :
  tickedBy k (tickedBy j s) = tickedBy (j + k) s.
Proof. unfold tickedBy. simpl. rewrite Z.add_assoc. reflexivity. Qed.

Lemma ticks_count (k : nat) (s : State) :
  0 <= currentTick s -> currentTick s + Z.of_nat (S k) < dropTick s ->
  run calculateDropTick s (repeat Tick (S k))
  = Some (tickedBy (Z.of_nat (S k)) s).
Proof.
  revert s. induction k as [|k IH]; intros s H0 Hlt.
  - simpl. unfold reduceState. simpl. rewrite Tick_counts by lia. reflexivity.
  - change (repeat Tick (S (S k))) with (Tick :: repeat Tick (S k)).
    cbn [run]. unfold reduceState. cbn [apply].
    rewrite Tick_counts by lia. cbn [bind].
    rewrite IH by (simpl; lia).
    rewrite tickedBy_tickedBy. f_equal. f_equal. lia.
Qed.

Lemma run_app (s s1 : State) (l1 l2 : list Action) :
  run calculateDropTick s l1 = Some s1 ->
  run calculateDropTick s (l1 ++ l2) = run calculateDropTick s1 l2.
Proof.
  revert s. induction l1 as [|a l1 IH]; intros s H; simpl in *.
  - injection H as <-. reflexivity.
  - unfold bind in *.
    destruct (reduceState calculateDropTick s a); [|discriminate].
    apply IH. exact H.
Qed.

(** X14.  The piece drops every [dropTick] ticks: from a state whose tick
    count is k + 1 ticks short of its drop tick, each of the first k Ticks
    only adds one to [currentTick] (and clears the render hint), and the
    Tick after them is the [GameTick] of the state with [currentTick] back
    at 0 and [dropTick] recomputed from the level. *)
Theorem drop_every_dropTick_ticks (s : State) (k : nat) :
  0 <= currentTick s ->
  currentTick s + Z.of_nat k + 1 = dropTick s ->
  (forall j, (0 < j <= k)%nat ->
     run calculateDropTick s (repeat Tick j)
     = Some (tickedBy (Z.of_nat j) s)) /\
  run calculateDropTick s (repeat Tick (S k))
  = GameTick_apply (tickedOver calculateDropTick s).
Proof.
  intros H0 E. split.
  - intros j Hj. destruct j as [|j]; [lia|]. apply ticks_count; lia.
  - replace (S k) with (k + 1)%nat by lia. rewrite repeat_app.
    destruct k as [|k].
    + simpl. unfold reduceState. simpl.
      rewrite Tick_rolls by lia.
      destruct (GameTick_apply _); reflexivity.
    + rewrite (run_app _ _ _ _ (ticks_count k s H0 ltac:(lia))).
      simpl. unfold reduceState. simpl.
      rewrite Tick_rolls by (simpl; lia).
      replace (tickedOver calculateDropTick (tickedBy _ s))
        with (tickedOver calculateDropTick s) by reflexivity.
      destruct (GameTick_apply _); reflexivity.
Qed.

End Ticks.

Lemma drop_every_dropTick_ticks_witness :
  currentTick playingState = 7 /\ dropTick playingState = 50 /\
  run tabulatedDropTick playingState (repeat Tick 42)
  = Some (tickedBy 42 playingState) /\
  run tabulatedDropTick playingState (repeat Tick 43)
  = GameTick_apply (tickedOver tabulatedDropTick playingState).
Proof.
  split; [reflexivity|]. split; [reflexivity|].
  destruct (drop_every_dropTick_ticks tabulatedDropTick playingState 42)
    as [Hcount Hdrop]; [simpl; lia | reflexivity |].
  split; [exact (Hcount 42%nat ltac:(lia)) | exact Hdrop].
Defined.

(** ** Landing and spawning *)

Lemma spawn_cells (index : Z) (create : string -> Cubes) (group : string) :
  generateTetromino index MAIN_GRID_X MAIN_GRID_Y = Some create ->
  Forall (fun cube => 3 <= cube_x cube <= 6 /\ -2 <= cube_y cube <= -1)
    (create group).
Proof.
  intros H. apply tetromino_cases in H.
  repeat destruct H as [->|H]; try subst create; simpl;
    repeat (constructor; [simpl; unfold MAIN_GRID_X, MAIN_GRID_Y; lia|]);
    constructor.
Qed.

Lemma spawnedCubes_facts (s : State) (cubes : Cubes) :
  spawnedCubes s = Some cubes ->
  exists colour,
    previewColour s = Some colour /\
    map cube_colour cubes = [colour; colour; colour; colour] /\
    map cube_id cubes = ["c1"; "c2"; "c3"; "c4"]%string /\
    Forall (fun cube => 3 <= cube_x cube <= 6 /\ -2 <= cube_y cube <= -1)
      cubes.
Proof.
  unfold spawnedCubes, bind.
  destruct (previewColour s) as [colour|]; [|discriminate].
  destruct (generateTetromino _ _ _) as [create|] eqn:E; [|discriminate].
  intros [= <-]. exists colour. split; [reflexivity|].
  destruct (tetromino_uniform _ _ _ create "c"%string E)
    as (colour' & Hc & Hcol & Hid).
  assert (colour' = colour).
  { destruct colour, colour'; vm_compute in Hc; congruence. }
  subst colour'. split; [exact Hcol|]. split; [exact Hid|].
  apply (spawn_cells _ _ _ E).
Qed.

Lemma nextPreview_facts (s : State) (cubes : Cubes) :
  nextPreview s = Some cubes ->
  exists colour,
    findIndexByColour colour = RNG.scale (rng s) /\
    map cube_colour cubes = [colour; colour; colour; colour] /\
    map cube_id cubes = ["p1"; "p2"; "p3"; "p4"]%string.
Proof.
  unfold nextPreview, bind.
  destruct (generateTetromino _ _ _) as [create|] eqn:E; [|discriminate].
  intros [= <-].
  destruct (tetromino_uniform _ _ _ create "p"%string E)
    as (colour & Hc & Hcol & Hid).
  exists colour. rewrite scale_idempotent in Hc. auto.
Qed.

Lemma shouldUpdateGrid_iff (s : State) :
  let moved := generateNewCubes (currentCubes s) 0 1 false in
  shouldUpdateGrid (withCurrentCubes s moved) = true <->
  gameEnd s = false /\
  (currentCubes s = [] \/ colliding moved (mainGridCubes s)).
Proof.
  intros moved. unfold shouldUpdateGrid.
  cbn [currentCubes gameEnd withCurrentCubes].
  rewrite andb_true_iff, orb_true_iff, negb_true_iff.
  rewrite (isCollide_iff (withCurrentCubes s moved)).
  cbn [currentCubes mainGridCubes withCurrentCubes].
  unfold moved at 2, generateNewCubes. rewrite length_map.
  rewrite Nat.eqb_eq, length_zero_iff_nil. tauto.
Qed.

(** X15.  A GameTick either lets the piece fall or lands it.  It always
    adds one to [gameTick] and remembers the settled grid; it sets the
    render hint exactly when the game is on and the piece is empty or
    would collide one row down.  With the hint clear the piece is one row
    down and preview, seed and hold flag are untouched; with the hint set
    the piece has been merged where it stood, under coordinate ids, and
    the full rows of the merged grid are cleared. *)
Theorem GameTick_falls_or_lands (s s' : State) :
  GameTick_apply s = Some s' ->
  let moved := generateNewCubes (currentCubes s) 0 1 false in
  gameTick s' = gameTick s + 1 /\
  previousMainGridCubes s' = mainGridCubes s /\
  (updateGrid s' = true <->
   gameEnd s = false /\
   (currentCubes s = [] \/ colliding moved (mainGridCubes s))) /\
  (updateGrid s' = false ->
   currentCubes s' = moved /\
   previewGridCubes s' = previewGridCubes s /\ rng s' = rng s /\
   holdOnCooldown s' = holdOnCooldown s) /\
  (updateGrid s' = true ->
   mainGridCubes s'
   = finalMainGridCubesOf
       (mainGridCubes s ++ generateNewCubes (currentCubes s) 0 0 true)).
Proof.
  intros H moved.
  pose proof (shouldUpdateGrid_iff s) as Hshould. cbv zeta in Hshould.
  fold moved in Hshould.
  unfold GameTick_apply, bind in H. fold moved in H.
  destruct (shouldUpdateGrid (withCurrentCubes s moved)) eqn:E.
  - destruct (spawnedCubes s) as [cur'|] eqn:E1; [|discriminate].
    destruct (nextPreview s) as [pre'|] eqn:E2; [|discriminate].
    injection H as <-.
    cbn [updateGrid currentCubes previewGridCubes rng gameTick
           previousMainGridCubes holdOnCooldown mainGridCubes].
    split; [reflexivity|]. split; [reflexivity|].
    split; [tauto|]. split; [discriminate|]. intros _.
    destruct (proj1 Hshould eq_refl) as [Hend Hcase]. rewrite Hend.
    unfold finalMainGridCubesOf, linesToClearOf.
    destruct (isCollide (withCurrentCubes s moved)) eqn:Ecol;
      [reflexivity|].
    destruct Hcase as [Hnil|Hcol].
    + rewrite Hnil. simpl. rewrite app_nil_r. reflexivity.
    + apply (isCollide_iff (withCurrentCubes s moved)) in Hcol. congruence.
  - injection H as <-.
    cbn [updateGrid currentCubes previewGridCubes rng gameTick
           previousMainGridCubes holdOnCooldown mainGridCubes].
    split; [reflexivity|]. split; [reflexivity|]. split.
    + split; [discriminate|]. intros Hc. apply Hshould in Hc. discriminate.
    + split; [|discriminate]. intros _. repeat split.
Qed.

Lemma GameTick_falls_or_lands_witness :
  exists s',
    GameTick_apply playingState = Some s' /\
    gameTick s' = gameTick playingState + 1 /\
    updateGrid s' = false /\
    currentCubes s'
    = generateNewCubes (currentCubes playingState) 0 1 false.
Proof.
  eexists. split; [reflexivity|].
  destruct (GameTick_falls_or_lands playingState _ eq_refl)
    as (Htick & _ & _ & Hfall & _).
  split; [exact Htick|]. split; [reflexivity|].
  exact (proj1 (Hfall eq_refl)).
Defined.

(** X16.  What a landing spawns: after a HardDrop, or a GameTick that set
    the render hint, the new piece has the colour of the old preview's
    first cube, the ids c1 .. c4 and its cells in the spawn area (columns 3
    to 6, rows -2 and -1); the new preview has the colour whose index is
    the old seed scaled, and the ids p1 .. p4; the seed has been hashed
    once, the render hint is set and the hold flag cleared. *)
Theorem spawn_matches_preview (s s' : State) :
  HardDrop_apply s = Some s' \/
  (GameTick_apply s = Some s' /\ updateGrid s' = true) ->
  exists colour next,
    previewColour s = Some colour /\
    map cube_colour (currentCubes s') = [colour; colour; colour; colour] /\
    map cube_id (currentCubes s') = ["c1"; "c2"; "c3"; "c4"]%string /\
    Forall (fun cube => 3 <= cube_x cube <= 6 /\ -2 <= cube_y cube <= -1)
      (currentCubes s') /\
    findIndexByColour next = RNG.scale (rng s) /\
    map cube_colour (previewGridCubes s') = [next; next; next; next] /\
    map cube_id (previewGridCubes s') = ["p1"; "p2"; "p3"; "p4"]%string /\
    rng s' = RNG.hash (rng s) /\
    updateGrid s' = true /\ holdOnCooldown s' = false.
Proof.
  intros H.
  assert (Hs : spawnedCubes s = Some (currentCubes s') /\
               nextPreview s = Some (previewGridCubes s') /\
               rng s' = RNG.hash (rng s) /\
               updateGrid s' = true /\ holdOnCooldown s' = false).
  { destruct H as [H|[H Hu]].
    - unfold HardDrop_apply, bind in H.
      destruct (spawnedCubes s) as [cur'|]; [|discriminate].
      destruct (nextPreview s) as [pre'|]; [|discriminate].
      injection H as <-. repeat split.
    - unfold GameTick_apply, bind in H.
      destruct (shouldUpdateGrid _) eqn:E.
      + destruct (spawnedCubes s) as [cur'|]; [|discriminate].
        destruct (nextPreview s) as [pre'|]; [|discriminate].
        injection H as <-. repeat split.
      + injection H as <-. simpl in Hu. congruence. }
  destruct Hs as (Hcur & Hpre & Hrng & Hu & Hh).
  destruct (spawnedCubes_facts s _ Hcur) as (colour & Hc & Hcol & Hid & Hcell).
  destruct (nextPreview_facts s _ Hpre) as (next & Hn & Hncol & Hnid).
  exists colour, next. repeat split; assumption.
Qed.

Lemma spawn_matches_preview_witness :
  exists s',
    HardDrop_apply playingState = Some s' /\
    map cube_colour (previewGridCubes playingState)
    = [cyan; cyan; cyan; cyan] /\
    map cube_colour (currentCubes s') = [cyan; cyan; cyan; cyan] /\
    exists colour next,
      previewColour playingState = Some colour /\
      map cube_colour (currentCubes s') = [colour; colour; colour; colour] /\
      map cube_id (currentCubes s') = ["c1"; "c2"; "c3"; "c4"]%string /\
      Forall (fun cube => 3 <= cube_x cube <= 6 /\ -2 <= cube_y cube <= -1)
        (currentCubes s') /\
      findIndexByColour next = RNG.scale (rng playingState) /\
      map cube_colour (previewGridCubes s') = [next; next; next; next] /\
      map cube_id (previewGridCubes s') = ["p1"; "p2"; "p3"; "p4"]%string /\
      rng s' = RNG.hash (rng playingState) /\
      updateGrid s' = true /\ holdOnCooldown s' = false.
Proof.
  eexists. split; [reflexivity|].
  split; [reflexivity|]. split; [reflexivity|].
  apply (spawn_matches_preview playingState). left. reflexivity.
Defined.

Lemma hardDropDistance_empty (s : State) :
  currentCubes s = [] -> hardDropDistance s = GRID_HEIGHT.
Proof. intros H. unfold hardDropDistance. rewrite H. reflexivity. Qed.

(** X17.  With no piece in play (the state a game starts in, and the state
    after Reset) and the game on, HardDrop and GameTick do the same thing:
    the state GameTick returns is the one HardDrop returns with [gameTick]
    advanced by one.  Both clear the full rows of the settled grid, score
    them, and spawn the first piece. *)
Theorem empty_piece_landing (s s2 : State) :
  currentCubes s = [] -> gameEnd s = false ->
  HardDrop_apply s = Some s2 ->
  GameTick_apply s = Some (withNextGameTick s2) /\
  mainGridCubes s2 = finalMainGridCubesOf (mainGridCubes s) /\
  score s2
  = score s + 100 * Z.of_nat (length (linesToClearOf (mainGridCubes s))).
Proof.
  intros Hnil Hend H.
  unfold HardDrop_apply, bind in H.
  rewrite (hardDropDistance_empty s Hnil), Hnil in H.
  cbn [generateNewCubes map] in H. rewrite app_nil_r in H.
  unfold GameTick_apply, bind.
  rewrite Hnil. cbn [generateNewCubes map].
  replace (shouldUpdateGrid (withCurrentCubes s [])) with true
    by (unfold shouldUpdateGrid, isCollide; simpl; rewrite Hend; reflexivity).
  replace (isCollide (withCurrentCubes s [])) with false by reflexivity.
  destruct (spawnedCubes s) as [cur'|]; [|discriminate].
  destruct (nextPreview s) as [pre'|]; [|discriminate].
  injection H as <-. unfold withNextGameTick.
  cbn [gameTick currentTick dropTick currentCubes mainGridCubes
         previousMainGridCubes previewGridCubes holdOnCooldown updateGrid
         rng level score linesCleared highScore gameEnd].
  rewrite Hend. split; [reflexivity|]. split; [reflexivity|].
  unfold linesToClearOf. lia.
Qed.

Lemma empty_piece_landing_witness :
  exists s2,
    HardDrop_apply noPieceState = Some s2 /\
    GameTick_apply noPieceState = Some (withNextGameTick s2) /\
    map cube_id (currentCubes s2) = ["c1"; "c2"; "c3"; "c4"]%string.
Proof.
  eexists. split; [reflexivity|].
  split; [|reflexivity].
  exact (proj1 (empty_piece_landing noPieceState _ eq_refl eq_refl eq_refl)).
Defined.

(** ** What every state of a game satisfies *)

Lemma coordinateIds_merged (cubes : Cubes) (dx dy : Z) :
  coordinateIds (generateNewCubes cubes dx dy true).
Proof.
  unfold coordinateIds, generateNewCubes. apply Forall_forall.
  intros cube Hin. apply in_map_iff in Hin. destruct Hin as (c & <- & _).
  reflexivity.
Qed.

Lemma coordinateIds_clearLines (cubes : Cubes) (line : Z) :
  coordinateIds cubes -> coordinateIds (clearLines cubes line).
Proof.
  unfold coordinateIds. rewrite !Forall_forall. intros H cube Hin.
  apply clearLines_In in Hin. destruct Hin as (c & Hc & _ & ->).
  destruct (cube_y c <? line); [reflexivity | apply H, Hc].
Qed.

Lemma coordinateIds_fold (lines : list Z) (cubes : Cubes) :
  coordinateIds cubes -> coordinateIds (fold_left clearLines lines cubes).
Proof.
  revert cubes. induction lines as [|line lines IH]; intros cubes H; simpl;
    [exact H|].
  apply IH, coordinateIds_clearLines, H.
Qed.

Lemma coordinateIds_final (cubes : Cubes) :
  coordinateIds cubes -> coordinateIds (finalMainGridCubesOf cubes).
Proof.
  intros H. unfold finalMainGridCubesOf.
  destruct (0 <? length (linesToClearOf cubes))%nat; [|exact H].
  apply coordinateIds_fold, H.
Qed.

Lemma piece_moved (cubes : Cubes) (dx dy : Z) :
  cubes = [] \/
  (oneColour cubes /\ map cube_id cubes = ["c1"; "c2"; "c3"; "c4"]%string) ->
  generateNewCubes cubes dx dy false = [] \/
  (oneColour (generateNewCubes cubes dx dy false) /\
   map cube_id (generateNewCubes cubes dx dy false)
   = ["c1"; "c2"; "c3"; "c4"]%string).
Proof.
  intros [->|[Hc Hi]]; [left; reflexivity|]. right.
  unfold oneColour, generateNewCubes. rewrite !map_map. simpl.
  split; assumption.
Qed.

Lemma landing_invariant (s s' : State) :
  gameInvariant s ->
  GameTick_apply s = Some s' \/ HardDrop_apply s = Some s' ->
  gameInvariant s'.
Proof.
  intros (Hrng & Hpre & Hcur & Hids & Hscore & Hlevel & Hlines & Hgt & Hct) H.
  assert (Hsc : exists n, 0 <= n /\ score s' = score s + n * 100 /\
                  linesCleared s' = linesCleared s + n /\
                  level s' = score s' / MAX_SCORE_PER_LEVEL + 1).
  { destruct H as [H|H];
      [apply GameTick_score in H | apply HardDrop_score in H];
      cbv zeta in H; destruct H as (H1 & H2 & H3 & _);
      eexists; (split; [apply Nat2Z.is_nonneg|]); eauto. }
  destruct Hsc as (n & Hn & Hs' & Hl' & Hv').
  assert (Hfr : 0 <= gameTick s' /\ 0 <= currentTick s' /\
                coordinateIds (mainGridCubes s')).
  { destruct H as [H|H]; invert_landing H;
      cbn [gameTick currentTick mainGridCubes];
      (split; [lia|]); (split; [lia|]);
      (destruct (gameEnd s); [exact Hids|]);
      apply (coordinateIds_final _).
    - destruct (isCollide _); [|exact Hids].
      apply Forall_app. split; [exact Hids | apply coordinateIds_merged].
    - apply Forall_app. split; [exact Hids | apply coordinateIds_merged]. }
  destruct Hfr as (Hgt' & Hct' & Hids').
  assert (Hpieces :
    0 <= rng s' < RNG.m /\
    (oneColour (previewGridCubes s') /\
     map cube_id (previewGridCubes s') = ["p1"; "p2"; "p3"; "p4"]%string) /\
    (currentCubes s' = [] \/
     (oneColour (currentCubes s') /\
      map cube_id (currentCubes s') = ["c1"; "c2"; "c3"; "c4"]%string))).
  { assert (Hcases :
      (spawnedCubes s = Some (currentCubes s') /\
       nextPreview s = Some (previewGridCubes s') /\
       rng s' = RNG.hash (rng s)) \/
      (currentCubes s' = generateNewCubes (currentCubes s) 0 1 false /\
       previewGridCubes s' = previewGridCubes s /\ rng s' = rng s)).
    { destruct H as [H|H].
      - unfold GameTick_apply, bind in H.
        destruct (shouldUpdateGrid _).
        + destruct (spawnedCubes s); [|discriminate].
          destruct (nextPreview s); [|discriminate].
          injection H as <-. left. repeat split.
        + injection H as <-. right. repeat split.
      - unfold HardDrop_apply, bind in H.
        destruct (spawnedCubes s); [|discriminate].
        destruct (nextPreview s); [|discriminate].
        injection H as <-. left. repeat split. }
    destruct Hcases as [(Hc & Hp & Hr)|(Hc & Hp & Hr)].
    - destruct (spawnedCubes_facts s _ Hc) as (c & _ & Hcc & Hci & _).
      destruct (nextPreview_facts s _ Hp) as (nx & _ & Hnc & Hni).
      rewrite Hr. split; [apply hash_range; lia|].
      unfold oneColour. eauto 10.
    - rewrite Hc, Hp, Hr. split; [exact Hrng|]. split; [exact Hpre|].
      apply piece_moved, Hcur. }
  destruct Hpieces as (Hr' & Hp' & Hc').
  unfold gameInvariant. repeat split; try assumption; try lia; try tauto.
Qed.

Lemma Rotate_other_fields (s : State) :
  rng (Rotate_apply s) = rng s /\
  previewGridCubes (Rotate_apply s) = previewGridCubes s /\
  mainGridCubes (Rotate_apply s) = mainGridCubes s /\
  score (Rotate_apply s) = score s /\
  linesCleared (Rotate_apply s) = linesCleared s /\
  level (Rotate_apply s) = level s /\
  gameTick (Rotate_apply s) = gameTick s /\
  currentTick (Rotate_apply s) = currentTick s.
Proof.
  unfold Rotate_apply.
  destruct (currentCubes s) as [|pivot rest]; [repeat split|].
  destruct (Colour_eqb _ _); repeat split.
Qed.

Lemma play_reachable (initialRNG : Z) (actions : list Action) (s : State) :
  0 <= initialRNG <= 2 ^ 31 -> play initialRNG actions = Some s ->
  reachable tabulatedDropTick s.
Proof.
  intros Hr H. unfold play, bind in H.
  destruct (initialState initialRNG) as [s0|] eqn:E0; [|discriminate].
  exists initialRNG, s0, actions. auto.
Qed.

Section Invariant.

Variable calculateDropTick : Z -> Z.

Lemma step_invariant (s s' : State) (a : Action) :
  gameInvariant s -> apply calculateDropTick s a = Some s' ->
  gameInvariant s'.
Proof.
  intros Hinv H.
  pose proof Hinv
    as (Hrng & Hpre & Hcur & Hids & Hscore & Hlevel & Hlines & Hgt & Hct).
  destruct a; simpl in H.
  - unfold Tick_apply in H.
    destruct (_ =? 0) eqn:E0.
    + refine (landing_invariant _ s' _ (or_introl H)).
      unfold gameInvariant. cbn.
      repeat split; try assumption; try tauto.
      destruct (currentTick s + 1 =? dropTick s); lia.
    + injection H as <-. unfold gameInvariant. cbn.
      repeat split; try assumption; try tauto.
      destruct (currentTick s + 1 =? dropTick s); lia.
  - injection H as <-. unfold MoveLeft_apply, gameInvariant. cbn.
    repeat split; try assumption; try tauto.
    destruct (isValid _); [apply piece_moved|]; exact Hcur.
  - injection H as <-. unfold MoveRight_apply, gameInvariant. cbn.
    repeat split; try assumption; try tauto.
    destruct (isValid _); [apply piece_moved|]; exact Hcur.
  - injection H as <-. unfold MoveDown_apply, gameInvariant. cbn.
    repeat split; try assumption; try tauto.
    destruct (isValid _); [apply piece_moved|]; exact Hcur.
  - injection H as <-.
    destruct (Rotate_other_fields s)
      as (Er & Ep & Em & Es & El & Ev & Eg & Ec).
    destruct (Rotate_piece_maps s) as (Ecol & Eid).
    unfold gameInvariant, oneColour.
    rewrite Er, Ep, Em, Es, El, Ev, Eg, Ec, Ecol, Eid.
    repeat split; try assumption; try tauto.
    destruct Hcur as [Hnil|Hfour]; [|right; exact Hfour].
    left. unfold Rotate_apply. rewrite Hnil. exact Hnil.
  - apply (landing_invariant s s' Hinv). right. exact H.
  - injection H as <-. unfold Reset_apply.
    destruct (gameEnd s); [|exact Hinv].
    unfold gameInvariant. cbn.
    repeat split; try assumption; try tauto; try lia.
    constructor.
Qed.

Lemma initial_invariant (initialRNG : Z) (s0 : State) :
  0 <= initialRNG -> initialState initialRNG = Some s0 -> gameInvariant s0.
Proof.
  intros Hr H. unfold initialState, bind in H.
  destruct (generateTetromino _ _ _) as [create|] eqn:E; [|discriminate].
  injection H as <-.
  destruct (tetromino_uniform _ _ _ create "p"%string E)
    as (colour & _ & Hcol & Hid).
  unfold gameInvariant, oneColour. cbn.
  repeat split; try (apply hash_range; exact Hr); try lia; eauto.
  constructor.
Qed.

Lemma reachable_invariant (s : State) :
  reachable calculateDropTick s -> gameInvariant s.
Proof.
  intros (r & s0 & actions & Hr & H0 & Hrun).
  apply (run_invariant calculateDropTick gameInvariant)
    with (actions := actions) (s := s0); [| |exact Hrun].
  - intros s1 a s2. apply step_invariant.
  - apply (initial_invariant r); [lia | exact H0].
Qed.

(** X18.  The counters of every state a game reaches: the seed is a hash
    output, 0 <= rng < 2^31; the score is 100 times the number of lines
    cleared; the level is floor(score / 1000) + 1; and the line count, the
    game tick and the tick count are never negative. *)
Theorem reachable_counters (s : State) :
  reachable calculateDropTick s ->
  0 <= rng s < 2 ^ 31 /\
  score s = 100 * linesCleared s /\
  level s = score s / 1000 + 1 /\
  0 <= linesCleared s /\ 0 <= gameTick s /\ 0 <= currentTick s.
Proof.
  intros H. apply reachable_invariant in H.
  destruct H as (Hrng & _ & _ & _ & Hscore & Hlevel & Hlines & Hgt & Hct).
  repeat split; try assumption; apply Hrng.
Qed.

(** X19.  The cubes of every state a game reaches: the preview piece has
    four cubes of one colour with the ids p1 .. p4; the piece in play is
    absent or has four cubes of one colour with the ids c1 .. c4; and
    every settled cube carries the id of its cell, [coordId x y]. *)
Theorem reachable_cubes (s : State) :
  reachable calculateDropTick s ->
  (exists colour,
     map cube_colour (previewGridCubes s) = [colour; colour; colour; colour])
  /\
  map cube_id (previewGridCubes s) = ["p1"; "p2"; "p3"; "p4"]%string /\
  (currentCubes s = [] \/
   ((exists colour,
       map cube_colour (currentCubes s) = [colour; colour; colour; colour]) /\
    map cube_id (currentCubes s) = ["c1"; "c2"; "c3"; "c4"]%string)) /\
  (forall cube, In cube (mainGridCubes s) ->
     cube_id cube = coordId (cube_x cube) (cube_y cube)).
Proof.
  intros H. apply reachable_invariant in H.
  destruct H as (_ & (Hpc & Hpi) & Hcur & Hids & _).
  split; [exact Hpc|]. split; [exact Hpi|]. split; [exact Hcur|].
  unfold coordinateIds in Hids. rewrite Forall_forall in Hids. exact Hids.
Qed.

Lemma run_total (actions : list Action) (s : State) :
  wellFormed s ->
  exists s', run calculateDropTick s actions = Some s' /\ wellFormed s'.
Proof.
  revert s. induction actions as [|a rest IH]; intros s Hwf; simpl.
  - eauto.
  - unfold reduceState.
    destruct (apply_total calculateDropTick s a Hwf) as [s1 E1].
    rewrite E1. cbn [bind]. apply IH.
    apply (apply_wellFormed calculateDropTick s s1 a Hwf E1).
Qed.

(** X20.  A game never throws: from every non-negative initial seed
    [initialState] returns a state, and every sequence of actions folded
    over it with [reduceState] returns a state, whose preview is not empty
    and whose seed is not negative. *)
Theorem game_never_throws (initialRNG : Z) (actions : list Action) :
  0 <= initialRNG ->
  exists s0 s,
    initialState initialRNG = Some s0 /\
    run calculateDropTick s0 actions = Some s /\
    previewGridCubes s <> [] /\ 0 <= rng s.
Proof.
  intros Hr.
  destruct (generateTetromino_Some initialRNG PREVIEW_GRID_X PREVIEW_GRID_Y Hr)
    as (create & E & _).
  assert (H0 : exists s0, initialState initialRNG = Some s0)
    by (unfold initialState; rewrite E; simpl; eauto).
  destruct H0 as [s0 H0].
  destruct (initialState_facts initialRNG s0 Hr H0) as (Hwf & _).
  destruct (run_total actions s0 Hwf) as (s & Hrun & Hwf').
  exists s0, s. split; [exact H0|]. split; [exact Hrun|]. exact Hwf'.
Qed.

End Invariant.

Lemma reachable_counters_witness :
  exists s,
    play 1 (repeat HardDrop 11) = Some s /\
    0 <= rng s < 2 ^ 31 /\
    score s = 100 * linesCleared s /\
    level s = score s / 1000 + 1 /\
    0 <= linesCleared s /\ 0 <= gameTick s /\ 0 <= currentTick s.
Proof.
  assert (H : exists s, play 1 (repeat HardDrop 11) = Some s)
    by (eexists; vm_compute; reflexivity).
  destruct H as [s E]. exists s. split; [exact E|].
  apply (reachable_counters tabulatedDropTick).
  apply (play_reachable 1 (repeat HardDrop 11)); [lia | exact E].
Defined.

Lemma reachable_cubes_witness :
  exists s,
    play 37 (repeat HardDrop 12) = Some s /\
    map cube_id (previewGridCubes s) = ["p1"; "p2"; "p3"; "p4"]%string /\
    forall cube, In cube (mainGridCubes s) ->
      cube_id cube = coordId (cube_x cube) (cube_y cube).
Proof.
  assert (H : exists s, play 37 (repeat HardDrop 12) = Some s)
    by (eexists; vm_compute; reflexivity).
  destruct H as [s E]. exists s. split; [exact E|].
  destruct (reachable_cubes tabulatedDropTick s) as (_ & Hpre & _ & Hsettled).
  - apply (play_reachable 37 (repeat HardDrop 12)); [lia | exact E].
  - split; [exact Hpre | exact Hsettled].
Defined.

Lemma game_never_throws_witness :
  exists s0 s,
    initialState 37 = Some s0 /\
    run tabulatedDropTick s0 (repeat HardDrop 12) = Some s /\
    previewGridCubes s <> [] /\ 0 <= rng s.
Proof.
  apply (game_never_throws tabulatedDropTick 37 (repeat HardDrop 12)). lia.
Defined.

(** ** Where a hard drop stops *)

Lemma range_lookup (start end_ i : Z) :
  0 <= i <= end_ - start -> lookup (range start end_) i = Some (start + i).
Proof.
  intros Hi. unfold lookup, range.
  destruct (Z.ltb_spec i 0); [lia|].
  rewrite nth_error_map, nth_error_seq.
  destruct (Nat.ltb_spec (Z.to_nat i) (Z.to_nat (end_ - start + 1))); [|lia].
  simpl. f_equal. lia.
Qed.

Lemma range_nth (start end_ : Z) (i : nat) (x : Z) :
  nth_error (range start end_) i = Some x -> x = start + Z.of_nat i.
Proof.
  unfold range. rewrite nth_error_map, nth_error_seq.
  destruct (Nat.ltb_spec i (Z.to_nat (end_ - start + 1))); simpl;
    [|discriminate].
  intros [= <-]. reflexivity.
Qed.

Lemma fold_highest (l : Cubes) (a : Z) :
  let r := fold_left
             (fun acc cube => if cube_y cube >? acc then cube_y cube else acc)
             l a in
  a <= r /\
  (forall cube, In cube l -> cube_y cube <= r) /\
  (r = a \/ exists cube, In cube l /\ cube_y cube = r).
Proof.
  revert a. induction l as [|c l IH]; intros a; simpl.
  - split; [lia|]. split; [tauto | auto].
  - destruct (IH (if cube_y c >? a then cube_y c else a)) as (H1 & H2 & H3).
    destruct (Z.gtb_spec (cube_y c) a) as [Hgt|Hle].
    + split; [lia|]. split.
      * intros cube [<-|Hin]; [lia | auto].
      * right. destruct H3 as [H3|(cube & Hin & E)]; eauto.
    + split; [lia|]. split.
      * intros cube [<-|Hin]; [lia | auto].
      * destruct H3 as [H3|(cube & Hin & E)]; eauto.
Qed.

Lemma fold_lowest (h : Cube -> option Z) (l : Cubes) (a : Z) :
  let r := fold_left
             (fun acc cube =>
                match h cube with
                | Some highest =>
                    if (cube_y cube <? acc) && (cube_y cube >? highest)
                    then cube_y cube
                    else acc
                | None => acc
                end)
             l a in
  r <= a /\
  (forall cube highest, In cube l -> h cube = Some highest ->
     highest < cube_y cube -> r <= cube_y cube) /\
  (r = a \/ exists cube highest, In cube l /\ h cube = Some highest /\
              highest < cube_y cube /\ cube_y cube = r).
Proof.
  revert a. induction l as [|c l IH]; intros a; simpl.
  - split; [lia|]. split; [intros ? ? [] | auto].
  - set (a' := match h c with
               | Some highest =>
                   if (cube_y c <? a) && (cube_y c >? highest)
                   then cube_y c else a
               | None => a
               end).
    destruct (IH a') as (H1 & H2 & H3).
    assert (Ha' : a' <= a /\
                  (forall highest, h c = Some highest ->
                     highest < cube_y c -> a' <= cube_y c) /\
                  (a' = a \/ exists highest, h c = Some highest /\
                     highest < cube_y c /\ cube_y c = a')).
    { unfold a'. destruct (h c) as [highest|].
      - destruct (Z.ltb_spec (cube_y c) a);
          destruct (Z.gtb_spec (cube_y c) highest); simpl.
        + split; [lia|]. split; [intros; lia|]. right. eauto.
        + split; [lia|]. split; [intros ? [= <-]; lia | auto].
        + split; [lia|]. split; [intros; lia | auto].
        + split; [lia|]. split; [intros ? [= <-]; lia | auto].
      - split; [lia|]. split; [discriminate | auto]. }
    destruct Ha' as (A1 & A2 & A3).
    split; [lia|]. split.
    + intros cube highest [<-|Hin] Hh Hlt.
      * pose proof (A2 highest Hh Hlt). lia.
      * apply (H2 cube highest Hin Hh Hlt).
    + destruct H3 as [H3|(cube & highest & Hin & Hh & Hlt & E)].
      * destruct A3 as [A3|(highest & Hh & Hlt & E)].
        -- left. lia.
        -- right. exists c, highest. repeat split; auto. lia.
      * right. exists cube, highest. auto.
Qed.

Lemma reducei_least (highs : list Z) (lows : list Z) (n : nat) (init : Z) :
  let r := reducei_from
             (fun acc y index =>
                match nth_error highs index with
                | Some highest =>
                    let newY := y - highest - 1 in
                    if newY <? acc then newY else acc
                | None => acc
                end)
             n lows init in
  r <= init /\
  (forall i low highest,
     nth_error lows i = Some low -> nth_error highs (n + i) = Some highest ->
     r <= low - highest - 1) /\
  (r = init \/
   exists i low highest,
     nth_error lows i = Some low /\ nth_error highs (n + i) = Some highest /\
     r = low - highest - 1).
Proof.
  set (step := fun (acc y : Z) (index : nat) =>
                 match nth_error highs index with
                 | Some highest =>
                     let newY := y - highest - 1 in
                     if newY <? acc then newY else acc
                 | None => acc
                 end).
  cbv zeta.
  revert n init. induction lows as [|y lows IH]; intros n init;
    cbn [reducei_from].
  - split; [lia|]. split; [intros [|i] ? ? H; discriminate H | auto].
  - assert (Hacc : step init y n <= init /\
                   (forall highest, nth_error highs n = Some highest ->
                      step init y n <= y - highest - 1) /\
                   (step init y n = init \/ exists highest,
                      nth_error highs n = Some highest /\
                      step init y n = y - highest - 1)).
    { unfold step. destruct (nth_error highs n) as [highest|].
      - cbv zeta. destruct (Z.ltb_spec (y - highest - 1) init).
        + split; [lia|]. split; [intros ? [= <-]; lia|]. right. eauto.
        + split; [lia|]. split; [intros ? [= <-]; lia | auto].
      - split; [lia|]. split; [discriminate | auto]. }
    destruct Hacc as (A1 & A2 & A3).
    destruct (IH (S n) (step init y n)) as (H1 & H2 & H3).
    split; [lia|]. split.
    + intros [|i] low highest Hl Hh.
      * simpl in Hl. injection Hl as <-. rewrite Nat.add_0_r in Hh.
        pose proof (A2 highest Hh). lia.
      * simpl in Hl. apply (H2 i low highest Hl).
        rewrite <- Hh. f_equal. lia.
    + destruct H3 as [H3|(i & low & highest & Hl & Hh & E)].
      * destruct A3 as [A3|(highest & Hh & E)].
        -- left. lia.
        -- right. exists 0%nat, y, highest. rewrite Nat.add_0_r.
           repeat split; auto. lia.
      * right. exists (S i), low, highest. repeat split; auto.
        rewrite <- Hh. f_equal. lia.
Qed.

Lemma piece_between_extremes (piece : Cubes) (cube : Cube) :
  In cube piece ->
  fst (minMaxX piece) <= cube_x cube <= snd (minMaxX piece).
Proof.
  intros Hin. unfold minMaxX. rewrite minMax_fold. cbn [fst snd].
  destruct (fold_min_le (map cube_x piece) GRID_WIDTH) as (_ & L & _).
  destruct (fold_max_ge (map cube_x piece) (-1)) as (_ & R & _).
  split; [apply L | apply R]; apply in_map; exact Hin.
Qed.

Lemma columnBottom_spec (piece : Cubes) (x : Z) :
  MAIN_GRID_Y <= columnBottom piece x /\
  (forall cube, In cube piece -> cube_x cube = x ->
     cube_y cube <= columnBottom piece x) /\
  (columnBottom piece x = MAIN_GRID_Y \/
   exists cube, In cube piece /\ cube_x cube = x /\
     cube_y cube = columnBottom piece x).
Proof.
  unfold columnBottom.
  destruct (fold_highest (filter (fun cube => cube_x cube =? x) piece)
              MAIN_GRID_Y) as (H1 & H2 & H3).
  split; [exact H1|]. split.
  - intros cube Hin Hx. apply H2. apply filter_In. split; [exact Hin|].
    apply Z.eqb_eq, Hx.
  - destruct H3 as [H3|(cube & Hin & E)]; [left; exact H3|].
    right. apply filter_In in Hin. destruct Hin as [Hin Hx].
    apply Z.eqb_eq in Hx. eauto.
Qed.

Lemma hardDrop_bounds (s : State) :
  let d := hardDropDistance s in
  d <= GRID_HEIGHT /\
  (forall cube, In cube (currentCubes s) -> cube_y cube + d < GRID_HEIGHT) /\
  (forall cube g, In cube (currentCubes s) -> In g (mainGridCubes s) ->
     cube_x g = cube_x cube -> MAIN_GRID_Y < cube_y g ->
     (forall c', In c' (currentCubes s) -> cube_x c' = cube_x cube ->
                 cube_y c' < cube_y g) ->
     cube_y cube + d < cube_y g) /\
  ((forall cube, In cube (currentCubes s) -> cube_y cube < GRID_HEIGHT) ->
   0 <= d).
Proof.
  unfold hardDropDistance.
  pose proof (piece_between_extremes (currentCubes s)) as Hext.
  destruct (minMaxX (currentCubes s)) as [minX maxX]. cbn [fst snd] in Hext.
  set (highs := map _ (map _ (range minX maxX))).
  set (lowOf := fun cubeArr : Cubes => fold_left _ cubeArr GRID_HEIGHT).
  set (lows := map lowOf
                 (map (fun x => filter (fun cube => cube_x cube =? x)
                                  (mainGridCubes s))
                    (range minX maxX))).
  assert (Hhighs : forall i x, nth_error (range minX maxX) i = Some x ->
            nth_error highs i = Some (columnBottom (currentCubes s) x)).
  { intros i x Hx. unfold highs. rewrite !nth_error_map, Hx. reflexivity. }
  assert (Hlows : forall i x, nth_error (range minX maxX) i = Some x ->
            nth_error lows i
            = Some (lowOf (filter (fun cube => cube_x cube =? x)
                             (mainGridCubes s)))).
  { intros i x Hx. unfold lows. rewrite !nth_error_map, Hx. reflexivity. }
  assert (Hcol : forall x, minX <= x <= maxX ->
            nth_error (range minX maxX) (Z.to_nat (x - minX)) = Some x).
  { intros x Hx. pose proof (range_lookup minX maxX (x - minX)) as H.
    unfold lookup in H. destruct (Z.ltb_spec (x - minX) 0); [lia|].
    rewrite H by lia. f_equal. lia. }
  assert (Hlow : forall x, minX <= x <= maxX ->
            let low := lowOf (filter (fun cube => cube_x cube =? x)
                                (mainGridCubes s)) in
            let bottom := columnBottom (currentCubes s) x in
            low <= GRID_HEIGHT /\
            (forall g, In g (mainGridCubes s) -> cube_x g = x ->
               bottom < cube_y g -> low <= cube_y g) /\
            (low = GRID_HEIGHT \/ bottom < low)).
  { intros x Hx. cbv zeta. unfold lowOf.
    set (bottom := columnBottom (currentCubes s) x).
    assert (Hh : forall g, cube_x g = x ->
              lookup highs (cube_x g - minX) = Some bottom).
    { intros g Hg. rewrite Hg. unfold lookup.
      destruct (Z.ltb_spec (x - minX) 0); [lia|].
      apply Hhighs, Hcol, Hx. }
    destruct (fold_lowest (fun cube => lookup highs (cube_x cube - minX))
                (filter (fun cube => cube_x cube =? x) (mainGridCubes s))
                GRID_HEIGHT) as (L1 & L2 & L3).
    split; [exact L1|]. split.
    - intros g Hg Hgx Hlt. apply (L2 g bottom); [|apply Hh, Hgx | exact Hlt].
      apply filter_In. split; [exact Hg | apply Z.eqb_eq, Hgx].
    - destruct L3 as [L3|(g & highest & Hg & Hgh & Hlt & E)];
        [left; exact L3|].
      right. apply filter_In in Hg. destruct Hg as [_ Hgx].
      apply Z.eqb_eq in Hgx. rewrite (Hh g Hgx) in Hgh.
      injection Hgh as <-. lia. }
  destruct (reducei_least highs lows 0 GRID_HEIGHT) as (R1 & R2 & R3).
  unfold reducei. cbv zeta in *.
  set (d := reducei_from _ 0 lows GRID_HEIGHT) in *.
  assert (Hcube : forall cube, In cube (currentCubes s) ->
            let x := cube_x cube in
            d <= lowOf (filter (fun c => cube_x c =? x) (mainGridCubes s))
                 - columnBottom (currentCubes s) x - 1).
  { intros cube Hin x. pose proof (Hext cube Hin) as Hx.
    apply (R2 (Z.to_nat (x - minX))).
    - apply Hlows, Hcol, Hx.
    - apply Hhighs, Hcol, Hx. }
  split; [exact R1|]. split; [|split].
  - intros cube Hin. pose proof (Hcube cube Hin) as Hd. cbv zeta in Hd.
    destruct (Hlow (cube_x cube) (Hext cube Hin)) as (Hl & _ & _).
    destruct (columnBottom_spec (currentCubes s) (cube_x cube))
      as (_ & Hb & _).
    pose proof (Hb cube Hin eq_refl). lia.
  - intros cube g Hin Hg Hgx Hrow Habove.
    pose proof (Hcube cube Hin) as Hd. cbv zeta in Hd.
    destruct (Hlow (cube_x cube) (Hext cube Hin)) as (_ & Hl & _).
    destruct (columnBottom_spec (currentCubes s) (cube_x cube))
      as (_ & Hb & Hb').
    assert (Hlt : columnBottom (currentCubes s) (cube_x cube) < cube_y g).
    { destruct Hb' as [->|(c' & Hc' & Hx' & <-)];
        [exact Hrow | apply Habove; assumption]. }
    pose proof (Hl g Hg Hgx Hlt). pose proof (Hb cube Hin eq_refl). lia.
  - intros Hfloor.
    destruct R3 as [R3|(i & low & highest & Hl & Hh & E)];
      [rewrite R3; unfold GRID_HEIGHT; lia|].
    unfold lows in Hl. rewrite !nth_error_map in Hl.
    destruct (nth_error (range minX maxX) i) as [x|] eqn:Ex;
      [|discriminate].
    cbn [option_map] in Hl. injection Hl as <-.
    cbn [Nat.add] in Hh. rewrite (Hhighs i x Ex) in Hh. injection Hh as <-.
    assert (Hx : minX <= x <= maxX).
    { pose proof (range_nth _ _ _ _ Ex) as ->.
      assert (Hlen : (i < length (range minX maxX))%nat)
        by (apply nth_error_Some; congruence).
      unfold range in Hlen. rewrite length_map, length_seq in Hlen. lia. }
    destruct (Hlow x Hx) as (_ & _ & [Hl|Hl]); [|lia].
    destruct (columnBottom_spec (currentCubes s) x)
      as (_ & _ & [Hb|(c & Hc & _ & Hb)]).
    + rewrite E, Hl, Hb. unfold GRID_HEIGHT, MAIN_GRID_Y. lia.
    + pose proof (Hfloor c Hc). lia.
Qed.

(** X21.  Where a hard drop stops.  The distance [HardDrop] moves the
    piece down is at most GRID_HEIGHT; moved by it, every cube of the piece
    is above the floor, and above every settled cube of its column that
    lies below row MAIN_GRID_Y and below all the cubes of the piece in that
    column; and the distance is not negative when the piece is above the
    floor.  While the game is on, the piece moved by that distance, under
    coordinate ids, is what is merged into the settled grid. *)
Theorem HardDrop_stays_above (s : State) :
  let d := hardDropDistance s in
  d <= GRID_HEIGHT /\
  (forall cube, In cube (currentCubes s) -> cube_y cube + d < GRID_HEIGHT) /\
  (forall cube g, In cube (currentCubes s) -> In g (mainGridCubes s) ->
     cube_x g = cube_x cube -> MAIN_GRID_Y < cube_y g ->
     (forall c', In c' (currentCubes s) -> cube_x c' = cube_x cube ->
                 cube_y c' < cube_y g) ->
     cube_y cube + d < cube_y g) /\
  ((forall cube, In cube (currentCubes s) -> cube_y cube < GRID_HEIGHT) ->
   0 <= d) /\
  (forall s', HardDrop_apply s = Some s' -> gameEnd s = false ->
     mainGridCubes s'
     = finalMainGridCubesOf
         (mainGridCubes s ++ generateNewCubes (currentCubes s) 0 d true)).
Proof.
  destruct (hardDrop_bounds s) as (H1 & H2 & H3 & H4). cbv zeta in *.
  split; [exact H1|]. split; [exact H2|]. split; [exact H3|].
  split; [exact H4|]. apply HardDrop_grid.
Qed.

Lemma HardDrop_stays_above_witness :
  map coords (currentCubes wallState) = [(0, 5); (0, 4); (0, 6); (0, 7)] /\
  map coords (mainGridCubes wallState) = [(0, 19); (1, 19)] /\
  hardDropDistance wallState = 11 /\
  0 <= hardDropDistance wallState /\
  7 + hardDropDistance wallState < 19.
Proof.
  split; [reflexivity|]. split; [reflexivity|]. split; [reflexivity|].
  destruct (HardDrop_stays_above wallState) as (_ & _ & Habove & Hpos & _).
  split.
  - apply Hpos. intros cube Hin. simpl in Hin.
    repeat (destruct Hin as [<-|Hin]; [simpl; unfold GRID_HEIGHT; lia|]).
    contradiction.
  - apply (Habove (mkCube 0 7 cyan "c4")
             (mkCube 0 19 red (coordId 0 19))).
    + simpl. auto.
    + simpl. auto.
    + reflexivity.
    + simpl. unfold MAIN_GRID_Y. lia.
    + intros c' Hin _. simpl in Hin.
      repeat (destruct Hin as [<-|Hin]; [simpl; lia|]). contradiction.
Defined.

(** ** The cubes stay on the board *)

Ltac board_lia :=
  unfold GRID_WIDTH, GRID_HEIGHT, MAIN_GRID_X, MAIN_GRID_Y in *; lia.

Lemma aroundPivot_rows (piece : Cubes) (cube : Cube) :
  aroundPivot piece -> In cube piece -> MAIN_GRID_Y - 2 <= cube_y cube.
Proof.
  destruct piece as [|pivot rest]; [intros _ []|].
  intros [Hp Hall] Hin. rewrite Forall_forall in Hall.
  pose proof (Hall cube Hin). board_lia.
Qed.

Lemma aroundPivot_span (piece : Cubes) (c c' : Cube) :
  aroundPivot piece -> In c piece -> In c' piece ->
  cube_y c - cube_y c' < GRID_WIDTH.
Proof.
  destruct piece as [|pivot rest]; [intros _ []|].
  intros [Hp Hall] Hc Hc'. rewrite Forall_forall in Hall.
  pose proof (Hall c Hc). pose proof (Hall c' Hc').
  board_lia.
Qed.

Lemma spawn_board (s : State) (cubes : Cubes) :
  spawnedCubes s = Some cubes -> onBoard cubes /\ aroundPivot cubes.
Proof.
  unfold spawnedCubes, bind.
  destruct (previewColour s) as [colour|]; [|discriminate].
  destruct (generateTetromino _ _ _) as [create|] eqn:E; [|discriminate].
  intros [= <-]. apply tetromino_cases in E.
  unfold onBoard, aroundPivot.
  repeat destruct E as [->|E]; try subst create; simpl;
    (split; [|split; [board_lia|]]);
    repeat (constructor;
            [simpl; board_lia|]);
    constructor.
Qed.

Lemma translated_aroundPivot (piece : Cubes) (dx dy : Z) :
  aroundPivot piece -> 0 <= dy ->
  aroundPivot (generateNewCubes piece dx dy false).
Proof.
  destruct piece as [|pivot rest]; [intros; exact I|].
  intros [Hp Hall] Hdy. unfold aroundPivot, generateNewCubes.
  cbn [map cube_x cube_y]. split; [board_lia|].
  rewrite Forall_forall in *. intros cube Hin.
  change (In cube (map (fun c => mkCube (cube_x c + dx) (cube_y c + dy)
                                   (cube_colour c) (cube_id c))
                     (pivot :: rest))) in Hin.
  apply in_map_iff in Hin. destruct Hin as (c & <- & Hc).
  pose proof (Hall c Hc). simpl. board_lia.
Qed.

Lemma translated_onBoard (piece : Cubes) (dx dy : Z) (id : bool) :
  (forall cube, In cube piece ->
     0 <= cube_x cube + dx < GRID_WIDTH /\
     MAIN_GRID_Y - 2 <= cube_y cube + dy < GRID_HEIGHT) ->
  onBoard (generateNewCubes piece dx dy id).
Proof.
  intros H. unfold onBoard, generateNewCubes. apply Forall_forall.
  intros cube Hin. apply in_map_iff in Hin. destruct Hin as (c & <- & Hc).
  simpl. apply H, Hc.
Qed.

Lemma onBoard_In (cubes : Cubes) (cube : Cube) :
  onBoard cubes -> In cube cubes ->
  0 <= cube_x cube < GRID_WIDTH /\
  MAIN_GRID_Y - 2 <= cube_y cube < GRID_HEIGHT.
Proof.
  unfold onBoard. rewrite Forall_forall. intros H Hin. apply H, Hin.
Qed.

Lemma no_collision_above_floor (s : State) (cubes : Cubes) (cube : Cube) :
  isCollide (withCurrentCubes s cubes) = false -> In cube cubes ->
  cube_y cube < GRID_HEIGHT.
Proof.
  intros Hc Hin.
  destruct (Z_lt_ge_dec (cube_y cube) GRID_HEIGHT) as [|Hge]; [assumption|].
  apply not_true_iff_false in Hc. exfalso. apply Hc.
  apply (isCollide_iff (withCurrentCubes s cubes)).
  exists cube. split; [exact Hin | right; board_lia].
Qed.

Lemma valid_between_walls (s : State) (cubes : Cubes) (cube : Cube) :
  isValid (withCurrentCubes s cubes) = true -> In cube cubes ->
  0 <= cube_x cube < GRID_WIDTH /\ cube_y cube < GRID_HEIGHT.
Proof.
  intros Hv Hin. apply isValid_parts in Hv. destruct Hv as (_ & Ho & _).
  apply not_true_iff_false in Ho.
  assert (Hno : ~ outOfBounds cubes)
    by (intros H; apply Ho, (isOutOfBound_iff (withCurrentCubes s cubes)), H).
  unfold outOfBounds in Hno.
  destruct (Z_lt_ge_dec (cube_x cube) 0);
    [exfalso; apply Hno; exists cube; auto|].
  destruct (Z_lt_ge_dec (cube_x cube) GRID_WIDTH);
    [|exfalso; apply Hno; exists cube; split; [exact Hin | right; left; board_lia]].
  destruct (Z_lt_ge_dec (cube_y cube) GRID_HEIGHT);
    [|exfalso; apply Hno; exists cube; split; [exact Hin | right; right; board_lia]].
  board_lia.
Qed.

Lemma clearLines_onBoard (cubes : Cubes) (line : Z) :
  0 <= line < GRID_HEIGHT -> onBoard cubes -> onBoard (clearLines cubes line).
Proof.
  intros Hline H. unfold onBoard. apply Forall_forall. intros cube Hin.
  apply clearLines_In in Hin. destruct Hin as (c & Hc & Hne & ->).
  pose proof (onBoard_In cubes c H Hc) as Hb.
  destruct (Z.ltb_spec (cube_y c) line); [|exact Hb].
  unfold movedDown. simpl. board_lia.
Qed.

Lemma fold_clearLines_onBoard (lines : list Z) (cubes : Cubes) :
  Forall (fun line => 0 <= line < GRID_HEIGHT) lines ->
  onBoard cubes -> onBoard (fold_left clearLines lines cubes).
Proof.
  revert cubes. induction lines as [|line lines IH]; intros cubes Hl H;
    [exact H|].
  inversion Hl; subst. simpl. apply IH; [assumption|].
  apply clearLines_onBoard; assumption.
Qed.

Lemma final_onBoard (cubes : Cubes) :
  onBoard cubes -> onBoard (finalMainGridCubesOf cubes).
Proof.
  intros H. unfold finalMainGridCubesOf.
  destruct (0 <? length (linesToClearOf cubes))%nat; [|exact H].
  apply fold_clearLines_onBoard; [|exact H].
  apply Forall_forall. intros line Hin.
  apply linesToClearOf_iff in Hin. apply Hin.
Qed.

Lemma Rotate_board (s : State) :
  onBoard (currentCubes s) -> aroundPivot (currentCubes s) ->
  onBoard (currentCubes (Rotate_apply s)) /\
  aroundPivot (currentCubes (Rotate_apply s)).
Proof.
  intros Hb Hp.
  assert (Hwalls : forall cube, In cube (currentCubes (Rotate_apply s)) ->
            0 <= cube_x cube < GRID_WIDTH).
  { apply Rotate_within_walls.
    - intros cube Hin. apply (onBoard_In _ _ Hb Hin).
    - intros c c'. apply aroundPivot_span, Hp. }
  revert Hwalls. unfold Rotate_apply.
  destruct (currentCubes s) as [|pivot rest] eqn:Ecur.
  - rewrite Ecur. auto.
  - destruct (Colour_eqb _ _); [rewrite Ecur; auto|].
    cbv zeta. rewrite rotation_map.
    set (turned := map (rotatedAbout pivot) (pivot :: rest)).
    destruct (isCollide _) eqn:Ecol; cbn [currentCubes withPiece]; [auto|].
    intros Hwalls.
    destruct Hp as [Hpy Hall]. rewrite Forall_forall in Hall.
    assert (Hin : forall cube,
              In cube (generateNewCubes turned (wallKick turned) 0 false) ->
              exists c, In c (pivot :: rest) /\
                cube_x cube = cube_x pivot - (cube_y c - cube_y pivot)
                              + wallKick turned /\
                cube_y cube = cube_y pivot + (cube_x c - cube_x pivot)).
    { intros cube Hin. unfold generateNewCubes in Hin.
      apply in_map_iff in Hin. destruct Hin as (t & <- & Ht).
      apply in_map_iff in Ht. destruct Ht as (c & <- & Hc).
      exists c. split; [exact Hc|].
      unfold rotatedAbout. simpl. split; lia. }
    set (kick := wallKick turned) in *. clearbody kick.
    split.
    + unfold onBoard. apply Forall_forall. intros cube Hcube.
      split; [apply Hwalls, Hcube|].
      pose proof (no_collision_above_floor s _ cube Ecol Hcube) as Hfloor.
      destruct (Hin cube Hcube) as (c & Hc & _ & Hy).
      pose proof (Hall c Hc). board_lia.
    + unfold aroundPivot.
      remember (generateNewCubes turned kick 0 false) as result eqn:Eres.
      destruct result as [|first others].
      * exact I.
      * assert (Hfirst : cube_x first = cube_x pivot + kick /\
                         cube_y first = cube_y pivot).
        { unfold generateNewCubes, turned in Eres. cbn [map] in Eres.
          injection Eres as -> _. unfold rotatedAbout. simpl. split; lia. }
        split; [board_lia|]. apply Forall_forall. intros cube Hcube.
        destruct (Hin cube Hcube) as (c & Hc & Hx & Hy).
        pose proof (Hall c Hc). board_lia.
Qed.

Lemma HardDrop_dropped_onBoard (s : State) :
  onBoard (currentCubes s) ->
  onBoard (generateNewCubes (currentCubes s) 0 (hardDropDistance s) true).
Proof.
  intros Hb. destruct (hardDrop_bounds s) as (_ & Hfloor & _ & Hpos).
  cbv zeta in *.
  assert (Hd : 0 <= hardDropDistance s).
  { apply Hpos. intros cube Hin. apply (onBoard_In _ _ Hb Hin). }
  apply translated_onBoard. intros cube Hin.
  pose proof (onBoard_In _ _ Hb Hin). pose proof (Hfloor cube Hin). board_lia.
Qed.

Lemma landing_board (s s' : State) :
  boardInvariant s -> gameEnd s = false ->
  GameTick_apply s = Some s' \/ HardDrop_apply s = Some s' ->
  boardInvariant s'.
Proof.
  intros (Hb & Hp & Hm) Hend H.
  assert (Hgrid : onBoard (mainGridCubes s')).
  { destruct H as [H|H].
    - rewrite (GameTick_grid s s' H Hend). apply final_onBoard.
      unfold gameTickMerged. destruct (isCollide _); [|exact Hm].
      apply Forall_app. split; [exact Hm|].
      apply translated_onBoard. intros cube Hin.
      pose proof (onBoard_In _ _ Hb Hin). board_lia.
    - rewrite (HardDrop_grid s s' H Hend). apply final_onBoard.
      unfold hardDropMerged. apply Forall_app. split; [exact Hm|].
      apply HardDrop_dropped_onBoard, Hb. }
  assert (Hpiece : (spawnedCubes s = Some (currentCubes s')) \/
                   (currentCubes s'
                    = generateNewCubes (currentCubes s) 0 1 false /\
                    currentCubes s <> [] /\
                    isCollide (withCurrentCubes s (currentCubes s')) = false)).
  { destruct H as [H|H].
    - unfold GameTick_apply, bind in H.
      destruct (shouldUpdateGrid _) eqn:E.
      + destruct (spawnedCubes s); [|discriminate].
        destruct (nextPreview s); [|discriminate].
        injection H as <-. left. reflexivity.
      + injection H as <-. right. cbn [currentCubes].
        unfold shouldUpdateGrid in E.
        cbn [currentCubes gameEnd withCurrentCubes] in E. rewrite Hend in E.
        cbn [negb] in E.
        rewrite andb_true_r in E. apply orb_false_iff in E.
        destruct E as [E1 E2]. split; [reflexivity|]. split; [|exact E1].
        intros Hnil. rewrite Hnil in E2. discriminate E2.
    - unfold HardDrop_apply, bind in H.
      destruct (spawnedCubes s); [|discriminate].
      destruct (nextPreview s); [|discriminate].
      injection H as <-. left. reflexivity. }
  destruct Hpiece as [Hs|(Hc & Hne & Hcol)].
  - destruct (spawn_board s _ Hs) as [Hb' Hp'].
    split; [exact Hb'|]. split; [exact Hp' | exact Hgrid].
  - split; [|split; [|exact Hgrid]].
    + rewrite Hc. apply translated_onBoard. intros cube Hin.
      pose proof (onBoard_In _ _ Hb Hin) as Hcube.
      assert (Hin' : In (mkCube (cube_x cube + 0) (cube_y cube + 1)
                           (cube_colour cube) (cube_id cube))
                       (currentCubes s')).
      { rewrite Hc. unfold generateNewCubes. apply in_map_iff.
        exists cube. split; [reflexivity | exact Hin]. }
      pose proof (no_collision_above_floor s _ _ Hcol Hin') as Hfloor.
      simpl in Hfloor. board_lia.
    + rewrite Hc. apply translated_aroundPivot; [exact Hp | board_lia].
Qed.

Lemma move_board (s : State) (dx dy : Z) :
  boardInvariant s -> 0 <= dy ->
  let moved := generateNewCubes (currentCubes s) dx dy false in
  boardInvariant
    (withPiece s
       (if isValid (withCurrentCubes s moved) then moved else currentCubes s)).
Proof.
  intros (Hb & Hp & Hm) Hdy moved. unfold boardInvariant.
  cbn [currentCubes mainGridCubes withPiece].
  destruct (isValid (withCurrentCubes s moved)) eqn:E;
    [|split; [exact Hb|]; split; [exact Hp | exact Hm]].
  split; [|split; [|exact Hm]].
  - unfold onBoard. apply Forall_forall. intros cube Hin.
    pose proof (valid_between_walls s moved cube E Hin) as Hw.
    pose proof (aroundPivot_rows moved cube
                  (translated_aroundPivot _ dx dy Hp Hdy) Hin).
    board_lia.
  - apply translated_aroundPivot; assumption.
Qed.

Section Board.

Variable calculateDropTick : Z -> Z.

Lemma board_step (s s' : State) (a : Action) :
  boardInvariant s -> gameEnd s = false ->
  apply calculateDropTick s a = Some s' -> boardInvariant s'.
Proof.
  intros Hinv Hend H. destruct a; simpl in H.
  - destruct (rollsOver s) eqn:E.
    + destruct (Tick_rollover calculateDropTick s E)
        as (s1 & E1 & Hc & Hm & _ & _ & _ & _ & _ & He).
      rewrite E1 in H. apply (landing_board s1 s'); [| congruence | auto].
      unfold boardInvariant. rewrite Hc, Hm. exact Hinv.
    + destruct (Tick_no_rollover calculateDropTick s E)
        as (s2 & E2 & Hc & Hm & _).
      rewrite E2 in H. injection H as <-.
      unfold boardInvariant. rewrite Hc, Hm. exact Hinv.
  - injection H as <-. apply (move_board s (-1) 0 Hinv). board_lia.
  - injection H as <-. apply (move_board s 1 0 Hinv). board_lia.
  - injection H as <-. apply (move_board s 0 1 Hinv). board_lia.
  - injection H as <-. destruct Hinv as (Hb & Hp & Hm).
    destruct (Rotate_board s Hb Hp) as [Hb' Hp'].
    unfold boardInvariant. rewrite Rotate_mainGrid. auto.
  - apply (landing_board s s' Hinv Hend). right. exact H.
  - injection H as <-. unfold Reset_apply. rewrite Hend. exact Hinv.
Qed.

End Board.

Section BoardRuns.

Variable calculateDropTick : Z -> Z.

Lemma run_board (actions : list Action) (s s' : State) :
  boardInvariant s ->
  staysInPlay calculateDropTick s actions = true ->
  run calculateDropTick s actions = Some s' ->
  boardInvariant s'.
Proof.
  revert s. induction actions as [|a rest IH]; intros s Hinv Hplay Hrun;
    simpl in *.
  - injection Hrun as <-. exact Hinv.
  - apply andb_true_iff in Hplay. destruct Hplay as [Hend Hplay].
    apply negb_true_iff in Hend.
    unfold reduceState, bind in Hrun.
    destruct (apply calculateDropTick s a) as [s1|] eqn:E; [|discriminate].
    apply (IH s1); [|exact Hplay | exact Hrun].
    apply (board_step calculateDropTick s s1 a); assumption.
Qed.

(** X22.  While the game is on, every cube stays on the board: in a game
    from an initial state in which [gameEnd] is false whenever an action is
    applied, every cube of the piece in play and of the settled grid of the
    state reached (the state that ends the game included) is between the
    walls, 0 <= x < GRID_WIDTH, above the floor, y < GRID_HEIGHT, and at
    most two rows above the spawn rows, MAIN_GRID_Y - 2 <= y. *)
Theorem cells_stay_on_board (initialRNG : Z) (s0 s : State)
  (actions : list Action) :
  initialState initialRNG = Some s0 ->
  staysInPlay calculateDropTick s0 actions = true ->
  run calculateDropTick s0 actions = Some s ->
  forall cube, In cube (currentCubes s) \/ In cube (mainGridCubes s) ->
    0 <= cube_x cube < GRID_WIDTH /\
    MAIN_GRID_Y - 2 <= cube_y cube < GRID_HEIGHT.
Proof.
  intros H0 Hplay Hrun.
  assert (Hinit : boardInvariant s0).
  { unfold initialState, bind in H0.
    destruct (generateTetromino _ _ _); [|discriminate].
    injection H0 as <-. unfold boardInvariant, onBoard. simpl.
    split; [constructor|]. split; [exact I | constructor]. }
  destruct (run_board actions s0 s Hinit Hplay Hrun) as (Hb & _ & Hm).
  intros cube [Hin|Hin]; [apply (onBoard_In _ _ Hb Hin)|].
  apply (onBoard_In _ _ Hm Hin).
Qed.

End BoardRuns.

Lemma cells_stay_on_board_witness :
  exists s0 s,
    initialState 1356 = Some s0 /\
    run tabulatedDropTick s0 (firstn 51 lostFlagActions) = Some s /\
    gameEnd s = true /\
    forall cube, In cube (currentCubes s) \/ In cube (mainGridCubes s) ->
      0 <= cube_x cube < GRID_WIDTH /\
      MAIN_GRID_Y - 2 <= cube_y cube < GRID_HEIGHT.
Proof.
  eexists. eexists.
  split; [vm_compute; reflexivity|].
  split; [vm_compute; reflexivity|].
  split; [reflexivity|].
  eapply (cells_stay_on_board tabulatedDropTick 1356 _ _
            (firstn 51 lostFlagActions));
    [vm_compute; reflexivity | vm_compute; reflexivity
    | vm_compute; reflexivity].
Defined.

(** ** Coordinate ids *)

Lemma digits_lack_y (d : Decimal.uint) :
  lacks letterY (NilEmpty.string_of_uint d).
Proof.
  induction d; simpl; try (split; [discriminate | assumption]). exact I.
Qed.

Lemma string_of_Z_lacks_y (z : Z) : lacks letterY (string_of_Z z).
Proof.
  unfold string_of_Z, NilZero.string_of_int, NilZero.string_of_uint.
  destruct (Z.to_int z) as [d|d]; destruct d;
    try (apply (digits_lack_y (_ d)));
    simpl; repeat (split; [discriminate|]);
    try exact I; try apply digits_lack_y.
Qed.

Lemma string_of_Z_injective (z z' : Z) :
  string_of_Z z = string_of_Z z' -> z = z'.
Proof.
  unfold string_of_Z. intros H. apply DecimalZ.to_int_inj.
  assert (Hnil : forall n, Z.to_int n <> Decimal.Pos Decimal.Nil /\
                           Z.to_int n <> Decimal.Neg Decimal.Nil).
  { intros [|p|p]; simpl; split; try discriminate;
      intros [= E]; apply (DecimalPos.Unsigned.to_uint_nonnil p E). }
  destruct (Hnil z) as [H1 H2]. destruct (Hnil z') as [H1' H2'].
  pose proof (NilZero.isi _ H1 H2) as E. rewrite H in E.
  rewrite (NilZero.isi _ H1' H2') in E. congruence.
Qed.

Lemma split_at_missing (c : Ascii.ascii) (a a' b b' : string) :
  lacks c a -> lacks c a' ->
  (a ++ String c b)%string = (a' ++ String c b')%string ->
  a = a' /\ b = b'.
Proof.
  revert a'. induction a as [|h a IH]; intros [|h' a'] Ha Ha' E; simpl in *.
  - injection E as <-. auto.
  - injection E as <- _. destruct Ha' as [Hne _]. contradiction.
  - injection E as -> _. destruct Ha as [Hne _]. contradiction.
  - injection E as <- E. destruct Ha as [_ Ha], Ha' as [_ Ha'].
    destruct (IH a' Ha Ha' E) as [-> ->]. auto.
Qed.

Lemma coordId_inj (x y x' y' : Z) :
  coordId x y = coordId x' y' -> x = x' /\ y = y'.
Proof.
  unfold coordId. intros E. simpl in E. injection E as E.
  apply (split_at_missing letterY) in E;
    [|apply string_of_Z_lacks_y | apply string_of_Z_lacks_y].
  destruct E as [Ex Ey].
  split; apply string_of_Z_injective; assumption.
Qed.

(** X23.  A coordinate id names one cell: [coordId], the id
    [generateNewCubes] and [clearLines] give a settled cube, is the same
    for two pairs of coordinates exactly when the pairs are the same. *)
Theorem coordId_injective (x y x' y' : Z) :
  coordId x y = coordId x' y' <-> x = x' /\ y = y'.
Proof.
  split; [apply coordId_inj|]. intros [-> ->]. reflexivity.
Qed.

Lemma coordId_injective_witness :
  coordId 1 12 = "x1y12"%string /\ coordId (-1) 2 = "x-1y2"%string /\
  coordId 1 12 <> coordId 11 2.
Proof.
  split; [reflexivity|]. split; [reflexivity|].
  intros E. apply (proj1 (coordId_injective 1 12 11 2)) in E. lia.
Defined.

(** X24.  Settled cubes that carry the id of their cell and lie on
    different cells have different ids. *)
Theorem settled_ids_distinct (cubes : Cubes) :
  coordinateIds cubes -> noDuplicateCoords cubes ->
  NoDup (map cube_id cubes).
Proof.
  unfold coordinateIds, noDuplicateCoords.
  induction cubes as [|cube cubes IH]; intros Hids Hnd; simpl; constructor.
  - inversion Hids as [|? ? Hid Hrest]; subst.
    inversion Hnd as [|? ? Hnotin Hnd']; subst.
    intros Hin. apply Hnotin. apply in_map_iff in Hin.
    destruct Hin as (c & Ec & Hc). rewrite Forall_forall in Hrest.
    rewrite Hid, (Hrest c Hc) in Ec. apply coordId_inj in Ec.
    apply in_map_iff. exists c. split; [|exact Hc].
    unfold coords. destruct Ec as [-> ->]. reflexivity.
  - inversion Hids; subst. inversion Hnd; subst. apply IH; assumption.
Qed.

Lemma settled_ids_distinct_witness :
  map cube_id (fullRowOf 19 ++ [mkCube 2 18 blue (coordId 2 18)])
  = ["x0y19"; "x1y19"; "x2y19"; "x3y19"; "x4y19"; "x5y19"; "x6y19";
     "x7y19"; "x8y19"; "x9y19"; "x2y18"]%string /\
  NoDup (map cube_id (fullRowOf 19 ++ [mkCube 2 18 blue (coordId 2 18)])).
Proof.
  split; [reflexivity|].
  apply settled_ids_distinct.
  - repeat constructor.
  - apply allDistinct_NoDup. reflexivity.
Defined.

(** ** The generator in range *)

(** X25.  The generator stays in range: for every seed that is not
    negative, [RNG.hash] returns an integer in [0, 2^31) (so every seed of
    a game is one again), [RNG.scale] returns an index in [0, 6] and is
    idempotent, [generateTetromino] returns a piece factory for the hash,
    and the hash is the exact linear congruential step as long as
    a * seed + c stays below 2^53. *)
Theorem RNG_stays_in_range (seed : Z) :
  0 <= seed ->
  0 <= RNG.hash seed < 2 ^ 31 /\
  0 <= RNG.scale seed <= 6 /\
  RNG.scale (RNG.scale seed) = RNG.scale seed /\
  (forall x y, exists create,
     generateTetromino (RNG.hash seed) x y = Some create) /\
  (RNG.a * seed + RNG.c < 2 ^ 53 ->
   RNG.hash seed = (RNG.a * seed + RNG.c) mod RNG.m).
Proof.
  intros H. pose proof (hash_range seed H) as Hh.
  split; [exact Hh|]. split; [apply scale_range, H|].
  split; [apply scale_idempotent|]. split.
  - intros x y.
    destruct (generateTetromino_Some (RNG.hash seed) x y (proj1 Hh))
      as (create & E & _).
    eauto.
  - intros Hb. apply (hash_exact_below_2p53 seed H Hb).
Qed.

Lemma RNG_stays_in_range_witness :
  RNG.hash 8162280 = 1159229952 /\
  0 <= RNG.hash 8162280 < 2 ^ 31 /\
  RNG.hash 1356 = (RNG.a * 1356 + RNG.c) mod RNG.m.
Proof.
  split; [reflexivity|].
  split; [exact (proj1 (RNG_stays_in_range 8162280 ltac:(lia)))|].
  destruct (RNG_stays_in_range 1356) as (_ & _ & _ & _ & Hexact); [lia|].
  apply Hexact. vm_compute. reflexivity.
Defined.

(** ** The settled grid while the game is on *)

Lemma gameOverOf_false (cubes : Cubes) :
  gameOverOf cubes = false <-> forall cube, In cube cubes -> 0 <= cube_y cube.
Proof.
  unfold gameOverOf. rewrite nonEmptyFilter_existsb. split.
  - intros H cube Hin.
    destruct (Z.ltb_spec (cube_y cube) 0) as [Hlt|]; [|assumption].
    assert (Hex : existsb (fun c => cube_y c <? 0) cubes = true).
    { apply existsb_exists. exists cube. split; [exact Hin|].
      apply Z.ltb_lt, Hlt. }
    congruence.
  - intros H. apply not_true_iff_false. intros Hex.
    apply existsb_exists in Hex. destruct Hex as (cube & Hin & Hlt).
    apply Z.ltb_lt in Hlt. pose proof (H cube Hin). lia.
Qed.

Lemma isCollide_false (s : State) :
  isCollide s = false <->
  forall cube, In cube (currentCubes s) ->
    cube_y cube < GRID_HEIGHT /\
    forall g, In g (mainGridCubes s) -> coords g <> coords cube.
Proof.
  split.
  - intros H cube Hin. apply not_true_iff_false in H. split.
    + destruct (Z_lt_ge_dec (cube_y cube) GRID_HEIGHT) as [|Hge];
        [assumption|].
      exfalso. apply H, isCollide_iff. exists cube.
      split; [exact Hin | right; lia].
    + intros g Hg E. apply H, isCollide_iff. exists cube.
      split; [exact Hin|]. left. exists g. auto.
  - intros H. apply not_true_iff_false. intros Hc.
    apply isCollide_iff in Hc. destruct Hc as (cube & Hin & [Hhit|Hfloor]).
    + destruct Hhit as (g & Hg & E). apply (proj2 (H cube Hin) g Hg E).
    + pose proof (proj1 (H cube Hin)). lia.
Qed.

(** Rows of a grid after a line is cleared. *)
Lemma clearLines_row_shifted (cubes : Cubes) (line y : Z) :
  y <= line ->
  length (rowCells (clearLines cubes line) y)
  = length (rowCells cubes (y - 1)).
Proof.
  intros Hle. unfold clearLines, rowCells.
  induction cubes as [|cube cubes IH]; [reflexivity|].
  cbn [filter].
  destruct (Z.eqb_spec (cube_y cube) line) as [E|E]; cbn [negb map filter].
  - destruct (Z.eqb_spec (cube_y cube) (y - 1)); [lia | exact IH].
  - destruct (Z.leb_spec (cube_y cube) line) as [Hc|Hc]; cbn [cube_y].
    + destruct (Z.eqb_spec (cube_y cube + 1) y);
        destruct (Z.eqb_spec (cube_y cube) (y - 1)); try lia;
        cbn [length]; rewrite IH; reflexivity.
    + destruct (Z.eqb_spec (cube_y cube) y);
        destruct (Z.eqb_spec (cube_y cube) (y - 1)); try lia; exact IH.
Qed.

Lemma fold_clears_all (lines : list Z) (cubes : Cubes) :
  StronglySorted Z.lt lines ->
  (forall y, length (rowCells cubes y) = Z.to_nat GRID_WIDTH <->
             In y lines) ->
  noFullRow (fold_left clearLines lines cubes).
Proof.
  intros Hs. revert cubes.
  induction Hs as [|line lines Hs IH Hlt]; intros cubes Hrows; simpl.
  - intros y Hy. apply (Hrows y), Hy.
  - apply IH. intros y. rewrite Forall_forall in Hlt.
    destruct (Z_le_gt_dec y line) as [Hle|Hgt].
    + rewrite clearLines_row_shifted by exact Hle. rewrite (Hrows (y - 1)).
      split.
      * intros [E|Hin]; [lia | pose proof (Hlt _ Hin); lia].
      * intros Hin. pose proof (Hlt _ Hin). lia.
    + rewrite clearLines_rowCells_above by lia. rewrite (Hrows y).
      split; [intros [E|Hin]; [lia | exact Hin] | intros Hin; right; exact Hin].
Qed.

Lemma final_noFullRow (cubes : Cubes) :
  (forall y, length (rowCells cubes y) = Z.to_nat GRID_WIDTH ->
             0 <= y < GRID_HEIGHT) ->
  noFullRow (finalMainGridCubesOf cubes).
Proof.
  intros Hrange.
  assert (Hrows : forall y, length (rowCells cubes y) = Z.to_nat GRID_WIDTH
                            <-> In y (linesToClearOf cubes)).
  { intros y. rewrite linesToClearOf_iff. unfold fullRow. split.
    - intros H. split; [apply Hrange, H | exact H].
    - intros [_ H]. exact H. }
  unfold finalMainGridCubesOf.
  destruct (Nat.ltb_spec 0 (length (linesToClearOf cubes))) as [Hpos|Hzero].
  - apply fold_clears_all; [apply linesToClearOf_ascending | exact Hrows].
  - intros y Hy. apply Hrows in Hy.
    destruct (linesToClearOf cubes); [exact Hy | simpl in Hzero; lia].
Qed.

Lemma noFullRow_final (cubes : Cubes) :
  noFullRow cubes -> finalMainGridCubesOf cubes = cubes.
Proof.
  intros H. unfold finalMainGridCubesOf.
  destruct (linesToClearOf cubes) as [|line lines] eqn:E; [reflexivity|].
  exfalso. assert (Hin : In line (linesToClearOf cubes))
    by (rewrite E; left; reflexivity).
  apply linesToClearOf_iff in Hin. destruct Hin as [_ Hfull].
  apply (H line Hfull).
Qed.

Lemma final_noDuplicateCoords (cubes : Cubes) :
  noDuplicateCoords cubes -> noDuplicateCoords (finalMainGridCubesOf cubes).
Proof.
  intros H. unfold finalMainGridCubesOf.
  destruct (0 <? length (linesToClearOf cubes))%nat; [|exact H].
  apply fold_clearLines_noDuplicateCoords, H.
Qed.

Lemma range_In (start end_ v : Z) :
  In v (range start end_) <-> start <= v <= end_.
Proof.
  unfold range. rewrite in_map_iff. split.
  - intros (i & <- & Hi). apply in_seq in Hi. lia.
  - intros Hv. exists (Z.to_nat (v - start)). split; [lia|].
    apply in_seq. lia.
Qed.

Lemma occupies_true (piece : Cubes) (x y : Z) :
  occupies piece x y = true ->
  exists cube, In cube piece /\ cube_x cube = x /\ cube_y cube = y.
Proof.
  unfold occupies. intros H. apply existsb_exists in H.
  destruct H as (cube & Hin & H). apply andb_true_iff in H.
  destruct H as [Hx Hy]. apply Z.eqb_eq in Hx, Hy. eauto.
Qed.

Lemma gapFreeb_gapFree (piece : Cubes) :
  gapFreeb piece = true -> gapFree piece.
Proof.
  unfold gapFreeb. intros H. rewrite forallb_forall in H.
  assert (Hpair : forall c1 c2, In c1 piece -> In c2 piece ->
    (cube_x c1 = cube_x c2 ->
     forall y, cube_y c1 < y < cube_y c2 ->
               occupies piece (cube_x c1) y = true) /\
    (cube_y c1 = cube_y c2 ->
     forall x, cube_x c1 < x < cube_x c2 ->
               occupies piece x (cube_y c1) = true)).
  { intros c1 c2 H1 H2. pose proof (H c1 H1) as H'.
    rewrite forallb_forall in H'. pose proof (H' c2 H2) as H12.
    apply andb_true_iff in H12. destruct H12 as [Hcol Hrow]. split.
    - intros E y Hy. apply orb_true_iff in Hcol.
      destruct Hcol as [Hne|Hall].
      + apply negb_true_iff, Z.eqb_neq in Hne. contradiction.
      + rewrite forallb_forall in Hall. apply Hall, range_In. lia.
    - intros E x Hx. apply orb_true_iff in Hrow.
      destruct Hrow as [Hne|Hall].
      + apply negb_true_iff, Z.eqb_neq in Hne. contradiction.
      + rewrite forallb_forall in Hall. apply Hall, range_In. lia. }
  split.
  - intros c1 c2 H1 H2 E y Hy.
    apply occupies_true, (proj1 (Hpair c1 c2 H1 H2) E y Hy).
  - intros c1 c2 H1 H2 E x Hx.
    apply occupies_true, (proj2 (Hpair c1 c2 H1 H2) E x Hx).
Qed.

Lemma spawn_shape (s : State) (cubes : Cubes) :
  spawnedCubes s = Some cubes ->
  noDuplicateCoords cubes /\ length cubes = 4%nat /\ gapFree cubes /\
  forall cube, In cube cubes -> cube_y cube < 0.
Proof.
  unfold spawnedCubes, bind.
  destruct (previewColour s) as [colour|]; [|discriminate].
  destruct (generateTetromino _ _ _) as [create|] eqn:E; [|discriminate].
  intros [= <-]. apply tetromino_cases in E.
  repeat destruct E as [->|E]; try subst create;
    (split; [apply allDistinct_NoDup; reflexivity|]);
    (split; [reflexivity|]);
    (split; [apply gapFreeb_gapFree; reflexivity|]);
    intros cube Hin; simpl in Hin;
    repeat (destruct Hin as [<-|Hin]; [simpl; unfold MAIN_GRID_Y; lia|]);
    contradiction.
Qed.

Lemma In_translated (piece : Cubes) (dx dy : Z) (id : bool) (cube : Cube) :
  In cube (generateNewCubes piece dx dy id) ->
  exists c, In c piece /\ cube_x cube = cube_x c + dx /\
    cube_y cube = cube_y c + dy.
Proof.
  unfold generateNewCubes. intros H. apply in_map_iff in H.
  destruct H as (c & <- & Hc). exists c. auto.
Qed.

Lemma translated_In (piece : Cubes) (dx dy : Z) (id : bool) (c : Cube) :
  In c piece ->
  exists cube, In cube (generateNewCubes piece dx dy id) /\
    cube_x cube = cube_x c + dx /\ cube_y cube = cube_y c + dy.
Proof.
  intros Hc. eexists. split.
  - unfold generateNewCubes. apply in_map_iff. exists c.
    split; [reflexivity | exact Hc].
  - split; reflexivity.
Qed.

Lemma translated_noDuplicateCoords (piece : Cubes) (dx dy : Z) (id : bool) :
  noDuplicateCoords piece ->
  noDuplicateCoords (generateNewCubes piece dx dy id).
Proof.
  unfold noDuplicateCoords, generateNewCubes. intros H.
  rewrite map_map. unfold coords. cbn [cube_x cube_y].
  rewrite <- (map_map coords (fun p => (fst p + dx, snd p + dy))).
  apply NoDup_map_injective_on; [|exact H].
  intros [x y] [x' y'] _ _ [= Ex Ey]. f_equal; lia.
Qed.

Lemma translated_gapFree (piece : Cubes) (dx dy : Z) (id : bool) :
  gapFree piece -> gapFree (generateNewCubes piece dx dy id).
Proof.
  intros [Hcol Hrow]. split.
  - intros c1 c2 H1 H2 E y Hy.
    apply In_translated in H1, H2.
    destruct H1 as (d1 & Hd1 & X1 & Y1), H2 as (d2 & Hd2 & X2 & Y2).
    destruct (Hcol d1 d2 Hd1 Hd2 ltac:(lia) (y - dy) ltac:(lia))
      as (d & Hd & Xd & Yd).
    destruct (translated_In piece dx dy id d Hd) as (c & Hc & Xc & Yc).
    exists c. split; [exact Hc | lia].
  - intros c1 c2 H1 H2 E x Hx.
    apply In_translated in H1, H2.
    destruct H1 as (d1 & Hd1 & X1 & Y1), H2 as (d2 & Hd2 & X2 & Y2).
    destruct (Hrow d1 d2 Hd1 Hd2 ltac:(lia) (x - dx) ltac:(lia))
      as (d & Hd & Xd & Yd).
    destruct (translated_In piece dx dy id d Hd) as (c & Hc & Xc & Yc).
    exists c. split; [exact Hc | lia].
Qed.

Lemma rotated_noDuplicateCoords (pivot : Cube) (piece : Cubes) :
  noDuplicateCoords piece ->
  noDuplicateCoords (map (rotatedAbout pivot) piece).
Proof.
  unfold noDuplicateCoords. intros H. rewrite map_map.
  unfold coords, rotatedAbout. cbn [cube_x cube_y].
  rewrite <- (map_map coords
                (fun p => (cube_x pivot - (snd p - cube_y pivot),
                           cube_y pivot + (fst p - cube_x pivot)))).
  apply NoDup_map_injective_on; [|exact H].
  intros [x y] [x' y'] _ _ [= Ex Ey]. cbn [fst snd] in *. f_equal; lia.
Qed.

Lemma rotated_gapFree (pivot : Cube) (piece : Cubes) :
  gapFree piece -> gapFree (map (rotatedAbout pivot) piece).
Proof.
  intros [Hcol Hrow].
  assert (Hin : forall cube, In cube (map (rotatedAbout pivot) piece) ->
            exists c, In c piece /\
              cube_x cube = cube_x pivot - (cube_y c - cube_y pivot) /\
              cube_y cube = cube_y pivot + (cube_x c - cube_x pivot)).
  { intros cube H. apply in_map_iff in H. destruct H as (c & <- & Hc).
    exists c. auto. }
  assert (Hout : forall c, In c piece ->
            exists cube, In cube (map (rotatedAbout pivot) piece) /\
              cube_x cube = cube_x pivot - (cube_y c - cube_y pivot) /\
              cube_y cube = cube_y pivot + (cube_x c - cube_x pivot)).
  { intros c Hc. exists (rotatedAbout pivot c).
    split; [apply in_map, Hc | auto]. }
  split.
  - intros c1 c2 H1 H2 E y Hy.
    destruct (Hin c1 H1) as (d1 & Hd1 & X1 & Y1).
    destruct (Hin c2 H2) as (d2 & Hd2 & X2 & Y2).
    destruct (Hrow d1 d2 Hd1 Hd2 ltac:(lia)
                (y - cube_y pivot + cube_x pivot) ltac:(lia))
      as (d & Hd & Xd & Yd).
    destruct (Hout d Hd) as (c & Hc & Xc & Yc).
    exists c. split; [exact Hc | lia].
  - intros c1 c2 H1 H2 E x Hx.
    destruct (Hin c1 H1) as (d1 & Hd1 & X1 & Y1).
    destruct (Hin c2 H2) as (d2 & Hd2 & X2 & Y2).
    destruct (Hcol d2 d1 Hd2 Hd1 ltac:(lia)
                (cube_x pivot - x + cube_y pivot) ltac:(lia))
      as (d & Hd & Xd & Yd).
    destruct (Hout d Hd) as (c & Hc & Xc & Yc).
    exists c. split; [exact Hc | lia].
Qed.

Lemma Rotate_shape (s : State) :
  noDuplicateCoords (currentCubes s) -> gapFree (currentCubes s) ->
  (length (currentCubes s) <= 4)%nat ->
  noDuplicateCoords (currentCubes (Rotate_apply s)) /\
  gapFree (currentCubes (Rotate_apply s)) /\
  (length (currentCubes (Rotate_apply s)) <= 4)%nat.
Proof.
  intros Hd Hg Hl. unfold Rotate_apply.
  destruct (currentCubes s) as [|pivot rest] eqn:Ecur.
  - rewrite Ecur. auto.
  - destruct (Colour_eqb _ _); [rewrite Ecur; auto|].
    cbv zeta. rewrite rotation_map.
    destruct (isCollide _); cbn [currentCubes withPiece]; [auto|].
    split; [apply translated_noDuplicateCoords, rotated_noDuplicateCoords, Hd|].
    split; [apply translated_gapFree, rotated_gapFree, Hg|].
    unfold generateNewCubes. rewrite !length_map. exact Hl.
Qed.

Lemma merged_noDuplicateCoords (settled placed : Cubes) :
  noDuplicateCoords settled -> noDuplicateCoords placed ->
  (forall cube g, In cube placed -> In g settled ->
                  coords g <> coords cube) ->
  noDuplicateCoords (settled ++ placed).
Proof.
  unfold noDuplicateCoords. intros Hs Hp Hdis. rewrite map_app.
  apply NoDup_app; [exact Hs | exact Hp |].
  intros xy Hin Hin'. apply in_map_iff in Hin, Hin'.
  destruct Hin as (g & Eg & Hg), Hin' as (cube & Ec & Hc).
  apply (Hdis cube g Hc Hg). congruence.
Qed.

Lemma merged_rows_in_range (settled placed : Cubes) (y : Z) :
  onBoard settled -> onBoard placed ->
  (forall g, In g settled -> 0 <= cube_y g) ->
  (length placed <= 4)%nat ->
  length (rowCells (settled ++ placed) y) = Z.to_nat GRID_WIDTH ->
  0 <= y < GRID_HEIGHT.
Proof.
  intros Hs Hp Hrows Hlen Hfull. unfold rowCells in Hfull.
  rewrite filter_app, length_app in Hfull.
  assert (Hnone : forall cubes, (forall c, In c cubes -> cube_y c <> y) ->
                    filter (fun cube => cube_y cube =? y) cubes = []).
  { intros cubes H. induction cubes as [|c cubes IH]; [reflexivity|].
    simpl. destruct (Z.eqb_spec (cube_y c) y) as [E|E].
    - exfalso. apply (H c (or_introl eq_refl) E).
    - apply IH. intros c' Hc'. apply H. right. exact Hc'. }
  pose proof (filter_length_le (fun cube => cube_y cube =? y) placed) as Hle.
  destruct (Z_lt_ge_dec y 0) as [Hneg|Hpos].
  - rewrite (Hnone settled) in Hfull.
    + simpl in Hfull. unfold GRID_WIDTH in Hfull. lia.
    + intros c Hc. pose proof (Hrows c Hc). lia.
  - destruct (Z_lt_ge_dec y GRID_HEIGHT) as [|Hhigh]; [lia|].
    rewrite (Hnone settled), (Hnone placed) in Hfull.
    + simpl in Hfull. unfold GRID_WIDTH in Hfull. lia.
    + intros c Hc. pose proof (onBoard_In _ _ Hp Hc). lia.
    + intros c Hc. pose proof (onBoard_In _ _ Hs Hc). lia.
Qed.

Lemma hardDrop_disjoint (s : State) :
  onBoard (currentCubes s) -> gapFree (currentCubes s) ->
  isCollide s = false ->
  (forall g, In g (mainGridCubes s) -> 0 <= cube_y g) ->
  forall cube g,
    In cube (generateNewCubes (currentCubes s) 0 (hardDropDistance s) true) ->
    In g (mainGridCubes s) -> coords g <> coords cube.
Proof.
  intros Hb [Hcol _] Hfree Hrows cube g Hcube Hg E.
  apply In_translated in Hcube. destruct Hcube as (c & Hc & Xc & Yc).
  unfold coords in E. injection E as Ex Ey.
  destruct (hardDrop_bounds s) as (_ & _ & Habove & Hpos). cbv zeta in *.
  assert (Hd : 0 <= hardDropDistance s).
  { apply Hpos. intros c' Hc'. apply (onBoard_In _ _ Hb Hc'). }
  pose proof (proj1 (isCollide_false s) Hfree) as Hno.
  assert (Hcell : forall c', In c' (currentCubes s) ->
            cube_x c' = cube_x g -> cube_y c' <> cube_y g).
  { intros c' Hc' Hx Hy. apply (proj2 (Hno c' Hc') g Hg).
    unfold coords. congruence. }
  destruct (columnBottom_spec (currentCubes s) (cube_x c))
    as (_ & Hbot & Hatt).
  destruct (Z_lt_ge_dec (columnBottom (currentCubes s) (cube_x c))
              (cube_y g)) as [Hlow|Hhigh].
  - assert (Hlt : cube_y c + hardDropDistance s < cube_y g).
    { apply (Habove c g Hc Hg); [lia | |].
      - pose proof (Hrows g Hg). unfold MAIN_GRID_Y. lia.
      - intros c' Hc' Hx. pose proof (Hbot c' Hc' Hx). lia. }
    lia.
  - destruct Hatt as [Hseed|(c' & Hc' & Hx' & Hy')].
    + pose proof (Hrows g Hg). unfold MAIN_GRID_Y in Hseed. lia.
    + pose proof (Hcell c' Hc' ltac:(lia)).
      pose proof (Hcell c Hc ltac:(lia)).
      destruct (Hcol c c' Hc Hc' ltac:(lia) (cube_y g) ltac:(lia))
        as (c'' & Hc'' & Hx'' & Hy'').
      apply (Hcell c'' Hc''); lia.
Qed.

Lemma isCollide_fields (s s' : State) :
  currentCubes s' = currentCubes s -> mainGridCubes s' = mainGridCubes s ->
  isCollide s' = isCollide s.
Proof. intros Hc Hm. unfold isCollide. rewrite Hc, Hm. reflexivity. Qed.

Lemma landing_cases (s s' : State) :
  gameEnd s = false ->
  GameTick_apply s = Some s' \/ HardDrop_apply s = Some s' ->
  (spawnedCubes s = Some (currentCubes s') /\
   exists placed,
     mainGridCubes s' = finalMainGridCubesOf (mainGridCubes s ++ placed) /\
     (placed = [] \/
      placed = generateNewCubes (currentCubes s) 0 0 true \/
      placed
      = generateNewCubes (currentCubes s) 0 (hardDropDistance s) true)) \/
  (currentCubes s' = generateNewCubes (currentCubes s) 0 1 false /\
   isCollide (withCurrentCubes s (currentCubes s')) = false /\
   mainGridCubes s' = finalMainGridCubesOf (mainGridCubes s)).
Proof.
  intros Hend [H|H].
  - pose proof (GameTick_grid s s' H Hend) as Hgrid.
    unfold gameTickMerged in Hgrid.
    unfold GameTick_apply, bind in H.
    destruct (shouldUpdateGrid _) eqn:E.
    + destruct (spawnedCubes s); [|discriminate].
      destruct (nextPreview s); [|discriminate].
      injection H as <-. left. split; [reflexivity|].
      cbn [mainGridCubes] in Hgrid |- *.
      destruct (isCollide _).
      * eexists. split; [exact Hgrid|]. right. left. reflexivity.
      * exists []. rewrite app_nil_r. split; [exact Hgrid | left; reflexivity].
    + injection H as <-. right.
      unfold shouldUpdateGrid in E.
      cbn [currentCubes gameEnd withCurrentCubes] in E. rewrite Hend in E.
      cbn [negb] in E. rewrite andb_true_r in E. apply orb_false_iff in E.
      destruct E as [E1 _].
      split; [reflexivity|]. split; [exact E1|].
      rewrite Hgrid, E1. reflexivity.
  - pose proof (HardDrop_grid s s' H Hend) as Hgrid.
    unfold hardDropMerged in Hgrid.
    unfold HardDrop_apply, bind in H.
    destruct (spawnedCubes s); [|discriminate].
    destruct (nextPreview s); [|discriminate].
    injection H as <-. left. split; [reflexivity|].
    eexists. split; [exact Hgrid|]. right. right. reflexivity.
Qed.

Lemma landing_play (s s' : State) :
  playInvariant s -> gameEnd s = false ->
  GameTick_apply s = Some s' \/ HardDrop_apply s = Some s' ->
  playInvariant s'.
Proof.
  intros (Hboard & Hmain & Hpiece & Hlen & Hgap & Hrow & Hflag & Hfree)
         Hend H.
  pose proof (landing_board s s' Hboard Hend H) as Hboard'.
  pose proof (landing_recognises_gameOver s s' Hend H) as Hflag'.
  specialize (Hfree Hend). rewrite Hend in Hflag. symmetry in Hflag.
  pose proof (proj1 (gameOverOf_false _) Hflag) as Hrows.
  destruct Hboard as (Hb & Hp & Hm).
  destruct (landing_cases s s' Hend H)
    as [(Hspawn & placed & Hgrid & Hplaced)|(Hc & Hcol & Hgrid)].
  - assert (Hok : onBoard placed /\ noDuplicateCoords placed /\
                  (length placed <= 4)%nat /\
                  forall cube g, In cube placed -> In g (mainGridCubes s) ->
                                 coords g <> coords cube).
    { destruct Hplaced as [->|[->| ->]].
      - split; [constructor|]. split; [constructor|].
        split; [simpl; lia|]. intros cube g [].
      - split.
        { apply translated_onBoard. intros cube Hin.
          pose proof (onBoard_In _ _ Hb Hin). lia. }
        split; [apply translated_noDuplicateCoords, Hpiece|].
        split; [unfold generateNewCubes; rewrite length_map; exact Hlen|].
        intros cube g Hcube Hg E. apply In_translated in Hcube.
        destruct Hcube as (c & Hc & Xc & Yc).
        apply (proj2 (proj1 (isCollide_false s) Hfree c Hc) g Hg).
        unfold coords in *. rewrite E. f_equal; lia.
      - split; [apply HardDrop_dropped_onBoard, Hb|].
        split; [apply translated_noDuplicateCoords, Hpiece|].
        split; [unfold generateNewCubes; rewrite length_map; exact Hlen|].
        apply hardDrop_disjoint; assumption. }
    destruct Hok as (Hpb & Hpd & Hpl & Hdis).
    destruct (spawn_shape s _ Hspawn) as (Hsd & Hsl & Hsg & Hsy).
    split; [exact Hboard'|].
    split; [rewrite Hgrid;
            apply final_noDuplicateCoords, merged_noDuplicateCoords;
            assumption|].
    split; [exact Hsd|]. split; [lia|]. split; [exact Hsg|].
    split.
    { rewrite Hgrid. apply final_noFullRow. intros y.
      apply merged_rows_in_range; assumption. }
    split; [exact Hflag'|].
    intros Hend'. rewrite Hend' in Hflag'. symmetry in Hflag'.
    pose proof (proj1 (gameOverOf_false _) Hflag') as Hrows'.
    apply isCollide_false. intros cube Hin.
    pose proof (Hsy cube Hin) as Hy. split; [unfold GRID_HEIGHT; lia|].
    intros g Hg E. pose proof (Hrows' g Hg). unfold coords in E.
    injection E as _ Ey. lia.
  - rewrite (noFullRow_final _ Hrow) in Hgrid.
    split; [exact Hboard'|].
    split; [rewrite Hgrid; exact Hmain|].
    split; [rewrite Hc; apply translated_noDuplicateCoords, Hpiece|].
    split; [rewrite Hc; unfold generateNewCubes; rewrite length_map;
            exact Hlen|].
    split; [rewrite Hc; apply translated_gapFree, Hgap|].
    split; [rewrite Hgrid; exact Hrow|].
    split; [exact Hflag'|].
    intros _. rewrite <- Hcol. apply isCollide_fields; [reflexivity|].
    exact Hgrid.
Qed.

Lemma move_play (s : State) (dx dy : Z) :
  playInvariant s -> gameEnd s = false -> 0 <= dy ->
  let moved := generateNewCubes (currentCubes s) dx dy false in
  playInvariant
    (withPiece s
       (if isValid (withCurrentCubes s moved) then moved else currentCubes s)).
Proof.
  intros (Hboard & Hmain & Hpiece & Hlen & Hgap & Hrow & Hflag & Hfree)
         Hend Hdy moved.
  split; [apply move_board; assumption|].
  unfold playInvariant. cbn [currentCubes mainGridCubes gameEnd withPiece].
  split; [exact Hmain|].
  destruct (isValid (withCurrentCubes s moved)) eqn:E.
  - split; [apply translated_noDuplicateCoords, Hpiece|].
    split; [unfold moved, generateNewCubes; rewrite length_map; exact Hlen|].
    split; [apply translated_gapFree, Hgap|].
    split; [exact Hrow|]. split; [exact Hflag|]. intros _.
    apply isValid_parts in E. destruct E as (E & _).
    rewrite <- E. apply isCollide_fields; reflexivity.
  - split; [exact Hpiece|]. split; [exact Hlen|]. split; [exact Hgap|].
    split; [exact Hrow|]. split; [exact Hflag|]. intros _.
    rewrite <- (Hfree Hend). apply isCollide_fields; reflexivity.
Qed.

Section PlayRuns.

Variable calculateDropTick : Z -> Z.

Lemma play_step (s s' : State) (a : Action) :
  playInvariant s -> gameEnd s = false ->
  apply calculateDropTick s a = Some s' -> playInvariant s'.
Proof.
  intros Hinv Hend H. destruct a; simpl in H.
  - destruct (rollsOver s) eqn:E.
    + destruct (Tick_rollover calculateDropTick s E)
        as (s1 & E1 & Hc & Hm & _ & _ & _ & _ & _ & He).
      rewrite E1 in H. apply (landing_play s1 s'); [| congruence | auto].
      destruct Hinv as (Hboard & Hrest).
      unfold playInvariant, boardInvariant.
      rewrite (isCollide_fields s s1 Hc Hm), Hc, Hm, He. split; assumption.
    + destruct (Tick_no_rollover calculateDropTick s E)
        as (s2 & E2 & Hc & Hm & _ & _ & _ & _ & _ & He & _).
      rewrite E2 in H. injection H as <-.
      destruct Hinv as (Hboard & Hrest).
      unfold playInvariant, boardInvariant.
      rewrite (isCollide_fields s s2 Hc Hm), Hc, Hm, He. split; assumption.
  - injection H as <-. apply (move_play s (-1) 0 Hinv Hend). lia.
  - injection H as <-. apply (move_play s 1 0 Hinv Hend). lia.
  - injection H as <-. apply (move_play s 0 1 Hinv Hend). lia.
  - injection H as <-.
    destruct Hinv
      as ((Hb & Hp & Hm) & Hmain & Hpiece & Hlen & Hgap & Hrow & Hflag
          & Hfree).
    destruct (Rotate_board s Hb Hp) as [Hb' Hp'].
    destruct (Rotate_shape s Hpiece Hgap Hlen) as (Hd' & Hg' & Hl').
    destruct (Rotate_frame s) as (_ & _ & _ & _ & He).
    unfold playInvariant, boardInvariant.
    rewrite Rotate_mainGrid, He.
    split; [split; [exact Hb' | split; [exact Hp' | exact Hm]]|].
    split; [exact Hmain|]. split; [exact Hd'|]. split; [exact Hl'|].
    split; [exact Hg'|]. split; [exact Hrow|]. split; [exact Hflag|].
    intros _. apply Rotate_no_collision, Hfree, Hend.
  - apply (landing_play s s' Hinv Hend). right. exact H.
  - injection H as <-. unfold Reset_apply. rewrite Hend. exact Hinv.
Qed.

Lemma run_play (actions : list Action) (s s' : State) :
  playInvariant s ->
  staysInPlay calculateDropTick s actions = true ->
  run calculateDropTick s actions = Some s' ->
  playInvariant s'.
Proof.
  revert s. induction actions as [|a rest IH]; intros s Hinv Hplay Hrun;
    simpl in *.
  - injection Hrun as <-. exact Hinv.
  - apply andb_true_iff in Hplay. destruct Hplay as [Hend Hplay].
    apply negb_true_iff in Hend.
    unfold reduceState, bind in Hrun.
    destruct (apply calculateDropTick s a) as [s1|] eqn:E; [|discriminate].
    apply (IH s1); [|exact Hplay | exact Hrun].
    apply (play_step s s1 a); assumption.
Qed.

(** X26.  While the game is on, the settled grid is sound: in a game from
    an initial state in which [gameEnd] is false whenever an action is
    applied, the state reached (the state that ends the game included) has
    no two settled cubes on one cell and no full row left in the settled
    grid, and its [gameEnd] flag is set exactly when a settled cube lies
    above row 0; and as long as the flag is clear, the cubes of the piece
    in play lie on different cells, none of them a settled cube's. *)
Theorem settled_grid_sound_in_play (initialRNG : Z) (s0 s : State)
  (actions : list Action) :
  initialState initialRNG = Some s0 ->
  staysInPlay calculateDropTick s0 actions = true ->
  run calculateDropTick s0 actions = Some s ->
  noDuplicateCoords (mainGridCubes s) /\
  (forall y, ~ fullRow (mainGridCubes s) y) /\
  (gameEnd s = true <->
   exists cube, In cube (mainGridCubes s) /\ cube_y cube < 0) /\
  (gameEnd s = false ->
   noDuplicateCoords (currentCubes s) /\
   forall cube g, In cube (currentCubes s) -> In g (mainGridCubes s) ->
                  coords g <> coords cube).
Proof.
  intros H0 Hplay Hrun.
  assert (Hinit : playInvariant s0).
  { unfold initialState, bind in H0.
    destruct (generateTetromino _ _ _); [|discriminate].
    injection H0 as <-.
    unfold playInvariant, boardInvariant, onBoard, noDuplicateCoords. simpl.
    split; [split; [constructor | split; [exact I | constructor]]|].
    split; [constructor|]. split; [constructor|]. split; [lia|].
    split; [split; intros c1 c2 []|].
    split; [intros y; simpl; unfold GRID_WIDTH; lia|].
    split; [reflexivity|]. intros _. reflexivity. }
  destruct (run_play actions s0 s Hinit Hplay Hrun)
    as (_ & Hmain & Hpiece & _ & _ & Hrow & Hflag & Hfree).
  split; [exact Hmain|].
  split; [intros y [_ Hfull]; apply (Hrow y Hfull)|].
  split.
  - rewrite Hflag. unfold gameOverOf.
    rewrite nonEmptyFilter_existsb, existsb_exists.
    split; intros (cube & Hin & Hy); exists cube; (split; [exact Hin|]).
    + apply Z.ltb_lt, Hy.
    + apply Z.ltb_lt, Hy.
  - intros Hend. split; [exact Hpiece|].
    intros cube g Hc Hg.
    apply (proj2 (proj1 (isCollide_false s) (Hfree Hend) cube Hc) g Hg).
Qed.

End PlayRuns.

Lemma settled_grid_sound_in_play_witness :
  exists s0 s,
    initialState 1356 = Some s0 /\
    run tabulatedDropTick s0 (firstn 50 lostFlagActions) = Some s /\
    gameEnd s = false /\ length (mainGridCubes s) = 56%nat /\
    (noDuplicateCoords (mainGridCubes s) /\
     (forall y, ~ fullRow (mainGridCubes s) y) /\
     (gameEnd s = true <->
      exists cube, In cube (mainGridCubes s) /\ cube_y cube < 0) /\
     (gameEnd s = false ->
      noDuplicateCoords (currentCubes s) /\
      forall cube g, In cube (currentCubes s) -> In g (mainGridCubes s) ->
                     coords g <> coords cube)).
Proof.
  eexists. eexists.
  split; [vm_compute; reflexivity|].
  split; [vm_compute; reflexivity|].
  split; [reflexivity|]. split; [reflexivity|].
  eapply (settled_grid_sound_in_play tabulatedDropTick 1356 _ _
            (firstn 50 lostFlagActions));
    [vm_compute; reflexivity | vm_compute; reflexivity
    | vm_compute; reflexivity].
Defined.
